(** * Robot arm simulator: kinematics, IK solver, sequencer and grasp tracker

    A shallow embedding of [utils/kinematics.ts], [constants.ts], [types.ts]
    and the [SimulationController] of [components/Scene.tsx], with the
    effect of [Scene] on the IK mode, the groups of
    [components/RobotArm.tsx] around the tool tip and the handlers of
    [App.tsx] that add an object and start a run.

    JavaScript numbers are modelled as real numbers: every arithmetic
    operation is the exact one, [Math.sqrt], [Math.sin], [Math.cos] and
    [Math.acos] are the real functions, and rounding is not modelled.
    The functions of three.js used by the code ([Vector3], [Quaternion],
    [MathUtils.clamp]) are transcribed from the library, statement by
    statement.

    React state is modelled by one record, [World]: a frame reads the
    values of the last render and its writes, functional updates included,
    are committed before the next frame or effect runs.  [Date.now()] and
    the world position of the tool-tip group, which the renderer owns, are
    inputs of a frame; [tipWorldPosition] gives that position for an arm
    rendered with given joints.  The values of [Math.random()] are inputs
    of [handleAddObject]. *)

From Stdlib Require Import Reals Lra Lia ZArith List String Bool Psatz.
Import ListNotations.
Local Open Scope R_scope.

(** ** JavaScript comparisons on numbers *)

Definition ltb (a b : R) : bool := if Rlt_dec a b then true else false.
Definition gtb (a b : R) : bool := ltb b a.
Definition geb (a b : R) : bool := if Rle_dec b a then true else false.
Definition eqb0 (a : R) : bool := if Req_dec_T a 0 then true else false.

(** ** three.js *)

Module MathUtils.
(** [clamp(value, min, max) = Math.max(min, Math.min(max, value))] *)
Definition clamp (value lo hi : R) : R := Rmax lo (Rmin hi value).
End MathUtils.

Module Quaternion.
Record t : Type := mk { x : R; y : R; z : R; w : R }.

(** [new Quaternion()] *)
Definition identity : t := mk 0 0 0 1.

(** [multiplyQuaternions(a, b)] *)
Definition multiply (a b : t) : t :=
  let qax := x a in let qay := y a in let qaz := z a in let qaw := w a in
  let qbx := x b in let qby := y b in let qbz := z b in let qbw := w b in
  mk (qax * qbw + qaw * qbx + qay * qbz - qaz * qby)
     (qay * qbw + qaw * qby + qaz * qbx - qax * qbz)
     (qaz * qbw + qaw * qbz + qax * qby - qay * qbx)
     (qaw * qbw - qax * qbx - qay * qby - qaz * qbz).
End Quaternion.

Module Vector3.
Record t : Type := mk { x : R; y : R; z : R }.

Definition add (a b : t) : t := mk (x a + x b) (y a + y b) (z a + z b).
Definition sub (a b : t) : t := mk (x a - x b) (y a - y b) (z a - z b).
Definition subVectors (a b : t) : t := sub a b.
Definition multiplyScalar (v : t) (s : R) : t := mk (x v * s) (y v * s) (z v * s).
Definition divideScalar (v : t) (s : R) : t := multiplyScalar v (1 / s).
Definition dot (a b : t) : R := x a * x b + y a * y b + z a * z b.
Definition lengthSq (v : t) : R := x v * x v + y v * y v + z v * z v.
Definition length (v : t) : R := sqrt (lengthSq v).

(** [this.divideScalar(this.length() || 1)] *)
Definition normalize (v : t) : t :=
  divideScalar v (if eqb0 (length v) then 1 else length v).

Definition crossVectors (a b : t) : t :=
  mk (y a * z b - z a * y b) (z a * x b - x a * z b) (x a * y b - y a * x b).

Definition distanceToSquared (a b : t) : R :=
  let dx := x a - x b in let dy := y a - y b in let dz := z a - z b in
  dx * dx + dy * dy + dz * dz.
Definition distanceTo (a b : t) : R := sqrt (distanceToSquared a b).

(** [angleTo]: the angle is [PI / 2] when one of the vectors is zero. *)
Definition angleTo (a b : t) : R :=
  let denominator := sqrt (lengthSq a * lengthSq b) in
  if eqb0 denominator then PI / 2
  else let theta := dot a b / denominator in
       acos (MathUtils.clamp theta (-1) 1).

Definition lerpVectors (v1 v2 : t) (alpha : R) : t :=
  mk (x v1 + (x v2 - x v1) * alpha)
     (y v1 + (y v2 - y v1) * alpha)
     (z v1 + (z v2 - z v1) * alpha).

(** [applyQuaternion(q)], with [t = 2 * cross(q.xyz, v)] and the result
    [v + q.w * t + cross(q.xyz, t)]; for a unit quaternion this is the
    product [q v q*] that earlier releases of the library compute
    ([applyQuaternion_sandwich] below). *)
Definition applyQuaternion (v : t) (q : Quaternion.t) : t :=
  let qx := Quaternion.x q in let qy := Quaternion.y q in
  let qz := Quaternion.z q in let qw := Quaternion.w q in
  let tx := 2 * (qy * z v - qz * y v) in
  let ty := 2 * (qz * x v - qx * z v) in
  let tz := 2 * (qx * y v - qy * x v) in
  mk (x v + qw * tx + qy * tz - qz * ty)
     (y v + qw * ty + qz * tx - qx * tz)
     (z v + qw * tz + qx * ty - qy * tx).
End Vector3.

(** [Quaternion.setFromAxisAngle(axis, angle)] *)
Definition setFromAxisAngle (axis : Vector3.t) (angle : R) : Quaternion.t :=
  let halfAngle := angle / 2 in
  let s := sin halfAngle in
  Quaternion.mk (Vector3.x axis * s) (Vector3.y axis * s) (Vector3.z axis * s)
                (cos halfAngle).

(** ** types.ts and constants.ts *)

Record RobotJoints : Type :=
  mkJoints { j1 : R; j2 : R; j3 : R; j4 : R; j5 : R; j6 : R }.

(** [keyof RobotJoints] *)
Inductive JointKey : Type := J1 | J2 | J3 | J4 | J5 | J6.

Definition getJoint (joints : RobotJoints) (key : JointKey) : R :=
  match key with
  | J1 => j1 joints | J2 => j2 joints | J3 => j3 joints
  | J4 => j4 joints | J5 => j5 joints | J6 => j6 joints
  end.

Definition setJoint (joints : RobotJoints) (key : JointKey) (v : R) : RobotJoints :=
  match key with
  | J1 => mkJoints v (j2 joints) (j3 joints) (j4 joints) (j5 joints) (j6 joints)
  | J2 => mkJoints (j1 joints) v (j3 joints) (j4 joints) (j5 joints) (j6 joints)
  | J3 => mkJoints (j1 joints) (j2 joints) v (j4 joints) (j5 joints) (j6 joints)
  | J4 => mkJoints (j1 joints) (j2 joints) (j3 joints) v (j5 joints) (j6 joints)
  | J5 => mkJoints (j1 joints) (j2 joints) (j3 joints) (j4 joints) v (j6 joints)
  | J6 => mkJoints (j1 joints) (j2 joints) (j3 joints) (j4 joints) (j5 joints) v
  end.

Definition INITIAL_JOINTS : RobotJoints := mkJoints 0 0 0 0 0 0.
Definition HOME_JOINTS : RobotJoints := mkJoints 0 0.2 0.5 0 (-0.5) 0.

Module Limit.
Record t : Type := mk { min : R; max : R }.
End Limit.

Definition LIMITS (key : JointKey) : Limit.t :=
  match key with
  | J1 => Limit.mk (- PI) PI
  | J2 => Limit.mk (- PI / 2) (PI / 2)
  | J3 => Limit.mk (- PI / 1.5) (PI / 1.5)
  | J4 => Limit.mk (- PI) PI
  | J5 => Limit.mk (- PI / 2) (PI / 2)
  | J6 => Limit.mk (- PI) PI
  end.

Definition BOX_SIZE : R := 0.8.

(** ** utils/kinematics.ts *)

Record Chain : Type :=
  mkChain { positions : list Vector3.t;
            rotations : list Quaternion.t;
            endEffector : Vector3.t }.

Definition axisY : Vector3.t := Vector3.mk 0 1 0.
Definition axisZ : Vector3.t := Vector3.mk 0 0 1.

(** [calculateChain]: the running [currentPos] and [currentRot] are numbered
    after the step that last assigned them. *)
Definition calculateChain (joints : RobotJoints) : Chain :=
  let pos0 := Vector3.mk 0 0 0 in
  let rot0 := Quaternion.identity in
  (* 1. Base (J1) *)
  let pos1 := Vector3.add pos0 (Vector3.mk 0 1.1 0) in
  let qJ1 := setFromAxisAngle axisY (- j1 joints) in
  let rot1 := Quaternion.multiply rot0 qJ1 in
  (* 2. Shoulder (J2) *)
  let qJ2 := setFromAxisAngle axisZ (j2 joints) in
  let rot2 := Quaternion.multiply rot1 qJ2 in
  (* 3. Elbow (J3) *)
  let vUpperArm := Vector3.applyQuaternion (Vector3.mk 0 4 0) rot2 in
  let pos3 := Vector3.add pos1 vUpperArm in
  let qJ3 := setFromAxisAngle axisZ (j3 joints) in
  let rot3 := Quaternion.multiply rot2 qJ3 in
  (* 4. Forearm to wrist centre (J4 housing) *)
  let vForearm1 := Vector3.applyQuaternion (Vector3.mk 0 1.5 0) rot3 in
  let pos4 := Vector3.add pos3 vForearm1 in
  let qJ4 := setFromAxisAngle axisY (j4 joints) in
  let rot4 := Quaternion.multiply rot3 qJ4 in
  (* 5. Wrist bend (J5) *)
  let vWristDist := Vector3.applyQuaternion (Vector3.mk 0 0.2 0) rot4 in
  let pos5 := Vector3.add pos4 vWristDist in
  let qJ5 := setFromAxisAngle axisZ (j5 joints) in
  let rot5 := Quaternion.multiply rot4 qJ5 in
  (* 6. Flange (J6) *)
  let vFlangeDist := Vector3.applyQuaternion (Vector3.mk 0 0.8 0) rot5 in
  let pos6 := Vector3.add pos5 vFlangeDist in
  let qJ6 := setFromAxisAngle axisY (j6 joints) in
  let rot6 := Quaternion.multiply rot5 qJ6 in
  (* 7. Tip *)
  let vTipDist := Vector3.applyQuaternion (Vector3.mk 0 0.5 0) rot6 in
  let pos7 := Vector3.add pos6 vTipDist in
  mkChain [pos1; pos1; pos3; pos4; pos5; pos6; pos7]
          [rot1; rot2; rot3; rot4; rot5; rot6]
          pos7.

(** The [switch (key)] of [solveIK]; ['j6'] has no case and keeps the
    initial values [jointIdx = 0], [rotAxis = axisY]. *)
Definition jointIdx (key : JointKey) : nat :=
  match key with
  | J1 => 0 | J2 => 1 | J3 => 2 | J4 => 3 | J5 => 4 | J6 => 0
  end%nat.

Definition rotAxis (key : JointKey) : Vector3.t :=
  match key with
  | J1 => axisY | J2 => axisZ | J3 => axisZ | J4 => axisY | J5 => axisZ
  | J6 => axisY
  end.

(** [chain.rotations[jointIdx - 1]] when [jointIdx > 0], the identity
    otherwise. *)
Definition parentRot (chain : Chain) (idx : nat) : Quaternion.t :=
  match idx with
  | O => Quaternion.identity
  | S i => nth i (rotations chain) Quaternion.identity
  end.

Definition worldAxis (key : JointKey) (chain : Chain) : Vector3.t :=
  Vector3.normalize
    (Vector3.applyQuaternion (rotAxis key) (parentRot chain (jointIdx key))).

(** The signed [angle] of one joint update, as it stands after the sign
    test [cross.dot(worldAxis) < 0] and before the dampening, for a given
    world axis, joint position, tip position and target. *)
Definition signedAngleAt (axis jointPos tipPos targetPosition : Vector3.t) : R :=
  let toEffector := Vector3.normalize (Vector3.subVectors tipPos jointPos) in
  let toTarget := Vector3.normalize (Vector3.subVectors targetPosition jointPos) in
  let toEffectorProj :=
    Vector3.normalize
      (Vector3.sub toEffector
         (Vector3.multiplyScalar axis (Vector3.dot toEffector axis))) in
  let toTargetProj :=
    Vector3.normalize
      (Vector3.sub toTarget
         (Vector3.multiplyScalar axis (Vector3.dot toTarget axis))) in
  let angle := Vector3.angleTo toEffectorProj toTargetProj in
  let cross := Vector3.crossVectors toEffectorProj toTargetProj in
  if ltb (Vector3.dot cross axis) 0 then - angle else angle.

Definition signedAngle (targetPosition : Vector3.t) (key : JointKey)
    (chain : Chain) : R :=
  let tipPos := endEffector chain in
  let jointPos := nth (jointIdx key) (positions chain) (Vector3.mk 0 0 0) in
  signedAngleAt (worldAxis key chain) jointPos tipPos targetPosition.

(** The body of the inner loop after the [break] test: dampening, the
    flipped sign for ['j1'], the clamp and the assignment. *)
Definition updateJoint (targetPosition : Vector3.t) (key : JointKey)
    (newJoints : RobotJoints) : RobotJoints :=
  let chain := calculateChain newJoints in
  let angle := signedAngle targetPosition key chain * 0.5 in
  let newVal :=
    match key with
    | J1 => getJoint newJoints key - angle
    | _ => getJoint newJoints key + angle
    end in
  let limit := LIMITS key in
  let newVal := MathUtils.clamp newVal (Limit.min limit) (Limit.max limit) in
  setJoint newJoints key newVal.

Definition jointKeys : list JointKey := [J6; J5; J4; J3; J2; J1].

(** [for (const key of jointKeys)]: ['j6'] is skipped by [continue]; the
    [break] leaves the rest of the pass undone. *)
Fixpoint innerLoop (targetPosition : Vector3.t) (keys : list JointKey)
    (newJoints : RobotJoints) : RobotJoints :=
  match keys with
  | [] => newJoints
  | key :: rest =>
      match key with
      | J6 => innerLoop targetPosition rest newJoints
      | _ =>
          let tipPos := endEffector (calculateChain newJoints) in
          if ltb (Vector3.distanceTo tipPos targetPosition) 0.01
          then newJoints
          else innerLoop targetPosition rest
                 (updateJoint targetPosition key newJoints)
      end
  end.

(** [for (let iter = 0; iter < iterations; iter++)] *)
Fixpoint outerLoop (targetPosition : Vector3.t) (passes : nat)
    (newJoints : RobotJoints) : RobotJoints :=
  match passes with
  | O => newJoints
  | S n => outerLoop targetPosition n
             (innerLoop targetPosition jointKeys newJoints)
  end.

(** [solveIK(targetPosition, currentJoints, iterations)]; an iteration
    count below one runs no pass. *)
Definition solveIK (targetPosition : Vector3.t) (currentJoints : RobotJoints)
    (iterations : Z) : RobotJoints :=
  outerLoop targetPosition (Z.to_nat iterations) currentJoints.

(** ** components/Scene.tsx: the [SimulationController] *)

Inductive ObjectShape : Type := box | sphere | cylinder.

(** [position] is the array [[x, y, z]]. *)
Record SceneObject : Type :=
  mkObject { id : string;
             position : R * R * R;
             color : string;
             shape : ObjectShape }.

Definition position0 (b : SceneObject) : R := fst (fst (position b)).
Definition position1 (b : SceneObject) : R := snd (fst (position b)).
Definition position2 (b : SceneObject) : R := snd (position b).

Definition PICK_AREA_POS : Vector3.t := Vector3.mk 4 0.05 0.
Definition DROP_AREA_POS : Vector3.t := Vector3.mk (-4) 0.05 0.

Inductive SequencePhase : Type :=
  | IDLE | APPROACH | DESCEND_PICK | GRIP | LIFT_PICK | TRAVEL
  | DESCEND_DROP | RELEASE | LIFT_DROP | HOME.

(** The state the controller reads and writes: the props handed down by
    [App] and [Scene] (React state owned by the parents), the number of
    calls of [onSequenceComplete], and the controller's own refs and state.
    A write is visible to the next frame. *)
Record World : Type :=
  mkWorld { joints : RobotJoints;
            gripperOpen : bool;
            boxes : list SceneObject;
            ikMode : bool;
            ikTargetPos : Vector3.t;
            runSequenceTrigger : Z;
            completions : nat;
            heldBoxId : option string;
            prevGripperOpen : bool;
            phase : SequencePhase;
            phaseStartTime : Z;
            startPos : Vector3.t;
            endPos : Vector3.t;
            targetBoxId : option string;
            lastTrigger : Z }.

Definition setJoints (v : RobotJoints) (w : World) : World :=
  mkWorld v (gripperOpen w) (boxes w) (ikMode w) (ikTargetPos w)
    (runSequenceTrigger w) (completions w) (heldBoxId w) (prevGripperOpen w)
    (phase w) (phaseStartTime w) (startPos w) (endPos w) (targetBoxId w)
    (lastTrigger w).
Definition setGripperOpen (v : bool) (w : World) : World :=
  mkWorld (joints w) v (boxes w) (ikMode w) (ikTargetPos w)
    (runSequenceTrigger w) (completions w) (heldBoxId w) (prevGripperOpen w)
    (phase w) (phaseStartTime w) (startPos w) (endPos w) (targetBoxId w)
    (lastTrigger w).
Definition setBoxes (f : list SceneObject -> list SceneObject) (w : World) : World :=
  mkWorld (joints w) (gripperOpen w) (f (boxes w)) (ikMode w) (ikTargetPos w)
    (runSequenceTrigger w) (completions w) (heldBoxId w) (prevGripperOpen w)
    (phase w) (phaseStartTime w) (startPos w) (endPos w) (targetBoxId w)
    (lastTrigger w).
Definition setIkTargetPos (v : Vector3.t) (w : World) : World :=
  mkWorld (joints w) (gripperOpen w) (boxes w) (ikMode w) v
    (runSequenceTrigger w) (completions w) (heldBoxId w) (prevGripperOpen w)
    (phase w) (phaseStartTime w) (startPos w) (endPos w) (targetBoxId w)
    (lastTrigger w).
Definition onSequenceComplete (w : World) : World :=
  mkWorld (joints w) (gripperOpen w) (boxes w) (ikMode w) (ikTargetPos w)
    (runSequenceTrigger w) (S (completions w)) (heldBoxId w) (prevGripperOpen w)
    (phase w) (phaseStartTime w) (startPos w) (endPos w) (targetBoxId w)
    (lastTrigger w).
Definition setHeldBoxId (v : option string) (w : World) : World :=
  mkWorld (joints w) (gripperOpen w) (boxes w) (ikMode w) (ikTargetPos w)
    (runSequenceTrigger w) (completions w) v (prevGripperOpen w)
    (phase w) (phaseStartTime w) (startPos w) (endPos w) (targetBoxId w)
    (lastTrigger w).
Definition setPrevGripperOpen (v : bool) (w : World) : World :=
  mkWorld (joints w) (gripperOpen w) (boxes w) (ikMode w) (ikTargetPos w)
    (runSequenceTrigger w) (completions w) (heldBoxId w) v
    (phase w) (phaseStartTime w) (startPos w) (endPos w) (targetBoxId w)
    (lastTrigger w).
Definition setPhase (v : SequencePhase) (w : World) : World :=
  mkWorld (joints w) (gripperOpen w) (boxes w) (ikMode w) (ikTargetPos w)
    (runSequenceTrigger w) (completions w) (heldBoxId w) (prevGripperOpen w)
    v (phaseStartTime w) (startPos w) (endPos w) (targetBoxId w)
    (lastTrigger w).
Definition setPhaseStartTime (v : Z) (w : World) : World :=
  mkWorld (joints w) (gripperOpen w) (boxes w) (ikMode w) (ikTargetPos w)
    (runSequenceTrigger w) (completions w) (heldBoxId w) (prevGripperOpen w)
    (phase w) v (startPos w) (endPos w) (targetBoxId w)
    (lastTrigger w).
Definition setStartPos (v : Vector3.t) (w : World) : World :=
  mkWorld (joints w) (gripperOpen w) (boxes w) (ikMode w) (ikTargetPos w)
    (runSequenceTrigger w) (completions w) (heldBoxId w) (prevGripperOpen w)
    (phase w) (phaseStartTime w) v (endPos w) (targetBoxId w)
    (lastTrigger w).
Definition setEndPos (v : Vector3.t) (w : World) : World :=
  mkWorld (joints w) (gripperOpen w) (boxes w) (ikMode w) (ikTargetPos w)
    (runSequenceTrigger w) (completions w) (heldBoxId w) (prevGripperOpen w)
    (phase w) (phaseStartTime w) (startPos w) v (targetBoxId w)
    (lastTrigger w).
Definition setTargetBoxId (v : option string) (w : World) : World :=
  mkWorld (joints w) (gripperOpen w) (boxes w) (ikMode w) (ikTargetPos w)
    (runSequenceTrigger w) (completions w) (heldBoxId w) (prevGripperOpen w)
    (phase w) (phaseStartTime w) (startPos w) (endPos w) v
    (lastTrigger w).
Definition setLastTrigger (v : Z) (w : World) : World :=
  mkWorld (joints w) (gripperOpen w) (boxes w) (ikMode w) (ikTargetPos w)
    (runSequenceTrigger w) (completions w) (heldBoxId w) (prevGripperOpen w)
    (phase w) (phaseStartTime w) (startPos w) (endPos w) (targetBoxId w)
    v.

(** JavaScript truthiness of a [string | null]: [null] and the empty string
    are falsy. *)
Definition truthy (s : option string) : bool :=
  match s with
  | Some EmptyString => false
  | Some _ => true
  | None => false
  end.

(** [b.id === ref.current] for a ref of type [string | null] *)
Definition idIs (ref : option string) (b : SceneObject) : bool :=
  match ref with
  | Some s => String.eqb (id b) s
  | None => false
  end.

(** The [useEffect] on [runSequenceTrigger]; [now] is [Date.now()]. *)
Definition triggerEffect (now : Z) (w : World) : World :=
  if Z.ltb (lastTrigger w) (runSequenceTrigger w) then
    let w := setLastTrigger (runSequenceTrigger w) w in
    match find (fun b => gtb (position0 b) 0) (boxes w) with
    | Some availableBox =>
        let w := setTargetBoxId (Some (id availableBox)) w in
        let w := setPhase APPROACH w in
        let w := setPhaseStartTime now w in
        let w := setStartPos (ikTargetPos w) w in
        let w := setEndPos (Vector3.mk (position0 availableBox)
                                       (position1 availableBox + 2)
                                       (position2 availableBox)) w in
        setGripperOpen true w
    | None => onSequenceComplete w
    end
  else w.

(** [['GRIP', 'RELEASE'].includes(phase)] *)
Definition stationary (p : SequencePhase) : bool :=
  match p with GRIP | RELEASE => true | _ => false end.

(** The [switch (phase)] taken when [t >= 1].  [w0] is the state of the last
    render, which the closure reads ([ikTargetPos], [boxes]); [w] carries the
    writes of this frame. *)
Definition phaseTransition (now : Z) (elapsed : R) (currentLerp : Vector3.t)
    (w0 w : World) : World :=
  match phase w0 with
  | IDLE => w
  | APPROACH =>
      let w := setPhase DESCEND_PICK w in
      let w := setPhaseStartTime now w in
      let w := setStartPos currentLerp w in
      match find (idIs (targetBoxId w)) (boxes w0) with
      | Some b =>
          setEndPos (Vector3.mk (position0 b) (position1 b + 0.2) (position2 b)) w
      | None => onSequenceComplete (setPhase IDLE w)
      end
  | DESCEND_PICK =>
      let w := setPhase GRIP w in
      let w := setPhaseStartTime now w in
      setGripperOpen false w
  | GRIP =>
      if gtb elapsed 0.5 then
        let w := setPhase LIFT_PICK w in
        let w := setPhaseStartTime now w in
        let w := setStartPos (ikTargetPos w0) w in
        setEndPos (Vector3.add (startPos w) (Vector3.mk 0 3 0)) w
      else w
  | LIFT_PICK =>
      let w := setPhase TRAVEL w in
      let w := setPhaseStartTime now w in
      let w := setStartPos (ikTargetPos w0) w in
      setEndPos (Vector3.mk (Vector3.x DROP_AREA_POS) 3 (Vector3.z DROP_AREA_POS)) w
  | TRAVEL =>
      let w := setPhase DESCEND_DROP w in
      let w := setPhaseStartTime now w in
      let w := setStartPos (ikTargetPos w0) w in
      setEndPos (Vector3.mk (Vector3.x DROP_AREA_POS) 1 (Vector3.z DROP_AREA_POS)) w
  | DESCEND_DROP =>
      let w := setPhase RELEASE w in
      let w := setPhaseStartTime now w in
      setGripperOpen true w
  | RELEASE =>
      if gtb elapsed 0.5 then
        let w := setPhase LIFT_DROP w in
        let w := setPhaseStartTime now w in
        let w := setStartPos (ikTargetPos w0) w in
        setEndPos (Vector3.add (startPos w) (Vector3.mk 0 2 0)) w
      else w
  | LIFT_DROP =>
      let w := setPhase HOME w in
      let w := setPhaseStartTime now w in
      let w := setStartPos (ikTargetPos w0) w in
      setEndPos (endEffector (calculateChain HOME_JOINTS)) w
  | HOME => onSequenceComplete (setPhase IDLE w)
  end.

(** The interpolation parameter [t] of a frame at time [now]. *)
Definition phaseElapsed (now : Z) (w : World) : R :=
  IZR (now - phaseStartTime w) / 1000.

Definition phaseDuration (w : World) : R :=
  let speed := 4.0 in
  let dist := Vector3.distanceTo (startPos w) (endPos w) in
  Rmax 0.5 (dist / speed).

Definition phaseT (now : Z) (w : World) : R :=
  Rmin 1 (phaseElapsed now w / phaseDuration w).

(** "Sequence Logic" of [useFrame]. *)
Definition sequenceLogic (now : Z) (w0 : World) : World :=
  match phase w0 with
  | IDLE => w0
  | _ =>
      let elapsed := phaseElapsed now w0 in
      let t := phaseT now w0 in
      let currentLerp := Vector3.lerpVectors (startPos w0) (endPos w0) t in
      let w := if stationary (phase w0) then w0
               else setIkTargetPos currentLerp w0 in
      if geb t 1 then phaseTransition now elapsed currentLerp w0 w else w
  end.

(** "IK Logic" of [useFrame]: it reads the target and the joints of the
    last render. *)
Definition ikLogic (w0 w : World) : World :=
  let running := match phase w0 with IDLE => false | _ => true end in
  if ikMode w0 || running
  then setJoints (solveIK (ikTargetPos w0) (joints w0) 5) w
  else w.

(** The distance from the gripper reference point to an object, as the grab
    loop computes it. *)
Definition grabDistance (tipPos : Vector3.t) (b : SceneObject) : R :=
  let boxPos := Vector3.mk (position0 b) (position1 b) (position2 b) in
  Vector3.distanceTo tipPos boxPos.

(** The callback of the grab loop [boxes.forEach]; the accumulator is the
    pair ([closestBox], [minDistance]). *)
Definition grabStep (tipPos : Vector3.t) (acc : option string * R)
    (b : SceneObject) : option string * R :=
  let distance := grabDistance tipPos b in
  if ltb distance (snd acc) then (Some (id b), distance) else acc.

Definition grabScan (tipPos : Vector3.t) (bs : list SceneObject)
    : option string * R :=
  fold_left (grabStep tipPos) bs (None, 1.2).

Definition groundOffset (b : SceneObject) : R :=
  match shape b with
  | sphere => BOX_SIZE / 1.5
  | _ => BOX_SIZE / 2
  end.

Definition airborne (b : SceneObject) : bool :=
  gtb (position1 b) (groundOffset b + 0.01).

(** The callback of [prev.map] in the gravity branch. *)
Definition fall (b : SceneObject) : SceneObject :=
  if airborne b then
    let newY := Rmax (groundOffset b) (position1 b - 0.2) in
    mkObject (id b) (position0 b, newY, position2 b) (color b) (shape b)
  else b.

(** The callback of [prev.map] in the held branch. *)
Definition carry (held : option string) (tipPos : Vector3.t)
    (b : SceneObject) : SceneObject :=
  if idIs held b then
    mkObject (id b) (Vector3.x tipPos, Vector3.y tipPos, Vector3.z tipPos)
             (color b) (shape b)
  else b.

(** The gripper reference point: [tipPos] after [tipPos.y -= 0.2]. *)
Definition gripReference (p : Vector3.t) : Vector3.t :=
  Vector3.mk (Vector3.x p) (Vector3.y p - 0.2) (Vector3.z p).

(** "Gripper & Physics Logic" of [useFrame]: [tip] is the world position of
    [tipRef.current], [None] when the ref is still null. *)
Definition gripperLogic (tip : option Vector3.t) (w0 w : World) : World :=
  match tip with
  | None => w
  | Some p =>
      let tipPos := gripReference p in
      (* Handle grabbing *)
      let w :=
        if prevGripperOpen w && negb (gripperOpen w0) then
          let closestBox := fst (grabScan tipPos (boxes w0)) in
          if truthy closestBox then setHeldBoxId closestBox w else w
        else w in
      (* Handle releasing *)
      let w :=
        if negb (prevGripperOpen w) && gripperOpen w0
        then setHeldBoxId None w else w in
      (* Update physics / position *)
      let w :=
        if truthy (heldBoxId w) then
          setBoxes (map (carry (heldBoxId w) tipPos)) w
        else
          setBoxes (fun prev =>
                      let changed := existsb airborne prev in
                      let newBoxes := map fall prev in
                      if changed then newBoxes else prev) w in
      setPrevGripperOpen (gripperOpen w0) w
  end.

(** One call of the [useFrame] callback. *)
Definition useFrame (now : Z) (tip : option Vector3.t) (w0 : World) : World :=
  gripperLogic tip w0 (ikLogic w0 (sequenceLogic now w0)).

(** A run of frames, each with its clock reading and tip position. *)
Definition frames (inputs : list (Z * option Vector3.t)) (w : World) : World :=
  fold_left (fun w i => useFrame (fst i) (snd i) w) inputs w.

(** ** Predicates used by the statements *)

(** The closed range [LIMITS[key]]. *)
Definition inLimit (key : JointKey) (v : R) : Prop :=
  Limit.min (LIMITS key) <= v <= Limit.max (LIMITS key).

Definition withinLimits (joints : RobotJoints) : Prop :=
  forall key, inLimit key (getJoint joints key).

Definition keyEqb (a b : JointKey) : bool :=
  match a, b with
  | J1, J1 | J2, J2 | J3, J3 | J4, J4 | J5, J5 | J6, J6 => true
  | _, _ => false
  end.

(** The sign with which the damped angle enters the new value. *)
Definition updateSign (key : JointKey) : R :=
  match key with J1 => -1 | _ => 1 end.

(** The phases from GRIP entry up to RELEASE entry. *)
Definition gripperClosedPhase (p : SequencePhase) : bool :=
  match p with
  | GRIP | LIFT_PICK | TRAVEL | DESCEND_DROP => true
  | _ => false
  end.

(** The test [t >= 1] of a frame at time [now]. *)
Definition arrived (now : Z) (w : World) : bool := geb (phaseT now w) 1.

(** The test [runSequenceTrigger > lastTrigger.current]. *)
Definition triggerFires (w : World) : bool :=
  Z.ltb (lastTrigger w) (runSequenceTrigger w).

(** Some object lies in the pick region, [x > 0]. *)
Definition inPickRegion (b : SceneObject) : bool := gtb (position0 b) 0.

(** ** App.tsx: the initial state and the "run sequence" handler *)

Definition initialBoxes : list SceneObject :=
  [ mkObject "1" (4, BOX_SIZE / 2, 0) "#ef4444" box;
    mkObject "2" (4, BOX_SIZE / 2, 1.5) "#3b82f6" box;
    mkObject "3" (4, BOX_SIZE / 2, -1.5) "#eab308" box ].

(** The state at mount, for a given collection of objects: the joints are
    [INITIAL_JOINTS], the gripper is open, the IK target is (4, 2, 0) and
    every ref holds its initial value. *)
Definition initialWorld (bs : list SceneObject) : World :=
  mkWorld INITIAL_JOINTS true bs false (Vector3.mk 4 2 0) 0 0
          None true IDLE 0 (Vector3.mk 0 0 0) (Vector3.mk 0 0 0) None 0.

(** [handleRunSequence]: [setSequenceTrigger(prev => prev + 1)]. *)
Definition handleRunSequence (w : World) : World :=
  mkWorld (joints w) (gripperOpen w) (boxes w) (ikMode w) (ikTargetPos w)
    (runSequenceTrigger w + 1) (completions w) (heldBoxId w) (prevGripperOpen w)
    (phase w) (phaseStartTime w) (startPos w) (endPos w) (targetBoxId w)
    (lastTrigger w).

(** The object is the one the tracker carries. *)
Definition isHeld (w : World) (b : SceneObject) : Prop :=
  truthy (heldBoxId w) = true /\ idIs (heldBoxId w) b = true.

(** The user toggles the gripper and then presses "Auto Pick & Place". *)
Definition closedGripperWorld : World :=
  handleRunSequence (setGripperOpen false (initialWorld initialBoxes)).

(** Every frame of the run starts with the gripper flag closed. *)
Fixpoint closedThroughout (inputs : list (Z * option Vector3.t)) (w : World)
    : Prop :=
  match inputs with
  | [] => True
  | i :: rest =>
      gripperOpen w = false
      /\ closedThroughout rest (useFrame (fst i) (snd i) w)
  end.

(** The position a held object is pinned to. *)
Definition pinned (g : Vector3.t) (b : SceneObject) : SceneObject :=
  mkObject (id b) (Vector3.x g, Vector3.y g, Vector3.z g) (color b) (shape b).

(** A lone box next to the pick area, and the gripper closing on it. *)
Definition loneBox : SceneObject := mkObject "1" (4, BOX_SIZE / 2, 0) "#ef4444" box.
Definition closingWorld : World := setGripperOpen false (initialWorld [loneBox]).

(** A box released in the air at height 3, above the pick area, with the
    gripper open and the sequencer idle. *)
Definition airborneBox : SceneObject := mkObject "1" (4, 3, 0) "#ef4444" box.
Definition releasedWorld : World := initialWorld [airborneBox].

(** The gripper is closed on object "1" while object "2" is in the air. *)
Definition strayBox : SceneObject := mkObject "2" (4, 3, 1.5) "#3b82f6" box.
Definition carryingWorld : World :=
  mkWorld INITIAL_JOINTS false [loneBox; strayBox] true (Vector3.mk 4 2 0) 0 0
          (Some "1"%string) false IDLE 0 (Vector3.mk 0 0 0) (Vector3.mk 0 0 0)
          None 0.

(** The gripper holds object "1" aloft over the pick area, the IK target
    sits at the tip, and "Auto Pick & Place" has just been pressed. *)
Definition heldAloftWorld : World :=
  handleRunSequence
    (mkWorld INITIAL_JOINTS false [airborneBox] true (Vector3.mk 4 3.2 0) 0 0
             (Some "1"%string) false IDLE 0 (Vector3.mk 0 0 0)
             (Vector3.mk 0 0 0) None 0).

(** The frames up to GRIP entry of the run started from [heldAloftWorld]. *)
Definition gripEntryWorld : World :=
  frames [ (100%Z, Some (Vector3.mk 4 3.2 0));
           (200%Z, Some (Vector3.mk 4 3.2 0));
           (500%Z, Some (Vector3.mk 4 3.2 0));
           (1100%Z, Some (Vector3.mk 4 3.2 0)) ]
         (triggerEffect 0 heldAloftWorld).

(** ** Auxiliary notions for the kinematics proofs *)

Definition unitQ (q : Quaternion.t) : Prop :=
  Quaternion.x q * Quaternion.x q + Quaternion.y q * Quaternion.y q
  + Quaternion.z q * Quaternion.z q + Quaternion.w q * Quaternion.w q = 1.

Definition unitV (v : Vector3.t) : Prop := Vector3.lengthSq v = 1.

(** The sandwich product [q v q*] in components. *)
Definition sandwich (v : Vector3.t) (q : Quaternion.t) : Vector3.t :=
  let qx := Quaternion.x q in let qy := Quaternion.y q in
  let qz := Quaternion.z q in let qw := Quaternion.w q in
  let ix := qw * Vector3.x v + qy * Vector3.z v - qz * Vector3.y v in
  let iy := qw * Vector3.y v + qz * Vector3.x v - qx * Vector3.z v in
  let iz := qw * Vector3.z v + qx * Vector3.y v - qy * Vector3.x v in
  let iw := - qx * Vector3.x v - qy * Vector3.y v - qz * Vector3.z v in
  Vector3.mk (ix * qw + iw * - qx + iy * - qz - iz * - qy)
             (iy * qw + iw * - qy + iz * - qx - ix * - qz)
             (iz * qw + iw * - qz + ix * - qy - iy * - qx).

(** The part of [v] perpendicular to [axis], as the solver computes it. *)
Definition perp (axis v : Vector3.t) : Vector3.t :=
  Vector3.sub v (Vector3.multiplyScalar axis (Vector3.dot v axis)).

(** The turn a joint adds to the accumulated orientation; the angle of
    ['j1'] enters negated. *)
Definition jointAngle (joints : RobotJoints) (key : JointKey) : R :=
  match key with
  | J1 => - j1 joints
  | _ => getJoint joints key
  end.

Definition jointTurn (joints : RobotJoints) (key : JointKey) : Quaternion.t :=
  setFromAxisAngle (rotAxis key) (jointAngle joints key).

(** The vector from the pivot of a joint to the tip, in the frame that
    follows the joint's own turn. *)
Definition reachAfter (joints : RobotJoints) (key : JointKey) : Vector3.t :=
  let r6 := Vector3.mk 0 0.5 0 in
  let r5 := Vector3.add (Vector3.mk 0 0.8 0)
              (Vector3.applyQuaternion r6 (jointTurn joints J6)) in
  let r4 := Vector3.add (Vector3.mk 0 0.2 0)
              (Vector3.applyQuaternion r5 (jointTurn joints J5)) in
  let r3 := Vector3.add (Vector3.mk 0 1.5 0)
              (Vector3.applyQuaternion r4 (jointTurn joints J4)) in
  let r2 := Vector3.add (Vector3.mk 0 4 0)
              (Vector3.applyQuaternion r3 (jointTurn joints J3)) in
  let r1 := Vector3.applyQuaternion r2 (jointTurn joints J2) in
  match key with
  | J1 => r1 | J2 => r2 | J3 => r3 | J4 => r4 | J5 => r5 | J6 => r6
  end.

Definition pivotOf (joints : RobotJoints) (key : JointKey) : Vector3.t :=
  nth (jointIdx key) (positions (calculateChain joints)) (Vector3.mk 0 0 0).

Definition parentOf (joints : RobotJoints) (key : JointKey) : Quaternion.t :=
  parentRot (calculateChain joints) (jointIdx key).

(** The distance from the forward-kinematics tip to the target. *)
Definition tipDistance (targetPosition : Vector3.t) (joints : RobotJoints) : R :=
  Vector3.distanceTo (endEffector (calculateChain joints)) targetPosition.

(** [n] calls of [solveIK] with 5 iterations, each fed the result of the
    one before. *)
Definition solveRepeatedly (targetPosition : Vector3.t) (n : nat)
    (joints : RobotJoints) : RobotJoints :=
  Nat.iter n (fun current => solveIK targetPosition current 5) joints.

(** The joints the solver writes are within their ranges. *)
Definition solvedWithinLimits (joints : RobotJoints) : Prop :=
  forall key, key <> J6 -> inLimit key (getJoint joints key).

(** Quaternions of turns about the vertical axis. *)
Definition yaw (q : Quaternion.t) : Prop :=
  Quaternion.x q = 0 /\ Quaternion.z q = 0.

(** The arm points straight up, whatever its rolls are. *)
Definition straightUp (joints : RobotJoints) : Prop :=
  j2 joints = 0 /\ j3 joints = 0 /\ j5 joints = 0.

(** A target directly above the base, one unit below the tip of the
    straight arm. *)
Definition axialTarget : Vector3.t := Vector3.mk 0 7.1 0.

(** Joint angles, within limits, whose tip is at [axialTarget]. *)
Definition reachingJoints : RobotJoints :=
  mkJoints 0 (asin (5 / 13)) (asin (-3 / 5)) 0 (asin (-120 / 169)) 0.

(** ** components/RobotArm.tsx: the groups around the tool tip *)

Module Euler.
(** [new Euler(x, y, z)], in the default order ['XYZ'] *)
Record t : Type := mk { x : R; y : R; z : R }.
End Euler.

(** [Quaternion.setFromEuler(euler)], case ['XYZ'] *)
Definition setFromEuler (euler : Euler.t) : Quaternion.t :=
  let c1 := cos (Euler.x euler / 2) in
  let c2 := cos (Euler.y euler / 2) in
  let c3 := cos (Euler.z euler / 2) in
  let s1 := sin (Euler.x euler / 2) in
  let s2 := sin (Euler.y euler / 2) in
  let s3 := sin (Euler.z euler / 2) in
  Quaternion.mk (s1 * c2 * c3 + c1 * s2 * s3)
                (c1 * s2 * c3 - s1 * c2 * s3)
                (c1 * c2 * s3 + s1 * s2 * c3)
                (c1 * c2 * c3 - s1 * s2 * s3).

Module Group.
(** A [<group position={...} rotation={...}>]; a prop that is not given is
    zero. *)
Record t : Type := mk { position : Vector3.t; rotation : Euler.t }.
End Group.

(** The world transform of a group below a parent whose world transform is
    the position and rotation [parent]: [matrixWorld] is the parent's
    [matrixWorld] times the local matrix composed of the group's position
    and rotation.  No group of the arm is scaled, so a transform is a
    position and a quaternion. *)
Definition childTransform (parent : Vector3.t * Quaternion.t) (g : Group.t)
    : Vector3.t * Quaternion.t :=
  (Vector3.add (fst parent)
               (Vector3.applyQuaternion (Group.position g) (snd parent)),
   Quaternion.multiply (snd parent) (setFromEuler (Group.rotation g))).

(** [getWorldPosition] of the innermost group of a nest of groups, listed
    from the outermost one. *)
Definition getWorldPosition (nest : list Group.t) : Vector3.t :=
  fst (fold_left childTransform nest (Vector3.mk 0 0 0, Quaternion.identity)).

(** The groups of [RobotArm] around the [tipRef] group, from the group of
    [Scene] that holds the robot down to the [tipRef] group itself. *)
Definition tipNest (joints : RobotJoints) : list Group.t :=
  let still := Euler.mk 0 0 0 in
  [ Group.mk (Vector3.mk 0 0 0) still;                           (* Scene *)
    Group.mk (Vector3.mk 0 0 0) still;                           (* ref *)
    Group.mk (Vector3.mk 0 0 0) (Euler.mk 0 (- j1 joints) 0);    (* J1 *)
    Group.mk (Vector3.mk 0 1.1 0) (Euler.mk 0 0 (j2 joints));    (* J2 *)
    Group.mk (Vector3.mk 0 4 0) (Euler.mk 0 0 (j3 joints));      (* J3 *)
    Group.mk (Vector3.mk 0 1.5 0) still;                         (* Link 3 *)
    Group.mk (Vector3.mk 0 1.5 0) (Euler.mk 0 (j4 joints) 0);    (* J4 *)
    Group.mk (Vector3.mk 0 0.2 0) (Euler.mk 0 0 (j5 joints));    (* J5 *)
    Group.mk (Vector3.mk 0 0.8 0) (Euler.mk 0 (j6 joints) 0);    (* J6 *)
    Group.mk (Vector3.mk 0 0.3 0) still;                         (* Gripper Base *)
    Group.mk (Vector3.mk 0 0.5 0) still ].                       (* tipRef *)

(** [tipRef.current.getWorldPosition(tipPos)] when the arm is rendered with
    [joints]. *)
Definition tipWorldPosition (joints : RobotJoints) : Vector3.t :=
  getWorldPosition (tipNest joints).

(** ** components/Scene.tsx: the effect on the IK mode *)

(** The [useEffect] of [Scene] on [ikMode]; it runs after the render in
    which the mode has changed. *)
Definition ikModeEffect (w : World) : World :=
  if ikMode w
  then let fk := calculateChain (joints w) in
       setIkTargetPos (endEffector fk) w
  else w.

(** ** App.tsx: the IK switch and the spawner *)

(** [setIkMode], the state setter of [App] behind the IK checkbox. *)
Definition setIkMode (v : bool) (w : World) : World :=
  mkWorld (joints w) (gripperOpen w) (boxes w) v (ikTargetPos w)
    (runSequenceTrigger w) (completions w) (heldBoxId w) (prevGripperOpen w)
    (phase w) (phaseStartTime w) (startPos w) (endPos w) (targetBoxId w)
    (lastTrigger w).

(** [handleAddObject(shape, color)].  [random3] and [random4] are the values
    of the third and fourth calls of [Math.random()], which give [x] and
    [z] (the first two give [angle] and [r], which are not used), and
    [newId] is the string made from the fifth. *)
Definition handleAddObject (random3 random4 : R) (newId : string)
    (shape : ObjectShape) (color : string) (w : World) : World :=
  let x := 4 + (random3 - 0.5) * 2 in
  let z := (random4 - 0.5) * 2 in
  let y := match shape with
           | sphere => BOX_SIZE / 1.5
           | _ => BOX_SIZE / 2
           end in
  let newObj := mkObject newId (x, y, z) color shape in
  setBoxes (fun prev => prev ++ [newObj]) w.

(** ** Further notions used by the statements *)

(** The place of a joint in the chain. *)
Definition chainIndex (key : JointKey) : nat :=
  match key with
  | J1 => 0 | J2 => 1 | J3 => 2 | J4 => 3 | J5 => 4 | J6 => 5
  end%nat.

(** The phase that follows in the cycle; IDLE is left by the trigger only. *)
Definition nextPhase (p : SequencePhase) : SequencePhase :=
  match p with
  | IDLE => IDLE
  | APPROACH => DESCEND_PICK
  | DESCEND_PICK => GRIP
  | GRIP => LIFT_PICK
  | LIFT_PICK => TRAVEL
  | TRAVEL => DESCEND_DROP
  | DESCEND_DROP => RELEASE
  | RELEASE => LIFT_DROP
  | LIFT_DROP => HOME
  | HOME => IDLE
  end.

(** The place of a phase in a run, IDLE being where a run ends. *)
Definition phaseRank (p : SequencePhase) : nat :=
  match p with
  | APPROACH => 1 | DESCEND_PICK => 2 | GRIP => 3 | LIFT_PICK => 4
  | TRAVEL => 5 | DESCEND_DROP => 6 | RELEASE => 7 | LIFT_DROP => 8
  | HOME => 9 | IDLE => 10
  end%nat.

Definition isIdle (p : SequencePhase) : bool :=
  match p with IDLE => true | _ => false end.

(** The initial scene right after "Auto Pick & Place" has been pressed and
    the trigger effect has run at time 0. *)
Definition startedWorld : World :=
  triggerEffect 0 (handleRunSequence (initialWorld initialBoxes)).

(** The first clock reading from which the phase of [w] is over: the phase
    lasts [duration] seconds, and the dwell phases need strictly more than
    0.5 s. *)
Definition phaseDeadline (w : World) : Z :=
  (phaseStartTime w + up (1000 * phaseDuration w))%Z.

(** The frames numbered [s], ..., [s + n - 1] of a run whose clock readings
    and tip positions are given frame by frame. *)
Definition framesFrom (clock : nat -> Z) (tip : nat -> option Vector3.t)
    (s n : nat) (w : World) : World :=
  frames (map (fun i => (clock i, tip i)) (seq s n)) w.

(** The waypoint on which DESCEND_PICK ends for an object. *)
Definition pickWaypoint (b : SceneObject) : Vector3.t :=
  Vector3.mk (position0 b) (position1 b + 0.2) (position2 b).

(** An object placed so that the tip of the straight chain is exactly on its
    pick waypoint, in a world whose gripper has just been closed. *)
Definition raisedBox : SceneObject := mkObject "1" (0, 7.9, 0) "#ef4444" box.

Definition raisedWorld : World :=
  setGripperOpen false (initialWorld [raisedBox]).

(** What the tracker's refs hold between frames: nothing is held while the
    last frame saw the gripper open, and a held id is a non-empty string
    that names an object of the collection. *)
Definition trackerConsistent (w : World) : Prop :=
  (prevGripperOpen w = true -> heldBoxId w = None)
  /\ (forall s, heldBoxId w = Some s ->
                s <> EmptyString /\ In s (map id (boxes w))).

(** What a frame never changes in an object. *)
Definition appearance (b : SceneObject) : string * string * ObjectShape :=
  (id b, color b, shape b).

(** An object whose id is the empty string, which is what
    [Math.random().toString(36).substr(2, 9)] gives for the draw 0, and the
    gripper closing on it. *)
Definition namelessBox : SceneObject :=
  mkObject EmptyString (4, BOX_SIZE / 2, 0) "#ef4444" box.
Definition namelessWorld : World :=
  setGripperOpen false (initialWorld [namelessBox]).

(** The number of frames of a run whose tip reference is set. *)
Definition liveCount (inputs : list (Z * option Vector3.t)) : nat :=
  List.length
    (filter (fun i => match snd i with Some _ => true | None => false end)
            inputs).

(** A margin far above the rounding of double arithmetic on the lengths of
    the scene, and far below every threshold of the code. *)
Definition rounding : R := 0.000000001.

(* ================================================================== *)
(** * Proofs *)

(** ** Reflection of the comparisons *)

Lemma ltb_spec (a b : R) : ltb a b = true <-> a < b.
Proof. unfold ltb; destruct (Rlt_dec a b); split; intros; try easy; lra. Qed.

Lemma ltb_false (a b : R) : ltb a b = false <-> b <= a.
Proof. unfold ltb; destruct (Rlt_dec a b); split; intros; try easy; lra. Qed.

Lemma gtb_spec (a b : R) : gtb a b = true <-> a > b.
Proof. unfold gtb; rewrite ltb_spec; lra. Qed.

Lemma gtb_false (a b : R) : gtb a b = false <-> a <= b.
Proof. unfold gtb; rewrite ltb_false; lra. Qed.

Lemma geb_spec (a b : R) : geb a b = true <-> b <= a.
Proof. unfold geb; destruct (Rle_dec b a); split; intros; try easy; lra. Qed.

Lemma geb_false (a b : R) : geb a b = false <-> a < b.
Proof. unfold geb; destruct (Rle_dec b a); split; intros; try easy; lra. Qed.

Lemma eqb0_spec (a : R) : eqb0 a = true <-> a = 0.
Proof. unfold eqb0; destruct (Req_dec_T a 0); split; intros; easy. Qed.

Lemma eqb0_false (a : R) : eqb0 a = false <-> a <> 0.
Proof. unfold eqb0; destruct (Req_dec_T a 0); split; intros; easy. Qed.

(** ** Joint limits *)

Lemma clamp_bounds (v lo hi : R) :
  lo <= hi -> lo <= MathUtils.clamp v lo hi <= hi.
Proof.
  intros Hle; unfold MathUtils.clamp, Rmax, Rmin.
  destruct (Rle_dec hi v); destruct (Rle_dec lo _); lra.
Qed.

Lemma clamp_id (v lo hi : R) :
  lo <= v <= hi -> MathUtils.clamp v lo hi = v.
Proof.
  intros Hle; unfold MathUtils.clamp, Rmax, Rmin.
  destruct (Rle_dec hi v); destruct (Rle_dec lo _); lra.
Qed.

Lemma LIMITS_ordered (key : JointKey) :
  Limit.min (LIMITS key) <= Limit.max (LIMITS key).
Proof. pose proof PI_RGT_0; destruct key; simpl; lra. Qed.

Lemma getJoint_setJoint (joints : RobotJoints) (k k' : JointKey) (v : R) :
  getJoint (setJoint joints k v) k' = if keyEqb k' k then v else getJoint joints k'.
Proof. destruct k, k'; reflexivity. Qed.

Lemma updateJoint_inLimit target key joints k :
  inLimit k (getJoint joints k) ->
  inLimit k (getJoint (updateJoint target key joints) k).
Proof.
  intros Hk; unfold updateJoint; rewrite getJoint_setJoint.
  destruct (keyEqb k key) eqn:E; [|exact Hk].
  assert (k = key) as -> by (destruct k, key; simpl in E; congruence).
  apply clamp_bounds, LIMITS_ordered.
Qed.

Lemma innerLoop_inLimit target keys : forall joints k,
  inLimit k (getJoint joints k) ->
  inLimit k (getJoint (innerLoop target keys joints) k).
Proof.
  induction keys as [|key rest IH]; intros joints k Hk; cbn [innerLoop];
    [exact Hk|].
  destruct key; try (destruct (ltb _ _); [exact Hk|]);
    apply IH; try apply updateJoint_inLimit; exact Hk.
Qed.

Lemma outerLoop_inLimit target passes : forall joints k,
  inLimit k (getJoint joints k) ->
  inLimit k (getJoint (outerLoop target passes joints) k).
Proof.
  induction passes as [|n IH]; intros joints k Hk; cbn [outerLoop];
    [exact Hk|].
  apply IH, innerLoop_inLimit, Hk.
Qed.

(** ** ['j6'] is never written *)

Lemma innerLoop_j6 target keys : forall joints,
  j6 (innerLoop target keys joints) = j6 joints.
Proof.
  induction keys as [|key rest IH]; intros joints; cbn [innerLoop];
    [reflexivity|].
  destruct key; try (destruct (ltb _ _); [reflexivity|]);
    rewrite IH; try reflexivity.
Qed.

Lemma outerLoop_j6 target passes : forall joints,
  j6 (outerLoop target passes joints) = j6 joints.
Proof.
  induction passes as [|n IH]; intros joints; cbn [outerLoop];
    [reflexivity|].
  rewrite IH; apply innerLoop_j6.
Qed.

Lemma solveIK_inLimit targetPosition currentJoints iterations key :
  inLimit key (getJoint currentJoints key) ->
  inLimit key (getJoint (solveIK targetPosition currentJoints iterations) key).
Proof. intros H; unfold solveIK; now apply outerLoop_inLimit. Qed.

(** C1 (as amended): for every target and every iteration count, a joint
    whose input angle lies in its configured closed range has its output
    angle in that range; so an input within limits gives an output within
    limits. *)
Theorem solveIK_respects_limits :
  forall (targetPosition : Vector3.t) (currentJoints : RobotJoints)
         (iterations : Z) (key : JointKey),
    inLimit key (getJoint currentJoints key) ->
    inLimit key (getJoint (solveIK targetPosition currentJoints iterations) key).
Proof. intros; unfold solveIK; apply outerLoop_inLimit; assumption. Qed.

Lemma solveIK_respects_limits_witness :
  inLimit J2 (getJoint HOME_JOINTS J2) /\
  inLimit J2 (getJoint (solveIK (Vector3.mk 4 2 0) HOME_JOINTS 5) J2).
Proof.
  assert (H : inLimit J2 (getJoint HOME_JOINTS J2)).
  { unfold inLimit; simpl. pose proof PI2_1. lra. }
  split; [exact H|].
  apply (solveIK_respects_limits (Vector3.mk 4 2 0) HOME_JOINTS 5 J2 H).
Defined.

(** C1 (as stated) fails: with the default five iterations, an input whose
    [j6] is 5 is returned with [j6 = 5], above [PI]. *)
Lemma solveIK_limits_counterexample :
  ~ inLimit J6
      (getJoint (solveIK (Vector3.mk 4 2 0) (mkJoints 0 0 0 0 0 5) 5) J6).
Proof.
  unfold solveIK; cbn [getJoint]; rewrite outerLoop_j6; cbn [j6].
  unfold inLimit; simpl. pose proof PI_4. lra.
Qed.

(** ** Forward kinematics at the zero configuration *)

Lemma setFromAxisAngle_zero (axis : Vector3.t) :
  setFromAxisAngle axis 0 = Quaternion.identity.
Proof.
  unfold setFromAxisAngle, Quaternion.identity; cbv zeta.
  replace (0 / 2) with 0 by lra. rewrite sin_0, cos_0.
  f_equal; ring.
Qed.

Lemma multiply_identity_l (q : Quaternion.t) :
  Quaternion.multiply Quaternion.identity q = q.
Proof.
  destruct q; unfold Quaternion.multiply, Quaternion.identity;
    cbn [Quaternion.x Quaternion.y Quaternion.z Quaternion.w]; f_equal; ring.
Qed.

Lemma applyQuaternion_identity (v : Vector3.t) :
  Vector3.applyQuaternion v Quaternion.identity = v.
Proof.
  destruct v; unfold Vector3.applyQuaternion, Quaternion.identity;
    cbn [Quaternion.x Quaternion.y Quaternion.z Quaternion.w
         Vector3.x Vector3.y Vector3.z]; f_equal; ring.
Qed.

(** C2: at [j1 = ... = j6 = 0] the end effector is exactly (0, 8.1, 0),
    the fixed offsets 1.1 + 4 + 1.5 + 0.2 + 0.8 + 0.5 stacked along the
    vertical axis. *)
Theorem calculateChain_zero_tip :
  endEffector (calculateChain (mkJoints 0 0 0 0 0 0))
  = Vector3.mk 0 (1.1 + 4 + 1.5 + 0.2 + 0.8 + 0.5) 0
  /\ endEffector (calculateChain INITIAL_JOINTS) = Vector3.mk 0 8.1 0.
Proof.
  assert (E : endEffector (calculateChain INITIAL_JOINTS) = Vector3.mk 0 8.1 0).
  { unfold calculateChain, INITIAL_JOINTS; cbv zeta.
    cbn [j1 j2 j3 j4 j5 j6 endEffector].
    rewrite Ropp_0, !setFromAxisAngle_zero, !multiply_identity_l,
      !applyQuaternion_identity.
    unfold Vector3.add; cbn [Vector3.x Vector3.y Vector3.z].
    f_equal; lra. }
  split; [|exact E].
  change (mkJoints 0 0 0 0 0 0) with INITIAL_JOINTS; rewrite E; f_equal; lra.
Qed.

(** ** The per-joint update *)

(** C9: one joint update multiplies the signed correction angle by 0.5,
    subtracts the damped angle from the current value for [J1] and adds it
    for the other keys, and clamps the result to the key's range: the new
    value lies in the range, it is the result itself when that lies in the
    range, the lower limit when the result is below it and the upper limit
    when the result is above it.  That joint only is written; a pass skips
    [J6], and [solveIK] returns [j6] as it received it. *)
Theorem updateJoint_damped_signed_clamped :
  forall (targetPosition : Vector3.t) (joints0 : RobotJoints) (key : JointKey),
    let angle := signedAngle targetPosition key (calculateChain joints0) in
    let damped := angle * 0.5 in
    let newVal := match key with
                  | J1 => getJoint joints0 key - damped
                  | _ => getJoint joints0 key + damped
                  end in
    let lo := Limit.min (LIMITS key) in
    let hi := Limit.max (LIMITS key) in
    let joints1 := updateJoint targetPosition key joints0 in
    lo <= getJoint joints1 key <= hi
    /\ (lo <= newVal <= hi -> getJoint joints1 key = newVal)
    /\ (newVal < lo -> getJoint joints1 key = lo)
    /\ (hi < newVal -> getJoint joints1 key = hi)
    /\ (forall key', key' <> key -> getJoint joints1 key' = getJoint joints0 key')
    /\ (forall keys,
           innerLoop targetPosition (J6 :: keys) joints0
           = innerLoop targetPosition keys joints0)
    /\ (key <> J6 ->
        forall keys,
          innerLoop targetPosition (key :: keys) joints0
          = if ltb (Vector3.distanceTo (endEffector (calculateChain joints0))
                                       targetPosition) 0.01
            then joints0
            else innerLoop targetPosition keys joints1)
    /\ (forall iterations,
           j6 (solveIK targetPosition joints0 iterations) = j6 joints0).
Proof.
  intros targetPosition joints0 key angle damped newVal lo hi joints1.
  pose proof (LIMITS_ordered key) as Hord; fold lo hi in Hord.
  assert (Hnew : getJoint joints1 key = MathUtils.clamp newVal lo hi).
  { unfold joints1, updateJoint; cbv zeta. rewrite getJoint_setJoint.
    replace (keyEqb key key) with true by (destruct key; reflexivity).
    reflexivity. }
  split; [rewrite Hnew; now apply clamp_bounds|].
  split; [intros H; rewrite Hnew; now apply clamp_id|].
  split.
  { intros H; rewrite Hnew; unfold MathUtils.clamp, Rmax, Rmin.
    destruct (Rle_dec hi newVal); destruct (Rle_dec lo _); lra. }
  split.
  { intros H; rewrite Hnew; unfold MathUtils.clamp, Rmax, Rmin.
    destruct (Rle_dec hi newVal); destruct (Rle_dec lo _); lra. }
  split.
  { intros key' Hk; unfold joints1, updateJoint; cbv zeta.
    rewrite getJoint_setJoint.
    destruct key, key'; try reflexivity; congruence. }
  split; [reflexivity|].
  split.
  { intros Hk keys; destruct key; try reflexivity; congruence. }
  intros iterations; unfold solveIK; apply outerLoop_j6.
Qed.

(** ** Distances along the vertical *)

Lemma distanceTo_vertical (a b b' c : R) :
  b' <= b ->
  Vector3.distanceTo (Vector3.mk a b c) (Vector3.mk a b' c) = b - b'.
Proof.
  intros H; unfold Vector3.distanceTo, Vector3.distanceToSquared; cbn.
  replace (_ + _ + _) with ((b - b') * (b - b')) by ring.
  apply sqrt_square; lra.
Qed.

Lemma distanceTo_vertical_up (a b b' c : R) :
  b <= b' ->
  Vector3.distanceTo (Vector3.mk a b c) (Vector3.mk a b' c) = b' - b.
Proof.
  intros H; unfold Vector3.distanceTo, Vector3.distanceToSquared; cbn.
  replace (_ + _ + _) with ((b' - b) * (b' - b)) by ring.
  apply sqrt_square; lra.
Qed.

(** ** Rotations by unit quaternions *)

Ltac vec_unfold :=
  unfold unitQ, unitV, sandwich, Vector3.applyQuaternion, Quaternion.multiply,
    Vector3.add, Vector3.subVectors, Vector3.sub, Vector3.dot,
    Vector3.lengthSq, Vector3.crossVectors, Vector3.multiplyScalar,
    Vector3.distanceToSquared in *;
  cbn [Vector3.x Vector3.y Vector3.z Quaternion.x Quaternion.y Quaternion.z
       Quaternion.w] in *.

Lemma applyQuaternion_sandwich v q :
  unitQ q -> Vector3.applyQuaternion v q = sandwich v q.
Proof.
  destruct v as [vx vy vz], q as [qx qy qz qw]; intros H; vec_unfold.
  f_equal.
  - replace vx with (vx * (qx * qx + qy * qy + qz * qz + qw * qw)) at 1
      by (rewrite H; ring). ring.
  - replace vy with (vy * (qx * qx + qy * qy + qz * qz + qw * qw)) at 1
      by (rewrite H; ring). ring.
  - replace vz with (vz * (qx * qx + qy * qy + qz * qz + qw * qw)) at 1
      by (rewrite H; ring). ring.
Qed.

Lemma sandwich_multiply v a b :
  sandwich v (Quaternion.multiply a b) = sandwich (sandwich v b) a.
Proof.
  destruct v as [vx vy vz], a as [ax ay az aw], b as [bx b_y bz bw].
  vec_unfold. f_equal; ring.
Qed.

Lemma multiply_unit a b : unitQ a -> unitQ b -> unitQ (Quaternion.multiply a b).
Proof.
  destruct a as [ax ay az aw], b as [bx b_y bz bw]; intros Ha Hb; vec_unfold.
  replace 1 with ((ax * ax + ay * ay + az * az + aw * aw)
                  * (bx * bx + b_y * b_y + bz * bz + bw * bw))
    by (rewrite Ha, Hb; ring).
  ring.
Qed.

Lemma applyQuaternion_multiply v a b :
  unitQ a -> unitQ b ->
  Vector3.applyQuaternion v (Quaternion.multiply a b)
  = Vector3.applyQuaternion (Vector3.applyQuaternion v b) a.
Proof.
  intros Ha Hb.
  rewrite !applyQuaternion_sandwich by auto using multiply_unit.
  apply sandwich_multiply.
Qed.

Lemma applyQuaternion_add u v q :
  Vector3.applyQuaternion (Vector3.add u v) q
  = Vector3.add (Vector3.applyQuaternion u q) (Vector3.applyQuaternion v q).
Proof.
  destruct u, v, q; vec_unfold; f_equal; ring.
Qed.

Lemma sandwich_lengthSq v q :
  unitQ q -> Vector3.lengthSq (sandwich v q) = Vector3.lengthSq v.
Proof.
  destruct v as [vx vy vz], q as [qx qy qz qw]; intros H; vec_unfold.
  replace (vx * vx + vy * vy + vz * vz)
    with ((vx * vx + vy * vy + vz * vz)
          * ((qx * qx + qy * qy + qz * qz + qw * qw)
             * (qx * qx + qy * qy + qz * qz + qw * qw)))
    by (rewrite H; ring).
  ring.
Qed.

Lemma applyQuaternion_lengthSq v q :
  unitQ q -> Vector3.lengthSq (Vector3.applyQuaternion v q) = Vector3.lengthSq v.
Proof.
  intros H; rewrite applyQuaternion_sandwich by exact H.
  now apply sandwich_lengthSq.
Qed.

Lemma identity_unit : unitQ Quaternion.identity.
Proof. unfold unitQ, Quaternion.identity; cbn; ring. Qed.

Lemma setFromAxisAngle_unit axis angle :
  unitV axis -> unitQ (setFromAxisAngle axis angle).
Proof.
  destruct axis as [ax ay az]; intros H; unfold setFromAxisAngle; vec_unfold.
  pose proof (sin2_cos2 (angle / 2)) as Hsc; unfold Rsqr in Hsc.
  set (s := sin (angle / 2)) in *; set (c := cos (angle / 2)) in *.
  replace (ax * s * (ax * s) + ay * s * (ay * s) + az * s * (az * s) + c * c)
    with ((ax * ax + ay * ay + az * az) * (s * s) + c * c) by ring.
  rewrite H; lra.
Qed.

(** Two turns about the same axis compose to the turn by the sum. *)
Lemma setFromAxisAngle_plus axis a d :
  unitV axis ->
  setFromAxisAngle axis (a + d)
  = Quaternion.multiply (setFromAxisAngle axis d) (setFromAxisAngle axis a).
Proof.
  destruct axis as [ax ay az]; intros H; unfold setFromAxisAngle; vec_unfold.
  replace ((a + d) / 2) with (d / 2 + a / 2) by lra.
  rewrite sin_plus, cos_plus.
  set (s := sin (a / 2)); set (c := cos (a / 2)).
  set (s' := sin (d / 2)); set (c' := cos (d / 2)).
  f_equal; try ring.
  replace (c' * c - ax * s' * (ax * s) - ay * s' * (ay * s) - az * s' * (az * s))
    with (c' * c - (ax * ax + ay * ay + az * az) * (s' * s)) by ring.
  rewrite H; ring.
Qed.

(** Turning about a carried axis: [p * q_e = q_(p e) * p]. *)
Lemma multiply_conjugate p e d :
  unitQ p ->
  Quaternion.multiply p (setFromAxisAngle e d)
  = Quaternion.multiply (setFromAxisAngle (sandwich e p) d) p.
Proof.
  destruct p as [px py pz pw], e as [ex ey ez]; intros H.
  unfold setFromAxisAngle; vec_unfold.
  set (s := sin (d / 2)); set (c := cos (d / 2)).
  f_equal.
  - replace (pw * (ex * s)) with (pw * (ex * s) * (px * px + py * py + pz * pz + pw * pw))
      by (rewrite H; ring).
    replace (py * (ez * s)) with (py * (ez * s) * (px * px + py * py + pz * pz + pw * pw))
      by (rewrite H; ring).
    replace (pz * (ey * s)) with (pz * (ey * s) * (px * px + py * py + pz * pz + pw * pw))
      by (rewrite H; ring).
    ring.
  - replace (pw * (ey * s)) with (pw * (ey * s) * (px * px + py * py + pz * pz + pw * pw))
      by (rewrite H; ring).
    replace (pz * (ex * s)) with (pz * (ex * s) * (px * px + py * py + pz * pz + pw * pw))
      by (rewrite H; ring).
    replace (px * (ez * s)) with (px * (ez * s) * (px * px + py * py + pz * pz + pw * pw))
      by (rewrite H; ring).
    ring.
  - replace (pw * (ez * s)) with (pw * (ez * s) * (px * px + py * py + pz * pz + pw * pw))
      by (rewrite H; ring).
    replace (px * (ey * s)) with (px * (ey * s) * (px * px + py * py + pz * pz + pw * pw))
      by (rewrite H; ring).
    replace (py * (ex * s)) with (py * (ex * s) * (px * px + py * py + pz * pz + pw * pw))
      by (rewrite H; ring).
    ring.
  - replace (px * (ex * s)) with (px * (ex * s) * (px * px + py * py + pz * pz + pw * pw))
      by (rewrite H; ring).
    replace (py * (ey * s)) with (py * (ey * s) * (px * px + py * py + pz * pz + pw * pw))
      by (rewrite H; ring).
    replace (pz * (ez * s)) with (pz * (ez * s) * (px * px + py * py + pz * pz + pw * pw))
      by (rewrite H; ring).
    ring.
Qed.

(** ** One coordinate-descent step does not move the tip away *)

Lemma lengthSq_nonneg v : 0 <= Vector3.lengthSq v.
Proof. destruct v as [a b c]; vec_unfold; nra. Qed.

Lemma lengthSq_zero v : Vector3.lengthSq v = 0 -> v = Vector3.mk 0 0 0.
Proof.
  destruct v as [a b c]; vec_unfold; intros H.
  assert (a = 0) by nra. assert (b = 0) by nra. assert (c = 0) by nra.
  subst; reflexivity.
Qed.

(** [normalize] scales by a positive factor; the result is a unit vector
    unless the vector is zero. *)
Lemma normalize_scale v :
  exists k, 0 < k
            /\ Vector3.normalize v = Vector3.multiplyScalar v k
            /\ (Vector3.lengthSq v <> 0 -> unitV (Vector3.normalize v)).
Proof.
  unfold Vector3.normalize, Vector3.divideScalar, Vector3.length.
  pose proof (lengthSq_nonneg v) as Hn.
  destruct (eqb0 (sqrt (Vector3.lengthSq v))) eqn:E.
  - apply eqb0_spec in E. apply sqrt_eq_0 in E; [|exact Hn].
    exists (1 / 1); split; [lra|]. split; [reflexivity|]. intros H; contradiction.
  - apply eqb0_false in E.
    assert (Hs : 0 < sqrt (Vector3.lengthSq v)).
    { pose proof (sqrt_pos (Vector3.lengthSq v)); lra. }
    exists (1 / sqrt (Vector3.lengthSq v)); split.
    { apply Rdiv_lt_0_compat; lra. }
    split; [reflexivity|]. intros _.
    pose proof (sqrt_sqrt _ Hn) as Hsq.
    generalize dependent (sqrt (Vector3.lengthSq v)); intros l _ Hl Hsq.
    unfold unitV. destruct v as [a b c]; vec_unfold.
    replace (a * (1 / l) * (a * (1 / l)) + b * (1 / l) * (b * (1 / l))
             + c * (1 / l) * (c * (1 / l)))
      with ((a * a + b * b + c * c) / (l * l)) by (field; lra).
    rewrite <- Hsq. field. lra.
Qed.

Lemma normalize_unit v : unitV v -> Vector3.normalize v = v.
Proof.
  intros H; unfold Vector3.normalize, Vector3.divideScalar, Vector3.length.
  unfold unitV in H; rewrite H, sqrt_1.
  replace (eqb0 1) with false by (symmetry; apply eqb0_false; lra).
  destruct v as [a b c]; vec_unfold; f_equal; field.
Qed.

Lemma perp_scale axis v k :
  perp axis (Vector3.multiplyScalar v k) = Vector3.multiplyScalar (perp axis v) k.
Proof. destruct axis, v; unfold perp; vec_unfold; f_equal; ring. Qed.

Lemma perp_orthogonal axis v : unitV axis -> Vector3.dot (perp axis v) axis = 0.
Proof.
  destruct axis as [a b c], v as [x y z]; unfold perp; intros H; vec_unfold.
  replace ((x - a * (x * a + y * b + z * c)) * a
           + (y - b * (x * a + y * b + z * c)) * b
           + (z - c * (x * a + y * b + z * c)) * c)
    with ((x * a + y * b + z * c) * (1 - (a * a + b * b + c * c))) by ring.
  rewrite H; ring.
Qed.

(** For unit vectors perpendicular to a unit axis, the dot product and the
    axial part of the cross product are a cosine and a sine. *)
Lemma planar_pythagoras axis u v :
  unitV axis -> unitV u -> unitV v ->
  Vector3.dot u axis = 0 -> Vector3.dot v axis = 0 ->
  Vector3.dot u v * Vector3.dot u v
  + Vector3.dot (Vector3.crossVectors u v) axis
    * Vector3.dot (Vector3.crossVectors u v) axis = 1.
Proof.
  destruct axis as [a b c], u as [u1 u2 u3], v as [v1 v2 v3].
  intros Ha Hu Hv Hua Hva; vec_unfold.
  (* Lagrange: |u x v|^2 = |u|^2 |v|^2 - (u.v)^2 *)
  assert (L1 : (u2 * v3 - u3 * v2) * (u2 * v3 - u3 * v2)
               + (u3 * v1 - u1 * v3) * (u3 * v1 - u1 * v3)
               + (u1 * v2 - u2 * v1) * (u1 * v2 - u2 * v1)
               = (u1 * u1 + u2 * u2 + u3 * u3) * (v1 * v1 + v2 * v2 + v3 * v3)
                 - (u1 * v1 + u2 * v2 + u3 * v3) * (u1 * v1 + u2 * v2 + u3 * v3))
    by ring.
  rewrite Hu, Hv in L1.
  (* (u x v) x axis = v (u.axis) - u (v.axis) = 0 *)
  set (X1 := u2 * v3 - u3 * v2) in *.
  set (X2 := u3 * v1 - u1 * v3) in *.
  set (X3 := u1 * v2 - u2 * v1) in *.
  assert (C1 : X2 * c - X3 * b = 0).
  { unfold X2, X3.
    replace ((u3 * v1 - u1 * v3) * c - (u1 * v2 - u2 * v1) * b)
      with (v1 * (u1 * a + u2 * b + u3 * c) - u1 * (v1 * a + v2 * b + v3 * c))
      by ring.
    rewrite Hua, Hva; ring. }
  assert (C2 : X3 * a - X1 * c = 0).
  { unfold X1, X3.
    replace ((u1 * v2 - u2 * v1) * a - (u2 * v3 - u3 * v2) * c)
      with (v2 * (u1 * a + u2 * b + u3 * c) - u2 * (v1 * a + v2 * b + v3 * c))
      by ring.
    rewrite Hua, Hva; ring. }
  assert (C3 : X1 * b - X2 * a = 0).
  { unfold X1, X2.
    replace ((u2 * v3 - u3 * v2) * b - (u3 * v1 - u1 * v3) * a)
      with (v3 * (u1 * a + u2 * b + u3 * c) - u3 * (v1 * a + v2 * b + v3 * c))
      by ring.
    rewrite Hua, Hva; ring. }
  (* Lagrange again: |X|^2 |axis|^2 = (X.axis)^2 + |X x axis|^2 *)
  assert (L2 : (X1 * X1 + X2 * X2 + X3 * X3) * (a * a + b * b + c * c)
               = (X1 * a + X2 * b + X3 * c) * (X1 * a + X2 * b + X3 * c)
                 + (X2 * c - X3 * b) * (X2 * c - X3 * b)
                 + (X3 * a - X1 * c) * (X3 * a - X1 * c)
                 + (X1 * b - X2 * a) * (X1 * b - X2 * a)) by ring.
  rewrite Ha, C1, C2, C3 in L2. lra.
Qed.

(** [angleTo] of two unit vectors is the arc cosine of their dot product. *)
Lemma angleTo_unit u v :
  unitV u -> unitV v ->
  -1 <= Vector3.dot u v <= 1
  /\ Vector3.angleTo u v = acos (Vector3.dot u v).
Proof.
  intros Hu Hv.
  assert (Hcs : Vector3.dot u v * Vector3.dot u v <= 1).
  { destruct u as [u1 u2 u3], v as [v1 v2 v3]; vec_unfold.
    assert (L1 : (u2 * v3 - u3 * v2) * (u2 * v3 - u3 * v2)
               + (u3 * v1 - u1 * v3) * (u3 * v1 - u1 * v3)
               + (u1 * v2 - u2 * v1) * (u1 * v2 - u2 * v1)
               = (u1 * u1 + u2 * u2 + u3 * u3) * (v1 * v1 + v2 * v2 + v3 * v3)
                 - (u1 * v1 + u2 * v2 + u3 * v3) * (u1 * v1 + u2 * v2 + u3 * v3))
      by ring.
    rewrite Hu, Hv in L1.
    assert (Sq : forall r, 0 <= r * r) by (intros r; nra).
    pose proof (Sq (u2 * v3 - u3 * v2)). pose proof (Sq (u3 * v1 - u1 * v3)).
    pose proof (Sq (u1 * v2 - u2 * v1)). lra. }
  assert (Hb : -1 <= Vector3.dot u v <= 1) by (split; nra).
  split; [exact Hb|].
  unfold Vector3.angleTo; cbv zeta. unfold unitV in Hu, Hv.
  rewrite Hu, Hv, Rmult_1_r, sqrt_1.
  replace (eqb0 1) with false by (symmetry; apply eqb0_false; lra).
  rewrite clamp_id by (split; lra). f_equal. field.
Qed.

Lemma angleTo_bound u v : 0 <= Vector3.angleTo u v <= PI.
Proof.
  unfold Vector3.angleTo; cbv zeta. pose proof PI_RGT_0.
  destruct (eqb0 _); [lra|]. apply acos_bound.
Qed.

Lemma cos_between theta delta :
  - PI <= theta <= PI ->
  0 <= delta <= theta / 2 \/ theta / 2 <= delta <= 0 ->
  cos theta <= cos (theta - delta).
Proof.
  intros Ht [Hd|Hd].
  - apply cos_decr_1; lra.
  - rewrite <- (cos_neg theta), <- (cos_neg (theta - delta)).
    apply cos_decr_1; lra.
Qed.

(** The in-plane products of the two pivot vectors are a radius times the
    cosine and the sine of the signed angle. *)
Lemma signedAngleAt_polar axis jointPos tipPos targetPosition :
  unitV axis ->
  let w := Vector3.sub tipPos jointPos in
  let h := Vector3.sub targetPosition jointPos in
  let theta := signedAngleAt axis jointPos tipPos targetPosition in
  - PI <= theta <= PI
  /\ exists rho, 0 <= rho
       /\ Vector3.dot (perp axis w) (perp axis h) = rho * cos theta
       /\ Vector3.dot (Vector3.crossVectors (perp axis w) (perp axis h)) axis
          = rho * sin theta.
Proof.
  intros Ha w h theta.
  assert (Hrange : - PI <= theta <= PI).
  { unfold theta, signedAngleAt; cbv zeta.
    match goal with
    | |- context [Vector3.angleTo ?u ?v] => pose proof (angleTo_bound u v)
    end.
    destruct (ltb _ _); lra. }
  split; [exact Hrange|].
  unfold theta, signedAngleAt; cbv zeta.
  unfold Vector3.subVectors; fold w h.
  destruct (normalize_scale w) as (k1 & Hk1 & E1 & _).
  destruct (normalize_scale h) as (m1 & Hm1 & F1 & _).
  rewrite E1, F1. fold (perp axis (Vector3.multiplyScalar w k1)).
  fold (perp axis (Vector3.multiplyScalar h m1)). rewrite !perp_scale.
  set (pw := perp axis w) in *. set (ph := perp axis h) in *.
  destruct (normalize_scale (Vector3.multiplyScalar pw k1)) as (k2 & Hk2 & E2 & U2).
  destruct (normalize_scale (Vector3.multiplyScalar ph m1)) as (m2 & Hm2 & F2 & V2).
  assert (Lw : Vector3.lengthSq (Vector3.multiplyScalar pw k1)
               = k1 * k1 * Vector3.lengthSq pw)
    by (destruct pw; vec_unfold; ring).
  assert (Lh : Vector3.lengthSq (Vector3.multiplyScalar ph m1)
               = m1 * m1 * Vector3.lengthSq ph)
    by (destruct ph; vec_unfold; ring).
  destruct (Req_dec (Vector3.lengthSq pw) 0) as [Zw|Nw].
  { exists 0; split; [lra|]. rewrite (lengthSq_zero _ Zw).
    destruct ph, axis; vec_unfold; split; ring. }
  destruct (Req_dec (Vector3.lengthSq ph) 0) as [Zh|Nh].
  { exists 0; split; [lra|]. rewrite (lengthSq_zero _ Zh).
    destruct pw, axis; vec_unfold; split; ring. }
  assert (HU : unitV (Vector3.normalize (Vector3.multiplyScalar pw k1))).
  { apply U2; rewrite Lw. apply Rmult_integral_contrapositive_currified; [nra|exact Nw]. }
  assert (HV : unitV (Vector3.normalize (Vector3.multiplyScalar ph m1))).
  { apply V2; rewrite Lh. apply Rmult_integral_contrapositive_currified; [nra|exact Nh]. }
  set (U := Vector3.normalize (Vector3.multiplyScalar pw k1)) in *.
  set (V := Vector3.normalize (Vector3.multiplyScalar ph m1)) in *.
  set (K := k1 * k2 * (m1 * m2)).
  assert (HK : 0 < K) by (unfold K; apply Rmult_lt_0_compat; nra).
  assert (Hdot : Vector3.dot U V = K * Vector3.dot pw ph).
  { rewrite E2, F2; unfold K; destruct pw, ph; vec_unfold; ring. }
  assert (Hcross : Vector3.dot (Vector3.crossVectors U V) axis
                   = K * Vector3.dot (Vector3.crossVectors pw ph) axis).
  { rewrite E2, F2; unfold K; destruct pw, ph, axis; vec_unfold; ring. }
  assert (HUa : Vector3.dot U axis = 0).
  { rewrite E2. pose proof (perp_orthogonal axis w Ha) as Hp; fold pw in Hp.
    destruct pw, axis; vec_unfold.
    match goal with |- ?l = 0 => replace l with (k1 * k2 * (x * x0 + y * y0 + z * z0)) by ring end.
    rewrite Hp; ring. }
  assert (HVa : Vector3.dot V axis = 0).
  { rewrite F2. pose proof (perp_orthogonal axis h Ha) as Hp; fold ph in Hp.
    destruct ph, axis; vec_unfold.
    match goal with |- ?l = 0 => replace l with (m1 * m2 * (x * x0 + y * y0 + z * z0)) by ring end.
    rewrite Hp; ring. }
  pose proof (planar_pythagoras axis U V Ha HU HV HUa HVa) as Hpy.
  destruct (angleTo_unit U V HU HV) as [Hb Hang]. rewrite Hang.
  set (ca := Vector3.dot U V) in *.
  set (sb := Vector3.dot (Vector3.crossVectors U V) axis) in *.
  exists (/ K). split; [left; now apply Rinv_0_lt_compat|].
  assert (Hsin : sin (acos ca) = Rabs sb).
  { rewrite sin_acos by exact Hb.
    replace (1 - ca²) with (sb * sb) by (unfold Rsqr; lra).
    fold (Rsqr sb). apply sqrt_Rsqr_abs. }
  destruct (ltb sb 0) eqn:Es.
  - apply ltb_spec in Es. rewrite cos_neg, sin_neg, cos_acos, Hsin by exact Hb.
    rewrite Rabs_left by exact Es. split; field_simplify_eq; lra.
  - apply ltb_false in Es. rewrite cos_acos, Hsin by exact Hb.
    rewrite Rabs_right by lra. split; field_simplify_eq; lra.
Qed.

(** Rodrigues' formula, paired with a second vector. *)
Lemma axisAngle_dot axis delta w h :
  unitV axis ->
  Vector3.dot (Vector3.applyQuaternion w (setFromAxisAngle axis delta)) h
  = Vector3.dot w h
    + sin delta * Vector3.dot (Vector3.crossVectors (perp axis w) (perp axis h)) axis
    - (1 - cos delta) * Vector3.dot (perp axis w) (perp axis h).
Proof.
  intros Ha.
  replace delta with (2 * (delta / 2)) at 2 3 by lra.
  rewrite sin_2a, cos_2a_sin.
  unfold setFromAxisAngle, perp; cbv zeta.
  set (s := sin (delta / 2)); set (c := cos (delta / 2)).
  destruct axis as [a1 a2 a3], w as [w1 w2 w3], h as [h1 h2 h3]; vec_unfold.
  set (N := a1 * a1 + a2 * a2 + a3 * a3) in *.
  transitivity
    (w1 * h1 + w2 * h2 + w3 * h3
     + 2 * s * c * ((a2 * w3 - a3 * w2) * h1 + (a3 * w1 - a1 * w3) * h2
                    + (a1 * w2 - a2 * w1) * h3)
     + 2 * s * s * ((a1 * w1 + a2 * w2 + a3 * w3) * (a1 * h1 + a2 * h2 + a3 * h3)
                    - N * (w1 * h1 + w2 * h2 + w3 * h3))).
  { unfold N; ring. }
  transitivity
    (w1 * h1 + w2 * h2 + w3 * h3
     + 2 * s * c * ((a2 * w3 - a3 * w2) * h1 + (a3 * w1 - a1 * w3) * h2
                    + (a1 * w2 - a2 * w1) * h3)
     - (1 - (1 - 2 * s * s))
       * ((w1 * h1 + w2 * h2 + w3 * h3)
          - (2 - N) * ((a1 * w1 + a2 * w2 + a3 * w3) * (a1 * h1 + a2 * h2 + a3 * h3)))).
  { rewrite Ha; ring. }
  unfold N; ring.
Qed.

(** Turning the tip about the axis by a part of the signed angle, up to a
    half, does not take it further from the target. *)
Lemma turn_toward_target axis jointPos tipPos targetPosition delta :
  unitV axis ->
  let theta := signedAngleAt axis jointPos tipPos targetPosition in
  0 <= delta <= theta / 2 \/ theta / 2 <= delta <= 0 ->
  Vector3.distanceToSquared
    (Vector3.add jointPos
       (Vector3.applyQuaternion (Vector3.sub tipPos jointPos)
          (setFromAxisAngle axis delta)))
    targetPosition
  <= Vector3.distanceToSquared tipPos targetPosition.
Proof.
  intros Ha theta Hd.
  destruct (signedAngleAt_polar axis jointPos tipPos targetPosition Ha)
    as (Hrange & rho & Hrho & HA & HB).
  fold theta in Hrange, HA, HB.
  set (w := Vector3.sub tipPos jointPos) in *.
  set (h := Vector3.sub targetPosition jointPos) in *.
  set (q := setFromAxisAngle axis delta).
  pose proof (applyQuaternion_lengthSq w q (setFromAxisAngle_unit axis delta Ha)) as Hlen.
  pose proof (axisAngle_dot axis delta w h Ha) as Hdot. fold q in Hdot.
  rewrite HA, HB in Hdot.
  pose proof (cos_between theta delta Hrange Hd) as Hcos.
  rewrite cos_minus in Hcos.
  assert (Hgain : Vector3.dot w h <= Vector3.dot (Vector3.applyQuaternion w q) h).
  { rewrite Hdot.
    replace (Vector3.dot w h + sin delta * (rho * sin theta)
             - (1 - cos delta) * (rho * cos theta))
      with (Vector3.dot w h
            + rho * (cos theta * cos delta + sin theta * sin delta - cos theta))
      by ring.
    nra. }
  set (r := Vector3.applyQuaternion w q) in *.
  assert (E1 : Vector3.distanceToSquared (Vector3.add jointPos r) targetPosition
               = Vector3.lengthSq r - 2 * Vector3.dot r h + Vector3.lengthSq h).
  { unfold h; destruct jointPos, r, targetPosition; vec_unfold; ring. }
  assert (E2 : Vector3.distanceToSquared tipPos targetPosition
               = Vector3.lengthSq w - 2 * Vector3.dot w h + Vector3.lengthSq h).
  { unfold w, h; destruct jointPos, tipPos, targetPosition; vec_unfold; ring. }
  rewrite E1, E2, Hlen. lra.
Qed.

(** ** The chain seen from one joint *)

Lemma axisY_unit : unitV axisY.
Proof. unfold unitV, axisY; vec_unfold; ring. Qed.

Lemma axisZ_unit : unitV axisZ.
Proof. unfold unitV, axisZ; vec_unfold; ring. Qed.

Lemma rotAxis_unit key : unitV (rotAxis key).
Proof. destruct key; first [apply axisY_unit | apply axisZ_unit]. Qed.

Lemma jointTurn_unit joints key : unitQ (jointTurn joints key).
Proof. apply setFromAxisAngle_unit, rotAxis_unit. Qed.

Create HintDb chain.
#[local] Hint Resolve identity_unit multiply_unit jointTurn_unit
  setFromAxisAngle_unit axisY_unit axisZ_unit rotAxis_unit : chain.

Lemma add_assoc (a b c : Vector3.t) :
  Vector3.add (Vector3.add a b) c = Vector3.add a (Vector3.add b c).
Proof. destruct a, b, c; vec_unfold; f_equal; ring. Qed.

Ltac name_turns joints :=
  pose proof (jointTurn_unit joints J1) as U1;
  pose proof (jointTurn_unit joints J2) as U2;
  pose proof (jointTurn_unit joints J3) as U3;
  pose proof (jointTurn_unit joints J4) as U4;
  pose proof (jointTurn_unit joints J5) as U5;
  pose proof (jointTurn_unit joints J6) as U6;
  cbv beta iota delta [jointTurn jointAngle getJoint rotAxis] in *;
  generalize dependent (setFromAxisAngle axisY (j6 joints)); intros q6 U6;
  generalize dependent (setFromAxisAngle axisZ (j5 joints)); intros q5 U5;
  generalize dependent (setFromAxisAngle axisY (j4 joints)); intros q4 U4;
  generalize dependent (setFromAxisAngle axisZ (j3 joints)); intros q3 U3;
  generalize dependent (setFromAxisAngle axisZ (j2 joints)); intros q2 U2;
  generalize dependent (setFromAxisAngle axisY (- j1 joints)); intros q1 U1.

Lemma parentOf_unit joints key : unitQ (parentOf joints key).
Proof.
  unfold parentOf, calculateChain; cbv zeta.
  destruct key; cbn [jointIdx parentRot rotations nth]; auto 10 with chain.
Qed.

(** The tip is the pivot of the joint plus the reach, turned by the joint
    and carried by the orientation accumulated before it. *)
Lemma tip_from_joint joints key :
  key <> J6 ->
  endEffector (calculateChain joints)
  = Vector3.add (pivotOf joints key)
      (Vector3.applyQuaternion
         (Vector3.applyQuaternion (reachAfter joints key) (jointTurn joints key))
         (parentOf joints key)).
Proof.
  intros Hk. unfold pivotOf, parentOf, reachAfter, calculateChain; cbv zeta.
  cbn [endEffector positions rotations].
  destruct key; try congruence; clear Hk;
    cbn [jointIdx nth parentRot rotations positions endEffector];
    name_turns joints;
    rewrite ?applyQuaternion_multiply by auto 10 with chain;
    rewrite ?applyQuaternion_add, ?applyQuaternion_identity, ?add_assoc;
    rewrite ?applyQuaternion_multiply by auto 10 with chain;
    reflexivity.
Qed.

Lemma setJoint_frame joints key v :
  pivotOf (setJoint joints key v) key = pivotOf joints key
  /\ parentOf (setJoint joints key v) key = parentOf joints key
  /\ reachAfter (setJoint joints key v) key = reachAfter joints key.
Proof.
  unfold pivotOf, parentOf, reachAfter, jointTurn, jointAngle, calculateChain;
    cbv zeta.
  destruct key;
    cbn [setJoint j1 j2 j3 j4 j5 j6 getJoint jointIdx nth parentRot rotations
         positions rotAxis];
    repeat split; reflexivity.
Qed.

Lemma jointAngle_setJoint joints key v :
  jointAngle (setJoint joints key v) key
  = jointAngle joints key + updateSign key * (v - getJoint joints key).
Proof. destruct key; unfold jointAngle, updateSign, setJoint; cbn; ring. Qed.

Lemma sub_add_cancel (p y : Vector3.t) : Vector3.sub (Vector3.add p y) p = y.
Proof. destruct p, y; vec_unfold; f_equal; ring. Qed.

Lemma worldAxis_carried joints key :
  worldAxis key (calculateChain joints)
  = Vector3.applyQuaternion (rotAxis key) (parentOf joints key)
  /\ unitV (worldAxis key (calculateChain joints)).
Proof.
  assert (H : unitV (Vector3.applyQuaternion (rotAxis key) (parentOf joints key))).
  { unfold unitV; rewrite applyQuaternion_lengthSq by apply parentOf_unit.
    apply rotAxis_unit. }
  unfold worldAxis. fold (parentOf joints key).
  rewrite normalize_unit by exact H. split; [reflexivity|exact H].
Qed.

(** Writing one joint turns the tip about the joint's world axis through
    its pivot, by the change of the joint's turn. *)
Lemma setJoint_turns_tip joints key v :
  key <> J6 ->
  let chain := calculateChain joints in
  endEffector (calculateChain (setJoint joints key v))
  = Vector3.add (pivotOf joints key)
      (Vector3.applyQuaternion
         (Vector3.sub (endEffector chain) (pivotOf joints key))
         (setFromAxisAngle (worldAxis key chain)
            (updateSign key * (v - getJoint joints key)))).
Proof.
  intros Hk chain; unfold chain.
  destruct (worldAxis_carried joints key) as [-> _].
  rewrite (tip_from_joint (setJoint joints key v) key Hk).
  destruct (setJoint_frame joints key v) as (-> & -> & ->).
  rewrite (tip_from_joint joints key Hk), sub_add_cancel.
  f_equal.
  pose proof (parentOf_unit joints key) as Hp.
  pose proof (rotAxis_unit key) as He.
  set (p := parentOf joints key) in *.
  set (d := updateSign key * (v - getJoint joints key)).
  unfold jointTurn at 1. rewrite jointAngle_setJoint. fold d.
  rewrite setFromAxisAngle_plus by exact He. fold (jointTurn joints key).
  set (X := reachAfter joints key).
  rewrite applyQuaternion_multiply by auto with chain.
  set (Y := Vector3.applyQuaternion X (jointTurn joints key)).
  rewrite <- applyQuaternion_multiply by auto with chain.
  rewrite multiply_conjugate by exact Hp.
  rewrite <- (applyQuaternion_sandwich (rotAxis key) p Hp).
  assert (Ha : unitV (Vector3.applyQuaternion (rotAxis key) p)).
  { unfold unitV; rewrite applyQuaternion_lengthSq by exact Hp. exact He. }
  rewrite applyQuaternion_multiply by auto with chain.
  reflexivity.
Qed.

Lemma clamp_between v step lo hi :
  lo <= v <= hi ->
  let d := MathUtils.clamp (v + step) lo hi - v in
  0 <= d <= step \/ step <= d <= 0.
Proof.
  intros Hv d; unfold d, MathUtils.clamp, Rmax, Rmin.
  destruct (Rle_dec hi (v + step)); destruct (Rle_dec lo _); lra.
Qed.

(** One joint update does not take the tip further from the target, when
    the joint starts within its range. *)
Lemma updateJoint_no_farther targetPosition key joints :
  key <> J6 ->
  inLimit key (getJoint joints key) ->
  Vector3.distanceToSquared
    (endEffector (calculateChain (updateJoint targetPosition key joints)))
    targetPosition
  <= Vector3.distanceToSquared (endEffector (calculateChain joints)) targetPosition.
Proof.
  intros Hk Hlim. unfold updateJoint; cbv zeta.
  set (theta := signedAngle targetPosition key (calculateChain joints)).
  set (v := getJoint joints key) in *.
  set (v' := MathUtils.clamp _ _ _).
  rewrite (setJoint_turns_tip joints key v' Hk); cbv zeta. fold v.
  destruct (worldAxis_carried joints key) as [_ Ha].
  apply turn_toward_target; [exact Ha|].
  fold (pivotOf joints key).
  change (signedAngleAt (worldAxis key (calculateChain joints)) (pivotOf joints key)
            (endEffector (calculateChain joints)) targetPosition) with theta.
  unfold inLimit in Hlim.
  destruct key; try congruence; unfold updateSign;
    [ pose proof (clamp_between v (- (theta * 0.5)) _ _ Hlim) as Hc
    | pose proof (clamp_between v (theta * 0.5) _ _ Hlim) as Hc
    | pose proof (clamp_between v (theta * 0.5) _ _ Hlim) as Hc
    | pose proof (clamp_between v (theta * 0.5) _ _ Hlim) as Hc
    | pose proof (clamp_between v (theta * 0.5) _ _ Hlim) as Hc ];
    cbv zeta in Hc;
    [ replace (v + - (theta * 0.5)) with (v - theta * 0.5) in Hc by ring | | | | ];
    fold v' in Hc; lra.
Qed.

(** ** Repeated solving *)

Lemma updateJoint_tipDistance targetPosition key joints :
  key <> J6 ->
  inLimit key (getJoint joints key) ->
  tipDistance targetPosition (updateJoint targetPosition key joints)
  <= tipDistance targetPosition joints.
Proof.
  intros Hk Hlim; unfold tipDistance, Vector3.distanceTo.
  apply sqrt_le_1_alt. now apply updateJoint_no_farther.
Qed.

Lemma updateJoint_solvedWithinLimits targetPosition key joints :
  solvedWithinLimits joints ->
  solvedWithinLimits (updateJoint targetPosition key joints).
Proof. intros H k Hk; apply updateJoint_inLimit, H, Hk. Qed.

Lemma innerLoop_tipDistance targetPosition keys : forall joints,
  solvedWithinLimits joints ->
  tipDistance targetPosition (innerLoop targetPosition keys joints)
  <= tipDistance targetPosition joints.
Proof.
  induction keys as [|key rest IH]; intros joints Hlim; cbn [innerLoop];
    [apply Rle_refl|].
  assert (Hstep : key <> J6 ->
            tipDistance targetPosition
              (innerLoop targetPosition rest (updateJoint targetPosition key joints))
            <= tipDistance targetPosition joints).
  { intros Hk. eapply Rle_trans.
    - apply IH, updateJoint_solvedWithinLimits, Hlim.
    - apply updateJoint_tipDistance; [exact Hk | apply Hlim, Hk]. }
  destruct key; try (destruct (ltb _ _); [apply Rle_refl|apply Hstep; discriminate]).
  now apply IH.
Qed.

Lemma innerLoop_solvedWithinLimits targetPosition keys joints :
  solvedWithinLimits joints ->
  solvedWithinLimits (innerLoop targetPosition keys joints).
Proof. intros H k Hk; apply innerLoop_inLimit, H, Hk. Qed.

Lemma outerLoop_tipDistance targetPosition passes : forall joints,
  solvedWithinLimits joints ->
  tipDistance targetPosition (outerLoop targetPosition passes joints)
  <= tipDistance targetPosition joints.
Proof.
  induction passes as [|n IH]; intros joints Hlim; cbn [outerLoop];
    [apply Rle_refl|].
  eapply Rle_trans.
  - apply IH, innerLoop_solvedWithinLimits, Hlim.
  - apply innerLoop_tipDistance, Hlim.
Qed.

Lemma solveIK_solvedWithinLimits targetPosition joints iterations :
  solvedWithinLimits joints ->
  solvedWithinLimits (solveIK targetPosition joints iterations).
Proof. intros H k Hk; apply solveIK_inLimit, H, Hk. Qed.

Lemma solveRepeatedly_solvedWithinLimits targetPosition n joints :
  solvedWithinLimits joints ->
  solvedWithinLimits (solveRepeatedly targetPosition n joints).
Proof.
  intros H; induction n as [|n IH]; cbn [solveRepeatedly Nat.iter]; [exact H|].
  apply solveIK_solvedWithinLimits, IH.
Qed.

(** ** A straight arm under an axial target *)

Lemma yaw_identity : yaw Quaternion.identity.
Proof. split; reflexivity. Qed.

Lemma yaw_axisY angle : yaw (setFromAxisAngle axisY angle).
Proof. unfold yaw, setFromAxisAngle, axisY; cbn; split; ring. Qed.

Lemma yaw_multiply a b : yaw a -> yaw b -> yaw (Quaternion.multiply a b).
Proof.
  destruct a as [ax ay az aw], b as [bx b_y bz bw]; unfold yaw; cbn.
  intros [-> ->] [-> ->]; split; ring.
Qed.

Lemma multiply_identity_r (q : Quaternion.t) :
  Quaternion.multiply q Quaternion.identity = q.
Proof.
  destruct q; unfold Quaternion.multiply, Quaternion.identity;
    cbn [Quaternion.x Quaternion.y Quaternion.z Quaternion.w]; f_equal; ring.
Qed.

Lemma applyQuaternion_yaw_vertical q len :
  yaw q -> Vector3.applyQuaternion (Vector3.mk 0 len 0) q = Vector3.mk 0 len 0.
Proof.
  destruct q as [qx qy qz qw]; unfold yaw; cbn; intros [-> ->].
  unfold Vector3.applyQuaternion; cbn; f_equal; ring.
Qed.

Lemma applyQuaternion_yaw_axisZ q :
  yaw q -> Vector3.y (Vector3.applyQuaternion axisZ q) = 0.
Proof.
  destruct q as [qx qy qz qw]; unfold yaw; cbn; intros [-> ->].
  unfold Vector3.applyQuaternion, axisZ; cbn; ring.
Qed.

#[local] Hint Resolve yaw_identity yaw_axisY yaw_multiply : chain.

Lemma straightUp_chain joints :
  straightUp joints ->
  endEffector (calculateChain joints) = Vector3.mk 0 8.1 0
  /\ pivotOf joints J5 = Vector3.mk 0 6.8 0
  /\ pivotOf joints J3 = Vector3.mk 0 5.1 0
  /\ pivotOf joints J2 = Vector3.mk 0 1.1 0
  /\ yaw (parentOf joints J5) /\ yaw (parentOf joints J3)
  /\ yaw (parentOf joints J2).
Proof.
  intros (H2 & H3 & H5).
  unfold pivotOf, parentOf, calculateChain; cbv zeta.
  cbn [endEffector positions rotations jointIdx nth parentRot].
  rewrite H2, H3, H5, !setFromAxisAngle_zero, !multiply_identity_r,
    !multiply_identity_l.
  rewrite !applyQuaternion_yaw_vertical by auto 10 with chain.
  repeat split;
    try (unfold Vector3.add; cbn [Vector3.x Vector3.y Vector3.z]; f_equal; lra);
    match goal with
    | |- _ ?q = 0 =>
        let H := fresh in
        assert (H : yaw q) by auto 10 with chain; destruct H; assumption
    end.
Qed.

Lemma normalize_vertical len :
  0 < len -> Vector3.normalize (Vector3.mk 0 len 0) = Vector3.mk 0 1 0.
Proof.
  intros H; unfold Vector3.normalize, Vector3.divideScalar, Vector3.length,
    Vector3.lengthSq; cbn [Vector3.x Vector3.y Vector3.z].
  replace (0 * 0 + len * len + 0 * 0) with (len * len) by ring.
  rewrite sqrt_square by lra.
  replace (eqb0 len) with false by (symmetry; apply eqb0_false; lra).
  unfold Vector3.multiplyScalar; cbn; f_equal; field; lra.
Qed.

(** When pivot, tip and target are stacked on a vertical line, tip and
    target above the pivot, and the axis is horizontal, the signed angle is
    zero. *)
Lemma signedAngleAt_aligned axis jointPos tipPos targetPosition l1 l2 :
  unitV axis -> Vector3.y axis = 0 -> 0 < l1 -> 0 < l2 ->
  Vector3.sub tipPos jointPos = Vector3.mk 0 l1 0 ->
  Vector3.sub targetPosition jointPos = Vector3.mk 0 l2 0 ->
  signedAngleAt axis jointPos tipPos targetPosition = 0.
Proof.
  intros Ha Hy H1 H2 E1 E2. unfold signedAngleAt, Vector3.subVectors; cbv zeta.
  rewrite E1, E2, !normalize_vertical by assumption.
  assert (Hp : Vector3.sub (Vector3.mk 0 1 0)
                 (Vector3.multiplyScalar axis (Vector3.dot (Vector3.mk 0 1 0) axis))
               = Vector3.mk 0 1 0).
  { destruct axis as [a1 a2 a3]; cbn in Hy; subst a2; vec_unfold; f_equal; ring. }
  rewrite Hp, (normalize_vertical 1) by lra.
  assert (Hu : unitV (Vector3.mk 0 1 0)) by (unfold unitV; vec_unfold; ring).
  destruct (angleTo_unit _ _ Hu Hu) as [_ ->].
  replace (Vector3.dot (Vector3.mk 0 1 0) (Vector3.mk 0 1 0)) with 1
    by (vec_unfold; ring).
  rewrite acos_1.
  destruct (ltb _ _); lra.
Qed.

Lemma straightUp_signedAngle joints key :
  straightUp joints ->
  key = J5 \/ key = J3 \/ key = J2 ->
  signedAngle axialTarget key (calculateChain joints) = 0.
Proof.
  intros Hs Hk.
  destruct (straightUp_chain joints Hs) as (Et & E5 & E3 & E2 & Y5 & Y3 & Y2).
  destruct (worldAxis_carried joints key) as [Ew Hu].
  unfold signedAngle; cbv zeta. fold (pivotOf joints key). rewrite Et.
  assert (Hy : Vector3.y (worldAxis key (calculateChain joints)) = 0).
  { rewrite Ew. destruct Hk as [-> | [-> | ->]];
      now apply applyQuaternion_yaw_axisZ. }
  unfold axialTarget.
  destruct Hk as [-> | [-> | ->]].
  - rewrite E5. apply (signedAngleAt_aligned _ _ _ _ 1.3 0.3); auto; try lra;
      vec_unfold; f_equal; lra.
  - rewrite E3. apply (signedAngleAt_aligned _ _ _ _ 3 2); auto; try lra;
      vec_unfold; f_equal; lra.
  - rewrite E2. apply (signedAngleAt_aligned _ _ _ _ 7 6); auto; try lra;
      vec_unfold; f_equal; lra.
Qed.

Lemma clamp_zero_step lo hi : lo <= 0 <= hi -> MathUtils.clamp (0 + 0 * 0.5) lo hi = 0.
Proof. intros H; replace (0 + 0 * 0.5) with 0 by ring. now apply clamp_id. Qed.

Lemma updateJoint_straightUp joints key :
  straightUp joints -> straightUp (updateJoint axialTarget key joints).
Proof.
  intros Hs. pose proof Hs as (H2 & H3 & H5). pose proof PI_RGT_0 as Hpi.
  unfold straightUp, updateJoint; cbv zeta.
  destruct key; cbn [setJoint j2 j3 j5 getJoint LIMITS Limit.min Limit.max];
    repeat split; try assumption.
  - rewrite (straightUp_signedAngle joints J2 Hs) by auto.
    rewrite H2; apply clamp_zero_step; lra.
  - rewrite (straightUp_signedAngle joints J3 Hs) by auto.
    rewrite H3; apply clamp_zero_step; lra.
  - rewrite (straightUp_signedAngle joints J5 Hs) by auto.
    rewrite H5; apply clamp_zero_step; lra.
Qed.

Lemma innerLoop_straightUp keys : forall joints,
  straightUp joints -> straightUp (innerLoop axialTarget keys joints).
Proof.
  induction keys as [|key rest IH]; intros joints Hs; cbn [innerLoop];
    [exact Hs|].
  destruct key; try (destruct (ltb _ _); [exact Hs|]);
    apply IH; try apply updateJoint_straightUp; exact Hs.
Qed.

Lemma outerLoop_straightUp passes : forall joints,
  straightUp joints -> straightUp (outerLoop axialTarget passes joints).
Proof.
  induction passes as [|n IH]; intros joints Hs; cbn [outerLoop]; [exact Hs|].
  apply IH, innerLoop_straightUp, Hs.
Qed.

Lemma solveRepeatedly_straightUp n joints :
  straightUp joints -> straightUp (solveRepeatedly axialTarget n joints).
Proof.
  intros Hs; induction n as [|n IH]; cbn [solveRepeatedly Nat.iter]; [exact Hs|].
  unfold solveIK; apply outerLoop_straightUp, IH.
Qed.

Lemma straightUp_tipDistance joints :
  straightUp joints -> tipDistance axialTarget joints = 1.
Proof.
  intros Hs. destruct (straightUp_chain joints Hs) as (Et & _).
  unfold tipDistance, axialTarget. rewrite Et, distanceTo_vertical; lra.
Qed.

(** *** The axial target is within reach *)

Lemma applyQuaternion_pitch len angle :
  Vector3.applyQuaternion (Vector3.mk 0 len 0) (setFromAxisAngle axisZ angle)
  = Vector3.mk (- len * sin angle) (len * cos angle) 0.
Proof.
  replace angle with (2 * (angle / 2)) at 2 3 by lra.
  rewrite sin_2a, cos_2a_sin.
  unfold setFromAxisAngle, axisZ, Vector3.applyQuaternion; cbn.
  f_equal; ring.
Qed.

Lemma cos_asin_ratio p q r :
  0 < r -> 0 <= q -> p * p + q * q = r * r -> 
  sin (asin (p / r)) = p / r /\ cos (asin (p / r)) = q / r
  /\ - PI / 2 <= asin (p / r) <= PI / 2.
Proof.
  intros Hr Hq Hpy.
  assert (Hb : -1 <= p / r <= 1).
  { assert (Hsq : (p / r) * (p / r) <= 1).
    { replace ((p / r) * (p / r)) with ((p * p) / (r * r)) by (field; lra).
      apply (Rmult_le_reg_r (r * r)); [nra|].
      replace (p * p / (r * r) * (r * r)) with (p * p) by (field; lra). nra. }
    split; nra. }
  split; [now apply sin_asin|]. split.
  - rewrite cos_asin by exact Hb.
    apply sqrt_lem_1.
    + unfold Rsqr; nra.
    + apply Rle_mult_inv_pos; assumption.
    + unfold Rsqr. field_simplify_eq; [|lra]. nra.
  - pose proof (asin_bound (p / r)). lra.
Qed.

Lemma reachingJoints_reach :
  withinLimits reachingJoints
  /\ endEffector (calculateChain reachingJoints) = axialTarget.
Proof.
  destruct (cos_asin_ratio 5 12 13) as (S2 & C2 & B2); try lra.
  destruct (cos_asin_ratio (-3) 4 5) as (S3 & C3 & B3); try lra.
  destruct (cos_asin_ratio (-120) 119 169) as (S5 & C5 & B5); try lra.
  pose proof PI_RGT_0 as Hpi.
  split.
  - intros key; unfold inLimit, reachingJoints.
    destruct key; cbn [getJoint LIMITS Limit.min Limit.max j1 j2 j3 j4 j5 j6]; lra.
  - unfold calculateChain, reachingJoints; cbv zeta.
    cbn [endEffector j1 j2 j3 j4 j5 j6].
    rewrite Ropp_0, !setFromAxisAngle_zero, !multiply_identity_r,
      !multiply_identity_l.
    rewrite <- !setFromAxisAngle_plus by apply axisZ_unit.
    rewrite !applyQuaternion_pitch, ?applyQuaternion_identity.
    repeat (rewrite sin_plus || rewrite cos_plus).
    rewrite S2, C2, S3, C3, S5, C5.
    unfold axialTarget, Vector3.add; cbn [Vector3.x Vector3.y Vector3.z].
    f_equal; lra.
Qed.

(** *** The claims on convergence *)

Lemma solveIK_at_target targetPosition joints iterations :
  tipDistance targetPosition joints < 0.01 ->
  solveIK targetPosition joints iterations = joints.
Proof.
  intros Hnear; unfold solveIK.
  induction (Z.to_nat iterations) as [|n IH]; cbn [outerLoop]; [reflexivity|].
  replace (innerLoop targetPosition jointKeys joints) with joints; [exact IH|].
  unfold jointKeys; cbn [innerLoop]. fold (tipDistance targetPosition joints).
  now rewrite (proj2 (ltb_spec _ _) Hnear).
Qed.

Lemma INITIAL_JOINTS_withinLimits : withinLimits INITIAL_JOINTS.
Proof.
  pose proof PI_RGT_0. intros key; unfold inLimit, INITIAL_JOINTS.
  destruct key; cbn [getJoint LIMITS Limit.min Limit.max j1 j2 j3 j4 j5 j6]; lra.
Qed.




(** ** The sequencer *)

Arguments solveIK : simpl never.
Arguments calculateChain : simpl never.
Arguments Vector3.distanceTo : simpl never.
Arguments Vector3.lerpVectors : simpl never.

Lemma find_none_iff {A} (f : A -> bool) (l : list A) :
  find f l = None <-> forall a, In a l -> f a = false.
Proof.
  split; [apply find_none|].
  induction l as [|a l IH]; intros H; simpl; [reflexivity|].
  rewrite (H a (or_introl eq_refl)). apply IH; intros b Hb; apply H; now right.
Qed.

Ltac world_cases :=
  repeat match goal with
         | |- context [match phase ?w with _ => _ end] => destruct (phase w) eqn:?
         | |- context [if ?c then _ else _] => destruct c eqn:?
         | |- context [match find ?f ?l with _ => _ end] => destruct (find f l) eqn:?
         | |- context [match ?t with Some _ => _ | None => _ end] => destruct t eqn:?
         end.

Lemma sequenceLogic_refs now w :
  boxes (sequenceLogic now w) = boxes w
  /\ heldBoxId (sequenceLogic now w) = heldBoxId w
  /\ prevGripperOpen (sequenceLogic now w) = prevGripperOpen w
  /\ joints (sequenceLogic now w) = joints w.
Proof.
  unfold sequenceLogic, phaseTransition, stationary.
  world_cases; repeat split; reflexivity.
Qed.

Lemma ikLogic_fields w0 w :
  boxes (ikLogic w0 w) = boxes w
  /\ heldBoxId (ikLogic w0 w) = heldBoxId w
  /\ prevGripperOpen (ikLogic w0 w) = prevGripperOpen w
  /\ gripperOpen (ikLogic w0 w) = gripperOpen w
  /\ phase (ikLogic w0 w) = phase w
  /\ completions (ikLogic w0 w) = completions w
  /\ phaseStartTime (ikLogic w0 w) = phaseStartTime w
  /\ startPos (ikLogic w0 w) = startPos w
  /\ endPos (ikLogic w0 w) = endPos w
  /\ ikTargetPos (ikLogic w0 w) = ikTargetPos w.
Proof. unfold ikLogic; world_cases; repeat split; reflexivity. Qed.

Lemma gripperLogic_fields tip w0 w :
  gripperOpen (gripperLogic tip w0 w) = gripperOpen w
  /\ phase (gripperLogic tip w0 w) = phase w
  /\ completions (gripperLogic tip w0 w) = completions w
  /\ phaseStartTime (gripperLogic tip w0 w) = phaseStartTime w
  /\ startPos (gripperLogic tip w0 w) = startPos w
  /\ endPos (gripperLogic tip w0 w) = endPos w
  /\ ikTargetPos (gripperLogic tip w0 w) = ikTargetPos w
  /\ joints (gripperLogic tip w0 w) = joints w.
Proof. unfold gripperLogic; world_cases; repeat split; reflexivity. Qed.

(** What a frame does to the phase and to the gripper flag is decided by the
    sequencer alone. *)
Lemma useFrame_phase now tip w :
  phase (useFrame now tip w) = phase (sequenceLogic now w).
Proof.
  unfold useFrame.
  destruct (gripperLogic_fields tip w (ikLogic w (sequenceLogic now w)))
    as (_ & -> & _).
  now destruct (ikLogic_fields w (sequenceLogic now w)) as (_ & _ & _ & _ & -> & _).
Qed.

Lemma useFrame_gripperOpen now tip w :
  gripperOpen (useFrame now tip w) = gripperOpen (sequenceLogic now w).
Proof.
  unfold useFrame.
  destruct (gripperLogic_fields tip w (ikLogic w (sequenceLogic now w)))
    as (-> & _).
  now destruct (ikLogic_fields w (sequenceLogic now w)) as (_ & _ & _ & -> & _).
Qed.

Lemma useFrame_phaseStartTime now tip w :
  phaseStartTime (useFrame now tip w) = phaseStartTime (sequenceLogic now w).
Proof.
  unfold useFrame.
  destruct (gripperLogic_fields tip w (ikLogic w (sequenceLogic now w)))
    as (_ & _ & _ & -> & _).
  now destruct (ikLogic_fields w (sequenceLogic now w))
    as (_ & _ & _ & _ & _ & _ & -> & _).
Qed.

Lemma useFrame_waypoints now tip w :
  startPos (useFrame now tip w) = startPos (sequenceLogic now w)
  /\ endPos (useFrame now tip w) = endPos (sequenceLogic now w).
Proof.
  unfold useFrame.
  destruct (gripperLogic_fields tip w (ikLogic w (sequenceLogic now w)))
    as (_ & _ & _ & _ & -> & -> & _).
  now destruct (ikLogic_fields w (sequenceLogic now w))
    as (_ & _ & _ & _ & _ & _ & _ & -> & -> & _).
Qed.

(** C6: when the trigger fires and no object has [x > 0], the completion
    callback is called once, the phase, the target object, the waypoints
    and the gripper flag are left as they were (an idle sequencer stays in
    IDLE and APPROACH is not entered), and running the effect again calls
    nothing. *)
Theorem trigger_without_object :
  forall (now : Z) (w : World),
    (lastTrigger w < runSequenceTrigger w)%Z ->
    (forall b, In b (boxes w) -> ~ position0 b > 0) ->
    let w' := triggerEffect now w in
    completions w' = S (completions w)
    /\ phase w' = phase w
    /\ (phase w = IDLE -> phase w' = IDLE /\ phase w' <> APPROACH)
    /\ targetBoxId w' = targetBoxId w
    /\ startPos w' = startPos w
    /\ endPos w' = endPos w
    /\ phaseStartTime w' = phaseStartTime w
    /\ gripperOpen w' = gripperOpen w
    /\ (forall now', triggerEffect now' w' = w').
Proof.
  intros now w Hfire Hnone w'.
  assert (E : w' = onSequenceComplete (setLastTrigger (runSequenceTrigger w) w)).
  { unfold w', triggerEffect.
    apply Z.ltb_lt in Hfire; rewrite Hfire.
    replace (find _ _) with (@None SceneObject); [reflexivity|].
    symmetry; apply find_none_iff; intros b Hb.
    apply gtb_false. specialize (Hnone b Hb). lra. }
  rewrite E; clear E w'.
  split; [reflexivity|]. split; [reflexivity|].
  split; [intros Hp; cbn; rewrite Hp; split; [reflexivity|discriminate]|].
  repeat (split; [reflexivity|]).
  intros now'; unfold triggerEffect; cbn [lastTrigger runSequenceTrigger
    onSequenceComplete setLastTrigger].
  now rewrite Z.ltb_irrefl.
Qed.

Lemma trigger_without_object_witness :
  let w := handleRunSequence (initialWorld []) in
  phase w = IDLE
  /\ completions (triggerEffect 0 w) = 1%nat
  /\ phase (triggerEffect 0 w) = IDLE.
Proof.
  intros w.
  assert (Hfire : (lastTrigger w < runSequenceTrigger w)%Z) by (simpl; lia).
  assert (Hnone : forall b, In b (boxes w) -> ~ position0 b > 0)
    by (intros b Hb; destruct Hb).
  destruct (trigger_without_object 0 w Hfire Hnone) as (Hc & Hp & _).
  split; [reflexivity|]. split; [exact Hc | exact Hp].
Defined.

(** The gripper flag along a run *)

Lemma sequenceLogic_gripperOpen now w :
  gripperOpen (sequenceLogic now w)
  = match phase w with
    | DESCEND_PICK => if arrived now w then false else gripperOpen w
    | DESCEND_DROP => if arrived now w then true else gripperOpen w
    | _ => gripperOpen w
    end.
Proof.
  unfold sequenceLogic, phaseTransition, stationary, arrived.
  world_cases; try reflexivity; try discriminate.
Qed.

Lemma sequenceLogic_keeps_flag_in_step now w :
  gripperOpen w = negb (gripperClosedPhase (phase w)) ->
  gripperOpen (sequenceLogic now w)
  = negb (gripperClosedPhase (phase (sequenceLogic now w))).
Proof.
  intros H; unfold sequenceLogic, phaseTransition.
  destruct (phase w) eqn:Hp; cbn [stationary gripperClosedPhase negb] in *;
    world_cases;
    cbn [phase gripperOpen setPhase setPhaseStartTime setStartPos setEndPos
         setGripperOpen setIkTargetPos onSequenceComplete
         gripperClosedPhase negb];
    rewrite ?Hp; cbn [gripperClosedPhase negb]; congruence.
Qed.

Lemma frames_keep_flag_in_step inputs : forall w,
  gripperOpen w = negb (gripperClosedPhase (phase w)) ->
  gripperOpen (frames inputs w)
  = negb (gripperClosedPhase (phase (frames inputs w))).
Proof.
  unfold frames.
  induction inputs as [|i inputs IH]; intros w H; cbn [fold_left]; [exact H|].
  apply IH. rewrite useFrame_phase, useFrame_gripperOpen.
  now apply sequenceLogic_keeps_flag_in_step.
Qed.

Lemma triggerEffect_found now w :
  triggerFires w = true ->
  existsb inPickRegion (boxes w) = true ->
  phase (triggerEffect now w) = APPROACH
  /\ gripperOpen (triggerEffect now w) = true.
Proof.
  unfold triggerFires, triggerEffect; intros -> Hex.
  cbn [boxes setLastTrigger].
  destruct (find _ _) eqn:E; [split; reflexivity|].
  apply existsb_exists in Hex as (b & Hb & Hx).
  pose proof (find_none _ _ E b Hb) as Hn. unfold inPickRegion in Hx.
  cbv beta in Hn. congruence.
Qed.

(** C4 (as amended): the sequencer writes the gripper flag at three places
    only: the trigger sets it open when an object is found, GRIP entry sets
    it closed and RELEASE entry sets it open; no other step writes it.
    Along a run started by a trigger that finds an object the flag is
    false exactly in the phases from GRIP entry up to RELEASE entry. *)
Theorem sequencer_gripper_writes :
  (forall now w,
      gripperOpen (triggerEffect now w)
      = if triggerFires w && existsb inPickRegion (boxes w)
        then true else gripperOpen w)
  /\ (forall now tip w,
         gripperOpen (useFrame now tip w)
         = match phase w with
           | DESCEND_PICK => if arrived now w then false else gripperOpen w
           | DESCEND_DROP => if arrived now w then true else gripperOpen w
           | _ => gripperOpen w
           end)
  /\ (forall now tip w,
         phase w = DESCEND_PICK -> arrived now w = true ->
         phase (useFrame now tip w) = GRIP)
  /\ (forall now tip w,
         phase w = DESCEND_DROP -> arrived now w = true ->
         phase (useFrame now tip w) = RELEASE)
  /\ (forall now w inputs,
         triggerFires w = true ->
         existsb inPickRegion (boxes w) = true ->
         let w' := frames inputs (triggerEffect now w) in
         gripperOpen w' = negb (gripperClosedPhase (phase w'))).
Proof.
  repeat split.
  - intros now w; unfold triggerEffect, triggerFires.
    destruct (Z.ltb _ _); [|reflexivity]. cbn [andb boxes setLastTrigger].
    destruct (find _ _) eqn:E.
    + apply find_some in E as [Hin Hx].
      replace (existsb _ _) with true; [reflexivity|].
      symmetry; apply existsb_exists; eauto.
    + replace (existsb _ _) with false; [reflexivity|].
      symmetry; apply not_true_is_false; intros Hex.
      apply existsb_exists in Hex as (b & Hb & Hx).
      pose proof (find_none _ _ E b Hb) as Hn; cbv beta in Hn.
      unfold inPickRegion in Hx; congruence.
  - intros now tip w; rewrite useFrame_gripperOpen.
    apply sequenceLogic_gripperOpen.
  - intros now tip w Hp Ha; rewrite useFrame_phase.
    unfold sequenceLogic, phaseTransition, arrived in *; rewrite Hp, Ha.
    reflexivity.
  - intros now tip w Hp Ha; rewrite useFrame_phase.
    unfold sequenceLogic, phaseTransition, arrived in *; rewrite Hp, Ha.
    reflexivity.
  - intros now w inputs Hfire Hex w'; unfold w'.
    apply frames_keep_flag_in_step.
    destruct (triggerEffect_found now w Hfire Hex) as [-> ->]; reflexivity.
Qed.

Ltac eval_cmp :=
  repeat match goal with
         | |- context [gtb ?a ?b] => unfold gtb
         | |- context [ltb ?a ?b] =>
             first [ rewrite (proj2 (ltb_spec a b)) by lra
                   | rewrite (proj2 (ltb_false a b)) by lra ]
         | |- context [geb ?a ?b] =>
             first [ rewrite (proj2 (geb_spec a b)) by lra
                   | rewrite (proj2 (geb_false a b)) by lra ]
         end.

Lemma initialBoxes_in_pick_region :
  find (fun b => gtb (position0 b) 0) initialBoxes
  = Some (mkObject "1" (4, BOX_SIZE / 2, 0) "#ef4444" box).
Proof. unfold initialBoxes; cbn [find position0 position fst snd]; now eval_cmp. Qed.

Lemma sequencer_gripper_writes_witness :
  let w := handleRunSequence (initialWorld initialBoxes) in
  let w' := frames [(16%Z, Some (Vector3.mk 0 8.1 0))] (triggerEffect 0 w) in
  triggerFires w = true
  /\ existsb inPickRegion (boxes w) = true
  /\ gripperOpen w' = negb (gripperClosedPhase (phase w')).
Proof.
  intros w w'.
  assert (Hfire : triggerFires w = true) by reflexivity.
  assert (Hex : existsb inPickRegion (boxes w) = true).
  { apply existsb_exists.
    exists (mkObject "1" (4, BOX_SIZE / 2, 0) "#ef4444" box).
    split; [left; reflexivity|].
    unfold inPickRegion; cbn [position0 position fst snd]; now eval_cmp. }
  destruct sequencer_gripper_writes as (_ & _ & _ & _ & H).
  split; [exact Hfire|]. split; [exact Hex|].
  exact (H 0%Z w [(16%Z, Some (Vector3.mk 0 8.1 0))] Hfire Hex).
Defined.

(** C4 (as stated) fails: when the gripper is closed and the trigger finds
    an object, the step from IDLE to APPROACH sets the flag open. *)
Lemma sequencer_gripper_counterexample :
  phase closedGripperWorld = IDLE
  /\ gripperOpen closedGripperWorld = false
  /\ phase (triggerEffect 0 closedGripperWorld) = APPROACH
  /\ gripperOpen (triggerEffect 0 closedGripperWorld) = true
  /\ gripperOpen (triggerEffect 0 closedGripperWorld)
     <> gripperOpen closedGripperWorld.
Proof.
  unfold triggerEffect, closedGripperWorld.
  cbn [lastTrigger runSequenceTrigger handleRunSequence setGripperOpen
       initialWorld boxes setLastTrigger Z.ltb Z.add Z.compare Pos.compare
       Pos.compare_cont Pos.add].
  rewrite initialBoxes_in_pick_region.
  repeat split; discriminate.
Qed.

(** ** The grasp and drop tracker *)

Lemma map_fall_at_rest (l : list SceneObject) :
  existsb airborne l = false -> map fall l = l.
Proof.
  induction l as [|b l IH]; simpl; [reflexivity|].
  intros H; apply orb_false_iff in H as [Hb Hl].
  unfold fall at 1; rewrite Hb, IH by assumption; reflexivity.
Qed.

Lemma gravity_update (l : list SceneObject) :
  (if existsb airborne l then map fall l else l) = map fall l.
Proof.
  destruct (existsb airborne l) eqn:E; [reflexivity|].
  symmetry; now apply map_fall_at_rest.
Qed.

(** The held id after the grab and release tests of a frame. *)
Lemma useFrame_heldBoxId now p w :
  heldBoxId (useFrame now (Some p) w)
  = if prevGripperOpen w && negb (gripperOpen w) then
      if truthy (fst (grabScan (gripReference p) (boxes w)))
      then fst (grabScan (gripReference p) (boxes w))
      else heldBoxId w
    else if negb (prevGripperOpen w) && gripperOpen w then None
    else heldBoxId w.
Proof.
  unfold useFrame.
  destruct (sequenceLogic_refs now w) as (Hb & Hh & Hp & _).
  destruct (ikLogic_fields w (sequenceLogic now w)) as (_ & Hh' & Hp' & _).
  rewrite Hh in Hh'; rewrite Hp in Hp'.
  generalize dependent (ikLogic w (sequenceLogic now w)); intros v Hh' Hp'.
  unfold gripperLogic; cbv zeta. rewrite Hp'.
  destruct (prevGripperOpen w), (gripperOpen w); cbn [andb negb];
    try (destruct (truthy (fst _)));
    cbn [prevGripperOpen setHeldBoxId andb negb heldBoxId];
    rewrite ?Hp'; cbn [andb negb];
    destruct (truthy _); cbn; congruence.
Qed.

(** The objects after the physics update of a frame. *)
Lemma useFrame_boxes now p w :
  boxes (useFrame now (Some p) w)
  = if truthy (heldBoxId (useFrame now (Some p) w))
    then map (carry (heldBoxId (useFrame now (Some p) w)) (gripReference p))
             (boxes w)
    else map fall (boxes w).
Proof.
  unfold useFrame.
  destruct (sequenceLogic_refs now w) as (Hb & _).
  destruct (ikLogic_fields w (sequenceLogic now w)) as (Hb' & _).
  rewrite Hb in Hb'.
  generalize dependent (ikLogic w (sequenceLogic now w)); intros v Hb'.
  unfold gripperLogic; cbv zeta.
  set (v1 := if prevGripperOpen v && negb (gripperOpen w) then _ else v).
  set (v2 := if negb (prevGripperOpen v1) && gripperOpen w then _ else v1).
  assert (Hb2 : boxes v2 = boxes w).
  { unfold v2, v1.
    repeat match goal with
           | |- context [if ?c then _ else _] => destruct c
           end; cbn; exact Hb'. }
  destruct (truthy (heldBoxId v2)) eqn:Ht;
    cbn [heldBoxId setPrevGripperOpen setBoxes boxes]; rewrite Ht, Hb2.
  - reflexivity.
  - apply gravity_update.
Qed.

Lemma useFrame_prevGripperOpen now p w :
  prevGripperOpen (useFrame now (Some p) w) = gripperOpen w.
Proof.
  unfold useFrame, gripperLogic; cbv zeta.
  repeat match goal with
         | |- context [if ?c then _ else _] => destruct c
         end; reflexivity.
Qed.

(** The grab loop keeps the first object at the least distance below the
    running threshold. *)
Lemma grabScan_acc tipPos bs : forall c m,
  let r := fold_left (grabStep tipPos) bs (c, m) in
  (forall b, In b bs -> snd r <= grabDistance tipPos b)
  /\ ((r = (c, m) /\ forall b, In b bs -> m <= grabDistance tipPos b)
      \/ exists b, In b bs /\ fst r = Some (id b)
                   /\ snd r = grabDistance tipPos b /\ snd r < m).
Proof.
  induction bs as [|a bs IH]; intros c m; cbn [fold_left].
  - split; [intros b []|]. left; split; [reflexivity|intros b []].
  - unfold grabStep at 2 4 6 8 10; cbn [snd].
    destruct (ltb (grabDistance tipPos a) m) eqn:E.
    + apply ltb_spec in E.
      specialize (IH (Some (id a)) (grabDistance tipPos a)); cbv zeta in IH.
      set (r := fold_left _ _ _) in *.
      destruct IH as [Hmin Hcase]. split.
      * intros b [<-|Hb]; [|now apply Hmin].
        destruct Hcase as [[Hr _]|(b & _ & _ & _ & Hlt)];
          [rewrite Hr; cbn [snd]|]; lra.
      * right. destruct Hcase as [[Hr Hall]|(b & Hb & Hid & Hd & Hlt)].
        -- exists a; rewrite Hr; cbn [fst snd].
           split; [now left|]. repeat split; auto.
        -- exists b. split; [now right|]. repeat split; auto; lra.
    + apply ltb_false in E.
      specialize (IH c m); cbv zeta in IH.
      set (r := fold_left _ _ _) in *.
      destruct IH as [Hmin Hcase]. split.
      * intros b [<-|Hb]; [|now apply Hmin].
        destruct Hcase as [[Hr _]|(b & _ & _ & _ & Hlt)];
          [rewrite Hr; cbn [snd]|]; lra.
      * destruct Hcase as [[Hr Hall]|(b & Hb & Hid & Hd & Hlt)].
        -- left; split; [exact Hr|]. intros b [<-|Hb]; auto.
        -- right; exists b. split; [now right|]. repeat split; auto.
Qed.

Lemma grabScan_spec tipPos bs :
  (exists b, In b bs /\ fst (grabScan tipPos bs) = Some (id b)
             /\ grabDistance tipPos b < 1.2
             /\ forall b', In b' bs -> grabDistance tipPos b <= grabDistance tipPos b')
  \/ (fst (grabScan tipPos bs) = None
      /\ forall b, In b bs -> 1.2 <= grabDistance tipPos b).
Proof.
  destruct (grabScan_acc tipPos bs None 1.2) as [Hmin Hcase].
  fold (grabScan tipPos bs) in *.
  destruct Hcase as [[E Hall]|(b & Hb & Hid & Hd & Hlt)].
  - right; rewrite E; split; [reflexivity|exact Hall].
  - left; exists b; repeat split; auto; [lra|].
    intros b' Hb'; rewrite <- Hd; now apply Hmin.
Qed.

Lemma truthy_nonempty (s : string) : s <> EmptyString -> truthy (Some s) = true.
Proof. destruct s; [congruence|reflexivity]. Qed.

Lemma map_id_carry held g l : map id (map (carry held g) l) = map id l.
Proof.
  rewrite map_map; apply map_ext; intros b; unfold carry.
  destruct (idIs held b); reflexivity.
Qed.

Lemma map_id_fall l : map id (map fall l) = map id l.
Proof.
  rewrite map_map; apply map_ext; intros b; unfold fall.
  destruct (airborne b); reflexivity.
Qed.

Lemma useFrame_ids now p w :
  map id (boxes (useFrame now (Some p) w)) = map id (boxes w).
Proof.
  rewrite useFrame_boxes; destruct (truthy _);
    [apply map_id_carry | apply map_id_fall].
Qed.

Lemma NoDup_ids_unique (l : list SceneObject) :
  NoDup (map id l) ->
  forall b1 b2, In b1 l -> In b2 l -> id b1 = id b2 -> b1 = b2.
Proof.
  induction l as [|a l IH]; intros Hnd b1 b2 H1 H2 Hid; [destruct H1|].
  inversion Hnd as [|? ? Hnotin Hnd']; subst.
  destruct H1 as [<-|H1], H2 as [<-|H2].
  - reflexivity.
  - exfalso; apply Hnotin; rewrite Hid; now apply in_map.
  - exfalso; apply Hnotin; rewrite <- Hid; now apply in_map.
  - now apply IH.
Qed.

Lemma idIs_eq held b1 b2 :
  idIs held b1 = true -> idIs held b2 = true -> id b1 = id b2.
Proof.
  destruct held as [s|]; simpl; [|discriminate].
  intros H1 H2; apply String.eqb_eq in H1, H2; congruence.
Qed.

(** C7: on a frame that sees the flag go from open to closed, either every
    object is at distance 1.2 or more from the gripper reference point (the
    tip lowered by 0.2) and the held mark is left as it was, or the scan
    finds an object at the least distance, which is strictly below 1.2.
    That object is marked as held when its id is a non-empty string; when
    its id is the empty string the mark is left as it was, the mark being
    written under a test for truthiness.  So a lone object at distance 0.5
    becomes held unless its id is empty, a lone object at distance 2.0 does
    not, and with distinct ids at most one object of the scene is held. *)
Theorem grab_marks_closest_unless_id_empty :
  forall (now : Z) (p : Vector3.t) (w : World),
    prevGripperOpen w = true ->
    gripperOpen w = false ->
    let g := gripReference p in
    let w' := useFrame now (Some p) w in
    ((exists b, In b (boxes w)
                /\ grabDistance g b < 1.2
                /\ (forall b', In b' (boxes w) ->
                               grabDistance g b <= grabDistance g b')
                /\ (id b <> EmptyString -> heldBoxId w' = Some (id b))
                /\ (id b = EmptyString -> heldBoxId w' = heldBoxId w))
     \/ (heldBoxId w' = heldBoxId w
         /\ forall b, In b (boxes w) -> 1.2 <= grabDistance g b))
    /\ (forall b, boxes w = [b] -> grabDistance g b = 0.5 ->
                  id b <> EmptyString -> heldBoxId w' = Some (id b))
    /\ (forall b, boxes w = [b] -> grabDistance g b = 0.5 ->
                  id b = EmptyString -> heldBoxId w' = heldBoxId w)
    /\ (forall b, boxes w = [b] -> grabDistance g b = 2.0 ->
                  heldBoxId w' = heldBoxId w)
    /\ (NoDup (map id (boxes w)) ->
        forall b1 b2, In b1 (boxes w') -> In b2 (boxes w') ->
                      isHeld w' b1 -> isHeld w' b2 -> b1 = b2).
Proof.
  intros now p w Hprev Hclosed g w'.
  assert (Hheld : heldBoxId w'
                  = if truthy (fst (grabScan g (boxes w)))
                    then fst (grabScan g (boxes w)) else heldBoxId w).
  { unfold w'; rewrite useFrame_heldBoxId, Hprev, Hclosed; reflexivity. }
  assert (Hmain :
    (exists b, In b (boxes w)
               /\ grabDistance g b < 1.2
               /\ (forall b', In b' (boxes w) ->
                              grabDistance g b <= grabDistance g b')
               /\ (id b <> EmptyString -> heldBoxId w' = Some (id b))
               /\ (id b = EmptyString -> heldBoxId w' = heldBoxId w))
    \/ (heldBoxId w' = heldBoxId w
        /\ forall b, In b (boxes w) -> 1.2 <= grabDistance g b)).
  { destruct (grabScan_spec g (boxes w))
      as [(b & Hb & Hid & Hlt & Hmin)|[Hnone Hall]].
    - left; exists b; repeat split; auto.
      + intros Hne. rewrite Hheld, Hid, truthy_nonempty; auto.
      + intros He. rewrite Hheld, Hid, He. reflexivity.
    - right; split; [|exact Hall]. rewrite Hheld, Hnone; reflexivity. }
  split; [exact Hmain|]. repeat split.
  - intros b Hb Hd Hne.
    destruct Hmain as [(b' & Hb' & Hlt & _ & Hid & _)|[_ Hall]].
    + rewrite Hb in Hb'; destruct Hb' as [<-|[]]; auto.
    + specialize (Hall b); rewrite Hb in Hall.
      specialize (Hall (or_introl eq_refl)); lra.
  - intros b Hb Hd He.
    destruct Hmain as [(b' & Hb' & Hlt & _ & _ & Hid)|[Hsame _]].
    + rewrite Hb in Hb'; destruct Hb' as [<-|[]]; auto.
    + exact Hsame.
  - intros b Hb Hd. destruct Hmain as [(b' & Hb' & Hlt & _)|[Hsame _]].
    + rewrite Hb in Hb'; destruct Hb' as [<-|[]]; lra.
    + exact Hsame.
  - intros Hnd b1 b2 H1 H2 [_ Hh1] [_ Hh2].
    apply (NoDup_ids_unique (boxes w')); auto.
    + unfold w'; rewrite useFrame_ids; exact Hnd.
    + now apply (idIs_eq (heldBoxId w')).
Qed.

Lemma grab_marks_closest_unless_id_empty_witness :
  grabDistance (gripReference (Vector3.mk 4 1.1 0)) namelessBox = 0.5
  /\ heldBoxId namelessWorld = None
  /\ heldBoxId (useFrame 0 (Some (Vector3.mk 4 1.1 0)) namelessWorld) = None
  /\ grabDistance (gripReference (Vector3.mk 4 1.1 0)) loneBox = 0.5
  /\ heldBoxId (useFrame 0 (Some (Vector3.mk 4 1.1 0)) closingWorld)
     = Some "1"%string
  /\ grabDistance (gripReference (Vector3.mk 4 2.6 0)) loneBox = 2.0
  /\ heldBoxId (useFrame 0 (Some (Vector3.mk 4 2.6 0)) closingWorld) = None.
Proof.
  assert (D0 : grabDistance (gripReference (Vector3.mk 4 1.1 0)) namelessBox
               = 0.5).
  { unfold grabDistance, gripReference, namelessBox, position0, position1,
      position2, BOX_SIZE; cbn [position fst snd Vector3.x Vector3.y Vector3.z].
    rewrite distanceTo_vertical; lra. }
  assert (D1 : grabDistance (gripReference (Vector3.mk 4 1.1 0)) loneBox = 0.5).
  { unfold grabDistance, gripReference, loneBox, position0, position1,
      position2, BOX_SIZE; cbn [position fst snd Vector3.x Vector3.y Vector3.z].
    rewrite distanceTo_vertical; lra. }
  assert (D2 : grabDistance (gripReference (Vector3.mk 4 2.6 0)) loneBox = 2.0).
  { unfold grabDistance, gripReference, loneBox, position0, position1,
      position2, BOX_SIZE; cbn [position fst snd Vector3.x Vector3.y Vector3.z].
    rewrite distanceTo_vertical; lra. }
  destruct (grab_marks_closest_unless_id_empty 0 (Vector3.mk 4 1.1 0)
              namelessWorld eq_refl eq_refl) as (_ & _ & H0 & _).
  destruct (grab_marks_closest_unless_id_empty 0 (Vector3.mk 4 1.1 0)
              closingWorld eq_refl eq_refl) as (_ & H1 & _).
  destruct (grab_marks_closest_unless_id_empty 0 (Vector3.mk 4 2.6 0)
              closingWorld eq_refl eq_refl) as (_ & _ & _ & H2 & _).
  split; [exact D0|]. split; [reflexivity|].
  split; [exact (H0 namelessBox eq_refl D0 eq_refl)|].
  split; [exact D1|].
  split; [refine (H1 loneBox eq_refl D1 _); discriminate|].
  split; [exact D2|]. exact (H2 loneBox eq_refl D2).
Defined.

(** *** Gravity *)

Lemma fall_airborne (b : SceneObject) :
  position1 b > groundOffset b + 0.01 ->
  fall b = mkObject (id b)
             (position0 b, Rmax (groundOffset b) (position1 b - 0.2), position2 b)
             (color b) (shape b).
Proof.
  intros H; unfold fall, airborne. now rewrite (proj2 (gtb_spec _ _) H).
Qed.

Lemma fall_at_rest (b : SceneObject) :
  position1 b <= groundOffset b + 0.01 -> fall b = b.
Proof.
  intros H; unfold fall, airborne. now rewrite (proj2 (gtb_false _ _) H).
Qed.

(** A box [k] steps of 0.2 above its resting height is one step lower after
    a tick. *)
Lemma fall_box_step (b : SceneObject) (k : nat) :
  shape b = box -> position1 b = 0.4 + 0.2 * INR k ->
  shape (fall b) = box /\ position1 (fall b) = 0.4 + 0.2 * INR (pred k).
Proof.
  intros Hs Hy.
  assert (Hg : groundOffset b = 0.4) by (unfold groundOffset, BOX_SIZE; rewrite Hs; lra).
  destruct k as [|k].
  - rewrite fall_at_rest; [split; [exact Hs|]|]; simpl in *; lra.
  - pose proof (pos_INR k) as Hk. rewrite S_INR in Hy.
    rewrite fall_airborne by lra. split; [exact Hs|].
    unfold position1 at 1; cbn [position fst snd pred].
    rewrite Hg, Rmax_right; lra.
Qed.

Lemma fall_box_iter (b : SceneObject) (k n : nat) :
  shape b = box -> position1 b = 0.4 + 0.2 * INR k ->
  shape (Nat.iter n fall b) = box
  /\ position1 (Nat.iter n fall b) = 0.4 + 0.2 * INR (k - n).
Proof.
  intros Hs Hy; induction n as [|n [IHs IHy]]; cbn [Nat.iter].
  - rewrite Nat.sub_0_r; auto.
  - replace (k - S n)%nat with (pred (k - n)) by lia.
    now apply fall_box_step.
Qed.

Lemma useFrame_idle_open now tip w :
  phase w = IDLE -> gripperOpen w = true -> heldBoxId w = None ->
  phase (useFrame now tip w) = IDLE
  /\ gripperOpen (useFrame now tip w) = true
  /\ heldBoxId (useFrame now tip w) = None.
Proof.
  intros Hp Hg Hh.
  rewrite useFrame_phase, useFrame_gripperOpen.
  unfold sequenceLogic at 1 2; rewrite Hp. repeat split; auto.
  destruct tip as [p|].
  - rewrite useFrame_heldBoxId, Hg, Hh.
    destruct (prevGripperOpen w); reflexivity.
  - unfold useFrame, gripperLogic.
    destruct (ikLogic_fields w (sequenceLogic now w)) as (_ & -> & _).
    now destruct (sequenceLogic_refs now w) as (_ & -> & _).
Qed.

Lemma useFrame_no_tip now w :
  boxes (useFrame now None w) = boxes w
  /\ heldBoxId (useFrame now None w) = heldBoxId w
  /\ prevGripperOpen (useFrame now None w) = prevGripperOpen w.
Proof.
  unfold useFrame, gripperLogic.
  destruct (ikLogic_fields w (sequenceLogic now w)) as (-> & -> & -> & _).
  destruct (sequenceLogic_refs now w) as (-> & -> & -> & _).
  repeat split.
Qed.

Lemma frames_idle_any inputs : forall w,
  phase w = IDLE -> gripperOpen w = true -> heldBoxId w = None ->
  boxes (frames inputs w) = map (Nat.iter (liveCount inputs) fall) (boxes w).
Proof.
  unfold frames, liveCount.
  induction inputs as [|[now [p|]] inputs IH]; intros w Hp Hg Hh;
    cbn [fold_left filter snd fst List.length].
  - change (Nat.iter 0 fall) with (fun b : SceneObject => b).
    now rewrite map_id.
  - destruct (useFrame_idle_open now (Some p) w Hp Hg Hh) as (Hp' & Hg' & Hh').
    rewrite IH by assumption.
    rewrite useFrame_boxes, Hh'; cbn [truthy].
    rewrite map_map. apply map_ext; intros b.
    symmetry; apply Nat.iter_succ_r.
  - destruct (useFrame_idle_open now None w Hp Hg Hh) as (Hp' & Hg' & Hh').
    rewrite IH by assumption.
    now destruct (useFrame_no_tip now w) as (-> & _).
Qed.

(** C8 (as amended): on a frame whose tip reference is set and after whose
    grab and release tests no object is held, every object higher than its
    resting height (0.4 for a box or a cylinder, 0.8 / 1.5 for a sphere) by
    more than 0.01 gets the height [max(rest, y - 0.2)], which is [y - 0.2]
    unless that undershoots the resting height, and every other object is
    left as it is; a frame whose tip reference is not set leaves every
    object as it is.  Over a run of idle frames with the gripper open, of
    which [n] have the tip reference set, a box released at height 3 is
    within the rounding margin of [3 - 0.2 n] while [n <= 13], at 0.4 once
    [n] is 13, and does not change afterwards. *)
Theorem gravity_without_held_object :
  forall (now : Z) (p : Vector3.t) (w : World),
    truthy (heldBoxId (useFrame now (Some p) w)) = false ->
    boxes (useFrame now (Some p) w) = map fall (boxes w)
    /\ boxes (useFrame now None w) = boxes w
    /\ (forall b, groundOffset b
                  = match shape b with
                    | sphere => BOX_SIZE / 1.5
                    | _ => 0.4
                    end)
    /\ (forall b, position1 b > groundOffset b + 0.01 ->
                  position1 (fall b) = Rmax (groundOffset b) (position1 b - 0.2)
                  /\ groundOffset b <= position1 (fall b)
                  /\ (groundOffset b <= position1 b - 0.2 ->
                      position1 (fall b) = position1 b - 0.2)
                  /\ position0 (fall b) = position0 b
                  /\ position2 (fall b) = position2 b
                  /\ id (fall b) = id b
                  /\ shape (fall b) = shape b)
    /\ (forall b, position1 b <= groundOffset b + 0.01 -> fall b = b)
    /\ (forall inputs w0,
           phase w0 = IDLE -> gripperOpen w0 = true -> heldBoxId w0 = None ->
           boxes (frames inputs w0)
           = map (Nat.iter (liveCount inputs) fall) (boxes w0))
    /\ (forall b n,
           shape b = box -> position1 b = 3 ->
           ((n <= 13)%nat ->
            3 - 0.2 * INR n - rounding
            <= position1 (Nat.iter n fall b)
            <= 3 - 0.2 * INR n + rounding)
           /\ ((13 <= n)%nat -> position1 (Nat.iter n fall b) = 0.4)
           /\ ((13 <= n)%nat -> Nat.iter (S n) fall b = Nat.iter n fall b)).
Proof.
  intros now p w Hfree.
  split; [rewrite useFrame_boxes, Hfree; reflexivity|].
  split; [apply useFrame_no_tip|].
  split.
  { intros b; unfold groundOffset, BOX_SIZE; destruct (shape b); lra. }
  split.
  { intros b Hb. rewrite (fall_airborne b Hb).
    unfold position0, position1, position2; cbn [position fst snd id shape].
    repeat split.
    - apply Rmax_l.
    - intros Hle; apply Rmax_right; exact Hle. }
  split; [exact fall_at_rest|].
  split; [exact frames_idle_any|].
  intros b n Hs Hy.
  assert (Hy' : position1 b = 0.4 + 0.2 * INR 13) by (rewrite Hy; simpl; lra).
  destruct (fall_box_iter b 13 n Hs Hy') as [Hsn Hyn].
  split; [|split].
  - intros Hn; rewrite Hyn, minus_INR by exact Hn.
    unfold rounding; simpl; lra.
  - intros Hn; rewrite Hyn. replace (13 - n)%nat with 0%nat by lia. simpl; lra.
  - intros Hn; cbn [Nat.iter]. apply fall_at_rest.
    rewrite Hyn. replace (13 - n)%nat with 0%nat by lia.
    unfold groundOffset, BOX_SIZE; rewrite Hsn. simpl; lra.
Qed.

Lemma gravity_without_held_object_witness :
  truthy (heldBoxId (useFrame 16 (Some (Vector3.mk 0 8.1 0)) releasedWorld)) = false
  /\ boxes (useFrame 16 (Some (Vector3.mk 0 8.1 0)) releasedWorld)
     = map fall (boxes releasedWorld)
  /\ position1 (Nat.iter 13 fall airborneBox) = 0.4.
Proof.
  assert (Hfree : truthy (heldBoxId (useFrame 16 (Some (Vector3.mk 0 8.1 0))
                                       releasedWorld)) = false).
  { rewrite useFrame_heldBoxId; reflexivity. }
  destruct (gravity_without_held_object 16 (Vector3.mk 0 8.1 0) releasedWorld Hfree)
    as (Hb & _ & _ & _ & _ & _ & Hbox).
  split; [exact Hfree|]. split; [exact Hb|].
  destruct (Hbox airborneBox 13%nat eq_refl eq_refl) as (_ & H13 & _).
  exact (H13 (le_n 13)).
Defined.

(** C8 (as stated) fails: on a frame whose tip reference is not set
    nothing is held, the box at height 3 is more than 0.01 above its
    resting height 0.4, and the frame leaves it at height 3. *)
Lemma gravity_skipped_without_tip :
  heldBoxId releasedWorld = None
  /\ heldBoxId (useFrame 16 None releasedWorld) = None
  /\ position1 airborneBox = 3
  /\ position1 airborneBox > groundOffset airborneBox + 0.01
  /\ boxes (useFrame 16 None releasedWorld) = [airborneBox].
Proof.
  destruct (useFrame_no_tip 16 releasedWorld) as (Hb & Hh & _).
  split; [reflexivity|]. split; [rewrite Hh; reflexivity|].
  split; [reflexivity|].
  split; [unfold position1, groundOffset, airborneBox, BOX_SIZE;
          cbn [position fst snd shape]; lra|].
  rewrite Hb; reflexivity.
Qed.

(** *** Held objects *)

Lemma carry_other held g b : idIs held b = false -> carry held g b = b.
Proof. intros H; unfold carry; now rewrite H. Qed.

Lemma closed_frames_keep_others inputs : forall w n b,
  truthy (heldBoxId w) = true ->
  prevGripperOpen w = false ->
  closedThroughout inputs w ->
  nth_error (boxes w) n = Some b ->
  idIs (heldBoxId w) b = false ->
  heldBoxId (frames inputs w) = heldBoxId w
  /\ nth_error (boxes (frames inputs w)) n = Some b.
Proof.
  unfold frames.
  induction inputs as [|[now tip] inputs IH];
    intros w n b Hheld Hprev Hclosed Hn Hb;
    cbn [fold_left fst snd]; [split; [reflexivity|exact Hn]|].
  destruct Hclosed as [Hg Hrest]; cbn [fst snd] in Hrest.
  assert (Hh : heldBoxId (useFrame now tip w) = heldBoxId w).
  { destruct tip as [p|]; [|apply useFrame_no_tip].
    rewrite useFrame_heldBoxId, Hprev, Hg; reflexivity. }
  assert (Hp : prevGripperOpen (useFrame now tip w) = false).
  { destruct tip as [p|]; [rewrite useFrame_prevGripperOpen; exact Hg|].
    destruct (useFrame_no_tip now w) as (_ & _ & ->); exact Hprev. }
  assert (Hn' : nth_error (boxes (useFrame now tip w)) n = Some b).
  { destruct tip as [p|];
      [|destruct (useFrame_no_tip now w) as (-> & _); exact Hn].
    rewrite useFrame_boxes, Hh, Hheld, nth_error_map, Hn; cbn [option_map].
    now rewrite carry_other. }
  destruct (IH (useFrame now tip w) n b) as [IH1 IH2]; auto;
    try (rewrite Hh; assumption).
  split; [rewrite IH1; exact Hh | exact IH2].
Qed.

(** C10: on a frame after whose grab and release tests an object is held,
    the objects are rewritten by the held branch alone: the object whose id
    is the held one is pinned to the gripper reference point, every other
    object, airborne or not, is left exactly as it was, and the gravity
    branch is not run.  While the gripper flag stays closed the held id does
    not change and a non-held object keeps its place in every frame. *)
Theorem held_tick_moves_only_held_object :
  forall (now : Z) (p : Vector3.t) (w : World),
    truthy (heldBoxId (useFrame now (Some p) w)) = true ->
    let w' := useFrame now (Some p) w in
    let g := gripReference p in
    boxes w' = map (carry (heldBoxId w') g) (boxes w)
    /\ (forall n b,
           nth_error (boxes w) n = Some b ->
           nth_error (boxes w') n
           = Some (if idIs (heldBoxId w') b then pinned g b else b))
    /\ (forall n b,
           nth_error (boxes w) n = Some b ->
           idIs (heldBoxId w') b = false ->
           airborne b = true ->
           nth_error (boxes w') n = Some b /\ fall b <> b)
    /\ (forall inputs w0 n b,
           truthy (heldBoxId w0) = true ->
           prevGripperOpen w0 = false ->
           closedThroughout inputs w0 ->
           nth_error (boxes w0) n = Some b ->
           idIs (heldBoxId w0) b = false ->
           heldBoxId (frames inputs w0) = heldBoxId w0
           /\ nth_error (boxes (frames inputs w0)) n = Some b).
Proof.
  intros now p w Hheld w' g.
  assert (Hb : boxes w' = map (carry (heldBoxId w') g) (boxes w)).
  { unfold w'; rewrite useFrame_boxes, Hheld; reflexivity. }
  assert (Hnth : forall n b,
             nth_error (boxes w) n = Some b ->
             nth_error (boxes w') n
             = Some (if idIs (heldBoxId w') b then pinned g b else b)).
  { intros n b Hn; rewrite Hb, nth_error_map, Hn; cbn [option_map].
    unfold carry, pinned; reflexivity. }
  split; [exact Hb|]. split; [exact Hnth|]. split.
  - intros n b Hn Hother Hair; split.
    + rewrite (Hnth n b Hn), Hother; reflexivity.
    + unfold fall; rewrite Hair; intros E.
      apply (f_equal position1) in E; unfold position1 at 1 in E;
        cbn [position fst snd] in E.
      unfold airborne in Hair; apply gtb_spec in Hair.
      unfold Rmax in E; destruct (Rle_dec _ _); lra.
  - exact closed_frames_keep_others.
Qed.

Lemma held_tick_moves_only_held_object_witness :
  truthy (heldBoxId (useFrame 16 (Some (Vector3.mk 4 5 0)) carryingWorld)) = true
  /\ nth_error (boxes (useFrame 16 (Some (Vector3.mk 4 5 0)) carryingWorld)) 1
     = Some strayBox
  /\ nth_error (boxes (useFrame 16 (Some (Vector3.mk 4 5 0)) carryingWorld)) 0
     = Some (pinned (Vector3.mk 4 (5 - 0.2) 0) loneBox).
Proof.
  assert (Hh : heldBoxId (useFrame 16 (Some (Vector3.mk 4 5 0)) carryingWorld)
               = Some "1"%string).
  { rewrite useFrame_heldBoxId; reflexivity. }
  assert (Hheld : truthy (heldBoxId (useFrame 16 (Some (Vector3.mk 4 5 0))
                                       carryingWorld)) = true).
  { rewrite Hh; reflexivity. }
  destruct (held_tick_moves_only_held_object 16 (Vector3.mk 4 5 0)
              carryingWorld Hheld) as (_ & Hnth & _).
  split; [exact Hheld|]. split.
  - rewrite (Hnth 1%nat strayBox eq_refl), Hh; reflexivity.
  - rewrite (Hnth 0%nat loneBox eq_refl), Hh; reflexivity.
Defined.

(** ** Phase timing *)

Lemma phaseDuration_pos w : 0.5 <= phaseDuration w.
Proof. unfold phaseDuration; cbv zeta; apply Rmax_l. Qed.

Lemma arrived_iff now w :
  arrived now w = true <-> phaseDuration w <= phaseElapsed now w.
Proof.
  pose proof (phaseDuration_pos w) as Hd.
  unfold arrived, phaseT; rewrite geb_spec.
  assert (Hq : phaseElapsed now w / phaseDuration w * phaseDuration w
               = phaseElapsed now w) by (field; lra).
  split; intros H.
  - assert (H1 : 1 <= phaseElapsed now w / phaseDuration w).
    { unfold Rmin in H; destruct (Rle_dec _ _); lra. }
    rewrite <- Hq. nra.
  - assert (H1 : 1 <= phaseElapsed now w / phaseDuration w).
    { apply (Rmult_le_reg_r (phaseDuration w)); [lra|]. rewrite Hq; lra. }
    rewrite Rmin_left; lra.
Qed.

Lemma arrived_false_iff now w :
  arrived now w = false <-> phaseElapsed now w < phaseDuration w.
Proof.
  destruct (arrived now w) eqn:E.
  - apply arrived_iff in E; split; [discriminate|lra].
  - split; [intros _|reflexivity].
    destruct (Rlt_dec (phaseElapsed now w) (phaseDuration w)) as [|Hn]; [assumption|].
    assert (H : arrived now w = true) by (apply arrived_iff; lra). congruence.
Qed.

Lemma arrived_phaseT now w : arrived now w = true -> phaseT now w = 1.
Proof.
  unfold arrived; rewrite geb_spec; unfold phaseT, Rmin.
  destruct (Rle_dec _ _); lra.
Qed.

Lemma lerpVectors_one (a b : Vector3.t) : Vector3.lerpVectors a b 1 = b.
Proof. destruct a, b; unfold Vector3.lerpVectors; cbn; f_equal; ring. Qed.

(** A frame in GRIP leaves it exactly when more than 0.5 s have elapsed and
    the interpolation of the waypoints left by DESCEND_PICK has arrived. *)
Lemma grip_exit_condition now tip w :
  phase w = GRIP ->
  phase (useFrame now tip w)
  = if arrived now w && gtb (phaseElapsed now w) 0.5 then LIFT_PICK else GRIP.
Proof.
  intros Hp; rewrite useFrame_phase.
  unfold sequenceLogic, phaseTransition; rewrite Hp; cbn [stationary].
  fold (arrived now w).
  destruct (arrived now w); cbn [andb]; [|exact Hp].
  destruct (gtb _ _); [reflexivity|exact Hp].
Qed.

Lemma grip_exit_time now tip w :
  phase w = GRIP ->
  (phase (useFrame now tip w) = LIFT_PICK
   <-> 0.5 < phaseElapsed now w
       /\ Vector3.distanceTo (startPos w) (endPos w) / 4.0 <= phaseElapsed now w).
Proof.
  intros Hp; rewrite (grip_exit_condition now tip w Hp).
  destruct (arrived now w) eqn:Ea; cbn [andb].
  - apply arrived_iff in Ea.
    assert (Hd : Vector3.distanceTo (startPos w) (endPos w) / 4.0
                 <= phaseElapsed now w).
    { unfold phaseDuration in Ea; cbv zeta in Ea.
      eapply Rle_trans; [apply Rmax_r|exact Ea]. }
    destruct (gtb _ _) eqn:Eg.
    + apply gtb_spec in Eg; split; [intros _; split; [lra|exact Hd]|reflexivity].
    + apply gtb_false in Eg; split; [discriminate|intros [H _]; lra].
  - apply arrived_false_iff in Ea. split; [discriminate|].
    intros [H1 H2]; exfalso.
    unfold phaseDuration in Ea; cbv zeta in Ea.
    unfold Rmax in Ea; destruct (Rle_dec _ _); lra.
Qed.

Lemma useFrame_targetBoxId now tip w :
  targetBoxId (useFrame now tip w) = targetBoxId w.
Proof.
  assert (H1 : forall v, targetBoxId (gripperLogic tip w v) = targetBoxId v)
    by (intros v; unfold gripperLogic; world_cases; reflexivity).
  assert (H2 : forall v, targetBoxId (ikLogic w v) = targetBoxId v)
    by (intros v; unfold ikLogic; world_cases; reflexivity).
  unfold useFrame; rewrite H1, H2.
  unfold sequenceLogic, phaseTransition; world_cases; reflexivity.
Qed.

Lemma sequenceLogic_waiting now w :
  arrived now w = false ->
  phase (sequenceLogic now w) = phase w
  /\ phaseStartTime (sequenceLogic now w) = phaseStartTime w
  /\ startPos (sequenceLogic now w) = startPos w
  /\ endPos (sequenceLogic now w) = endPos w
  /\ gripperOpen (sequenceLogic now w) = gripperOpen w.
Proof.
  unfold arrived, sequenceLogic; intros ->.
  destruct (phase w) eqn:Hp; cbn [stationary]; repeat split;
    try reflexivity; exact Hp.
Qed.

Lemma sequenceLogic_approach_arrived now w b :
  phase w = APPROACH -> arrived now w = true ->
  find (idIs (targetBoxId w)) (boxes w) = Some b ->
  phase (sequenceLogic now w) = DESCEND_PICK
  /\ phaseStartTime (sequenceLogic now w) = now
  /\ startPos (sequenceLogic now w) = endPos w
  /\ endPos (sequenceLogic now w)
     = Vector3.mk (position0 b) (position1 b + 0.2) (position2 b)
  /\ gripperOpen (sequenceLogic now w) = gripperOpen w.
Proof.
  intros Hp Ha Hf. pose proof (arrived_phaseT now w Ha) as Ht.
  unfold arrived in Ha; unfold sequenceLogic, phaseTransition.
  rewrite Hp, Ha; cbn [stationary targetBoxId setStartPos setPhaseStartTime
                       setPhase setIkTargetPos].
  rewrite Hf, Ht, lerpVectors_one. repeat split; reflexivity.
Qed.

Lemma sequenceLogic_descend_arrived now w :
  phase w = DESCEND_PICK -> arrived now w = true ->
  phase (sequenceLogic now w) = GRIP
  /\ phaseStartTime (sequenceLogic now w) = now
  /\ startPos (sequenceLogic now w) = startPos w
  /\ endPos (sequenceLogic now w) = endPos w
  /\ gripperOpen (sequenceLogic now w) = false.
Proof.
  intros Hp Ha. unfold arrived in Ha; unfold sequenceLogic, phaseTransition.
  rewrite Hp, Ha; cbn [stationary]. repeat split; reflexivity.
Qed.

Lemma fall_box_high (i c : string) (x y z : R) :
  0.6 <= y ->
  fall (mkObject i (x, y, z) c box) = mkObject i (x, y - 0.2, z) c box.
Proof.
  intros Hy. rewrite fall_airborne;
    unfold position0, position1, position2, groundOffset, BOX_SIZE;
    cbn [position fst snd shape id color]; [|lra].
  rewrite Rmax_right by lra. reflexivity.
Qed.

(** *** A run whose GRIP dwell exceeds half a second *)

Lemma heldAloft_trigger :
  let w1 := triggerEffect 0 heldAloftWorld in
  phase w1 = APPROACH /\ phaseStartTime w1 = 0%Z
  /\ startPos w1 = Vector3.mk 4 3.2 0 /\ endPos w1 = Vector3.mk 4 (3 + 2) 0
  /\ targetBoxId w1 = Some "1"%string /\ gripperOpen w1 = true
  /\ boxes w1 = [airborneBox] /\ heldBoxId w1 = Some "1"%string
  /\ prevGripperOpen w1 = false.
Proof.
  assert (Hf : find (fun b => gtb (position0 b) 0) [airborneBox]
               = Some airborneBox).
  { unfold airborneBox, position0; cbn [find position fst snd]. now eval_cmp. }
  unfold triggerEffect, heldAloftWorld, handleRunSequence.
  cbn [lastTrigger runSequenceTrigger boxes setLastTrigger].
  replace (0 <? 0 + 1)%Z with true by reflexivity.
  rewrite Hf. repeat split; reflexivity.
Qed.

(** The released object falls while the arm approaches the place where it
    was at trigger time. *)
Lemma approach_frame_waiting now p w y :
  phase w = APPROACH -> phaseStartTime w = 0%Z ->
  startPos w = Vector3.mk 4 3.2 0 -> endPos w = Vector3.mk 4 (3 + 2) 0 ->
  gripperOpen w = true ->
  boxes w = [mkObject "1" (4, y, 0) "#ef4444" box] -> 0.6 <= y ->
  prevGripperOpen w = false \/ heldBoxId w = None ->
  (0 <= now < 500)%Z ->
  let w' := useFrame now (Some p) w in
  phase w' = APPROACH /\ phaseStartTime w' = 0%Z
  /\ startPos w' = Vector3.mk 4 3.2 0 /\ endPos w' = Vector3.mk 4 (3 + 2) 0
  /\ gripperOpen w' = true
  /\ boxes w' = [mkObject "1" (4, y - 0.2, 0) "#ef4444" box]
  /\ heldBoxId w' = None /\ prevGripperOpen w' = true.
Proof.
  intros Hp Ht Hs He Hg Hb Hy Hfree Hnow w'.
  assert (Ha : arrived now w = false).
  { apply arrived_false_iff. unfold phaseElapsed, phaseDuration; cbv zeta.
    rewrite Ht, Hs, He, distanceTo_vertical_up by lra.
    rewrite Rmax_left by lra. rewrite Z.sub_0_r.
    assert (IZR now < 500) by (apply IZR_lt; lia). lra. }
  assert (Hh : heldBoxId w' = None).
  { unfold w'; rewrite useFrame_heldBoxId, Hg.
    destruct Hfree as [-> | ->]; [reflexivity|].
    destruct (prevGripperOpen w); reflexivity. }
  destruct (sequenceLogic_waiting now w Ha) as (E1 & E2 & E3 & E4 & E5).
  destruct (useFrame_waypoints now (Some p) w) as [E6 E7].
  repeat split; try exact Hh; unfold w'.
  - now rewrite useFrame_phase, E1.
  - now rewrite useFrame_phaseStartTime, E2.
  - now rewrite E6, E3.
  - now rewrite E7, E4.
  - now rewrite useFrame_gripperOpen, E5.
  - fold w'. unfold w' at 1. rewrite useFrame_boxes. fold w'. rewrite Hh, Hb.
    cbn [map truthy]. now rewrite fall_box_high by exact Hy.
  - now rewrite useFrame_prevGripperOpen.
Qed.

Lemma heldAloft_grip_entry :
  phase gripEntryWorld = GRIP
  /\ phaseStartTime gripEntryWorld = 1100%Z
  /\ startPos gripEntryWorld = Vector3.mk 4 (3 + 2) 0
  /\ endPos gripEntryWorld = Vector3.mk 4 (3 - 0.2 - 0.2 + 0.2) 0
  /\ gripperOpen gripEntryWorld = false.
Proof.
  unfold gripEntryWorld, frames; cbn [fold_left fst snd].
  destruct heldAloft_trigger as (P1 & T1 & S1 & E1 & I1 & G1 & B1 & H1 & V1).
  set (w1 := triggerEffect 0 heldAloftWorld) in *.
  set (p := Vector3.mk 4 3.2 0).
  destruct (approach_frame_waiting 100 p w1 3 P1 T1 S1 E1 G1 B1)
    as (P2 & T2 & S2 & E2 & G2 & B2 & H2 & V2); [lra|now left|lia|].
  set (w2 := useFrame 100 (Some p) w1) in *.
  destruct (approach_frame_waiting 200 p w2 (3 - 0.2) P2 T2 S2 E2 G2 B2)
    as (P3 & T3 & S3 & E3 & G3 & B3 & H3 & V3); [lra|now right|lia|].
  set (w3 := useFrame 200 (Some p) w2) in *.
  (* APPROACH arrives: the object is looked up again, two ticks lower *)
  assert (A3 : arrived 500 w3 = true).
  { apply arrived_iff. unfold phaseElapsed, phaseDuration; cbv zeta.
    rewrite T3, S3, E3, distanceTo_vertical_up by lra.
    rewrite Rmax_left by lra. replace (500 - 0)%Z with 500%Z by reflexivity. lra. }
  assert (I3 : targetBoxId w3 = Some "1"%string).
  { unfold w3, w2; now rewrite !useFrame_targetBoxId. }
  assert (F3 : find (idIs (targetBoxId w3)) (boxes w3)
               = Some (mkObject "1" (4, 3 - 0.2 - 0.2, 0) "#ef4444" box)).
  { rewrite I3, B3; reflexivity. }
  destruct (sequenceLogic_approach_arrived 500 w3 _ P3 A3 F3)
    as (P4 & T4 & S4 & E4 & G4).
  destruct (useFrame_waypoints 500 (Some p) w3) as [Ws4 We4].
  set (w4 := useFrame 500 (Some p) w3) in *.
  assert (P4' : phase w4 = DESCEND_PICK) by (unfold w4; now rewrite useFrame_phase).
  assert (T4' : phaseStartTime w4 = 500%Z)
    by (unfold w4; now rewrite useFrame_phaseStartTime).
  assert (S4' : startPos w4 = Vector3.mk 4 (3 + 2) 0) by (now rewrite Ws4, S4).
  assert (E4' : endPos w4 = Vector3.mk 4 (3 - 0.2 - 0.2 + 0.2) 0)
    by (rewrite We4, E4; reflexivity).
  (* DESCEND_PICK arrives after 0.55 s *)
  assert (A4 : arrived 1100 w4 = true).
  { apply arrived_iff. unfold phaseElapsed, phaseDuration; cbv zeta.
    rewrite T4', S4', E4', distanceTo_vertical by lra.
    rewrite Rmax_right by lra.
    replace (1100 - 500)%Z with 600%Z by reflexivity. lra. }
  destruct (sequenceLogic_descend_arrived 1100 w4 P4' A4)
    as (P5 & T5 & S5 & E5 & G5).
  destruct (useFrame_waypoints 1100 (Some p) w4) as [Ws5 We5].
  rewrite useFrame_phase, useFrame_phaseStartTime, useFrame_gripperOpen,
    Ws5, We5, P5, T5, S5, E5, G5, S4', E4'.
  repeat split; reflexivity.
Qed.

(** C5 (evaluation at the failing run): the object held aloft at trigger
    time has fallen when DESCEND_PICK starts, its waypoints are 2.2 apart,
    and GRIP, entered at 1100 ms, is still the phase 0.52 s later; it is
    left only at 0.55 s. *)
Theorem grip_dwell_follows_stale_waypoints :
  phase gripEntryWorld = GRIP
  /\ phaseStartTime gripEntryWorld = 1100%Z
  /\ Vector3.distanceTo (startPos gripEntryWorld) (endPos gripEntryWorld) = 2.2
  /\ phaseElapsed 1620 gripEntryWorld = 0.52
  /\ phase (useFrame 1620 (Some (Vector3.mk 4 3.2 0)) gripEntryWorld) = GRIP
  /\ phase (useFrame 1650 (Some (Vector3.mk 4 3.2 0)) gripEntryWorld) = LIFT_PICK.
Proof.
  destruct heldAloft_grip_entry as (P & T & S & E & G).
  assert (D : Vector3.distanceTo (startPos gripEntryWorld) (endPos gripEntryWorld)
              = 2.2).
  { rewrite S, E, distanceTo_vertical; lra. }
  assert (L : forall now, phaseElapsed now gripEntryWorld = IZR (now - 1100) / 1000).
  { intros now; unfold phaseElapsed; now rewrite T. }
  assert (Du : phaseDuration gripEntryWorld = 0.55).
  { unfold phaseDuration; cbv zeta; rewrite D, Rmax_right; lra. }
  split; [exact P|]. split; [exact T|]. split; [exact D|].
  split; [rewrite L; replace (1620 - 1100)%Z with 520%Z by reflexivity; lra|].
  split.
  - rewrite (grip_exit_condition _ _ _ P).
    replace (arrived 1620 gripEntryWorld) with false; [reflexivity|].
    symmetry; apply arrived_false_iff. rewrite L, Du.
    replace (1620 - 1100)%Z with 520%Z by reflexivity; lra.
  - rewrite (grip_exit_condition _ _ _ P).
    replace (arrived 1650 gripEntryWorld) with true.
    + rewrite L. replace (1650 - 1100)%Z with 550%Z by reflexivity.
      cbn [andb]. now eval_cmp.
    + symmetry; apply arrived_iff. rewrite L, Du.
      replace (1650 - 1100)%Z with 550%Z by reflexivity; lra.
Qed.

(** * Further properties of the kinematics *)

(** ** The flange turn does not move the chain *)

Lemma calculateChain_positions_j6 joints v :
  positions (calculateChain (setJoint joints J6 v))
  = positions (calculateChain joints)
  /\ endEffector (calculateChain (setJoint joints J6 v))
     = endEffector (calculateChain joints).
Proof.
  assert (Htip : forall u q, unitQ q ->
            Vector3.applyQuaternion (Vector3.mk 0 0.5 0)
              (Quaternion.multiply q (setFromAxisAngle axisY u))
            = Vector3.applyQuaternion (Vector3.mk 0 0.5 0) q).
  { intros u q Hq.
    rewrite applyQuaternion_multiply by auto with chain.
    now rewrite applyQuaternion_yaw_vertical by apply yaw_axisY. }
  unfold calculateChain; cbv zeta.
  cbn [positions endEffector setJoint j1 j2 j3 j4 j5 j6].
  rewrite !Htip by auto 10 with chain.
  split; reflexivity.
Qed.


(** ** Rigid links and reach *)

Lemma distanceTo_length a b :
  Vector3.distanceTo a b = Vector3.length (Vector3.sub a b).
Proof.
  unfold Vector3.distanceTo, Vector3.length. reflexivity.
Qed.

Lemma length_vertical len : 0 <= len -> Vector3.length (Vector3.mk 0 len 0) = len.
Proof.
  intros H; unfold Vector3.length, Vector3.lengthSq; cbn [Vector3.x Vector3.y Vector3.z].
  replace (0 * 0 + len * len + 0 * 0) with (len * len) by ring.
  now apply sqrt_square.
Qed.

Lemma applyQuaternion_length v q :
  unitQ q -> Vector3.length (Vector3.applyQuaternion v q) = Vector3.length v.
Proof. intros H; unfold Vector3.length; now rewrite applyQuaternion_lengthSq. Qed.

Lemma length_nonneg v : 0 <= Vector3.length v.
Proof. apply sqrt_pos. Qed.

Lemma cauchy_schwarz u v :
  Vector3.dot u v <= Vector3.length u * Vector3.length v.
Proof.
  pose proof (length_nonneg u) as Hu. pose proof (length_nonneg v) as Hv.
  assert (Hsq : Vector3.dot u v * Vector3.dot u v
                <= (Vector3.length u * Vector3.length v)
                   * (Vector3.length u * Vector3.length v)).
  { replace ((Vector3.length u * Vector3.length v)
             * (Vector3.length u * Vector3.length v))
      with ((Vector3.length u * Vector3.length u)
            * (Vector3.length v * Vector3.length v)) by ring.
    unfold Vector3.length.
    rewrite !sqrt_sqrt by apply lengthSq_nonneg.
    destruct u as [u1 u2 u3], v as [v1 v2 v3]; vec_unfold.
    assert (L1 : (u1 * u1 + u2 * u2 + u3 * u3) * (v1 * v1 + v2 * v2 + v3 * v3)
                 - (u1 * v1 + u2 * v2 + u3 * v3) * (u1 * v1 + u2 * v2 + u3 * v3)
                 = (u2 * v3 - u3 * v2) * (u2 * v3 - u3 * v2)
                   + (u3 * v1 - u1 * v3) * (u3 * v1 - u1 * v3)
                   + (u1 * v2 - u2 * v1) * (u1 * v2 - u2 * v1)) by ring.
    assert (Sq : forall r, 0 <= r * r) by (intros r; nra).
    pose proof (Sq (u2 * v3 - u3 * v2)). pose proof (Sq (u3 * v1 - u1 * v3)).
    pose proof (Sq (u1 * v2 - u2 * v1)). lra. }
  set (d := Vector3.dot u v) in *.
  set (m := Vector3.length u * Vector3.length v) in *.
  assert (Hm : 0 <= m) by (unfold m; nra).
  destruct (Rle_dec d m) as [|Hn]; [assumption|]. nra.
Qed.

Lemma length_add u v :
  Vector3.length (Vector3.add u v) <= Vector3.length u + Vector3.length v.
Proof.
  pose proof (length_nonneg u) as Hu. pose proof (length_nonneg v) as Hv.
  pose proof (cauchy_schwarz u v) as Hcs.
  assert (E : Vector3.lengthSq (Vector3.add u v)
              = Vector3.length u * Vector3.length u + 2 * Vector3.dot u v
                + Vector3.length v * Vector3.length v).
  { unfold Vector3.length. rewrite !sqrt_sqrt by apply lengthSq_nonneg.
    destruct u, v; vec_unfold; ring. }
  unfold Vector3.length at 1. rewrite E.
  rewrite <- (sqrt_square (Vector3.length u + Vector3.length v)) by lra.
  apply sqrt_le_1_alt. nra.
Qed.

Lemma distanceTo_triangle a b c :
  Vector3.distanceTo a c <= Vector3.distanceTo a b + Vector3.distanceTo b c.
Proof.
  rewrite !distanceTo_length.
  replace (Vector3.sub a c) with (Vector3.add (Vector3.sub a b) (Vector3.sub b c))
    by (destruct a, b, c; vec_unfold; f_equal; ring).
  apply length_add.
Qed.

Lemma distanceTo_sym a b : Vector3.distanceTo a b = Vector3.distanceTo b a.
Proof.
  unfold Vector3.distanceTo; f_equal. destruct a, b; vec_unfold; ring.
Qed.

Lemma distanceTo_add_l a r :
  Vector3.distanceTo a (Vector3.add a r) = Vector3.length r.
Proof.
  unfold Vector3.distanceTo, Vector3.length; f_equal.
  destruct a, r; vec_unfold; ring.
Qed.

Lemma add_origin_l v : Vector3.add (Vector3.mk 0 0 0) v = v.
Proof. destruct v; vec_unfold; f_equal; ring. Qed.

Lemma add_origin_r v : Vector3.add v (Vector3.mk 0 0 0) = v.
Proof. destruct v; vec_unfold; f_equal; ring. Qed.

Lemma distanceTo_self p : Vector3.distanceTo p p = 0.
Proof.
  rewrite <- (add_origin_r p) at 2. rewrite distanceTo_add_l.
  apply length_vertical; lra.
Qed.

Ltac chain_rotations :=
  unfold calculateChain; cbv zeta;
  cbn [positions rotations endEffector nth List.length].

Lemma chain_rotations_unit joints : Forall unitQ (rotations (calculateChain joints)).
Proof. chain_rotations. repeat constructor; auto 10 with chain. Qed.

Lemma chain_links joints :
  let c := calculateChain joints in
  let p i := nth i (positions c) (Vector3.mk 0 0 0) in
  List.length (positions c) = 7%nat
  /\ List.length (rotations c) = 6%nat
  /\ p 0%nat = Vector3.mk 0 1.1 0
  /\ p 1%nat = p 0%nat
  /\ Vector3.distanceTo (p 1%nat) (p 2%nat) = 4
  /\ Vector3.distanceTo (p 2%nat) (p 3%nat) = 1.5
  /\ Vector3.distanceTo (p 3%nat) (p 4%nat) = 0.2
  /\ Vector3.distanceTo (p 4%nat) (p 5%nat) = 0.8
  /\ Vector3.distanceTo (p 5%nat) (p 6%nat) = 0.5
  /\ p 6%nat = endEffector c.
Proof.
  intros c p; unfold p, c; clear p c. chain_rotations.
  split; [reflexivity|]. split; [reflexivity|].
  split; [unfold Vector3.add; cbn; f_equal; lra|].
  split; [reflexivity|].
  rewrite !distanceTo_add_l.
  rewrite !applyQuaternion_length by auto 10 with chain.
  rewrite !length_vertical by lra.
  repeat split; reflexivity.
Qed.


Lemma chain_reach joints :
  Vector3.distanceTo (Vector3.mk 0 1.1 0) (endEffector (calculateChain joints)) <= 7.
Proof.
  destruct (chain_links joints) as (_ & _ & E0 & E1 & D12 & D23 & D34 & D45 & D56 & E6).
  cbv zeta in *. rewrite <- E6, <- E0, <- E1.
  set (p := fun i => nth i (positions (calculateChain joints)) (Vector3.mk 0 0 0)) in *.
  change (Vector3.distanceTo (p 1%nat) (p 6%nat) <= 7).
  pose proof (distanceTo_triangle (p 1%nat) (p 2%nat) (p 6%nat)).
  pose proof (distanceTo_triangle (p 2%nat) (p 3%nat) (p 6%nat)).
  pose proof (distanceTo_triangle (p 3%nat) (p 4%nat) (p 6%nat)).
  pose proof (distanceTo_triangle (p 4%nat) (p 5%nat) (p 6%nat)).
  fold (p 1%nat) (p 2%nat) (p 3%nat) (p 4%nat) (p 5%nat) (p 6%nat)
    in D12, D23, D34, D45, D56.
  lra.
Qed.



(** ** Turning the base *)

Lemma applyQuaternion_yaw_y v q :
  yaw q -> Vector3.y (Vector3.applyQuaternion v q) = Vector3.y v.
Proof.
  destruct q as [qx qy qz qw], v as [vx vy vz]; unfold yaw; cbn; intros [-> ->].
  unfold Vector3.applyQuaternion; cbn; ring.
Qed.

Lemma signedAngleAt_range axis jointPos tipPos targetPosition :
  - PI <= signedAngleAt axis jointPos tipPos targetPosition <= PI.
Proof.
  unfold signedAngleAt; cbv zeta.
  match goal with
  | |- context [Vector3.angleTo ?u ?v] => pose proof (angleTo_bound u v)
  end.
  destruct (ltb _ _); lra.
Qed.


(** X2: the flange angle [j6] does not move the chain.  The first six
    chain positions are computed before the flange rotation and are the
    same whatever [j6] is; the tip, whose offset is turned through the
    flange rotation, stays where it is to within the rounding margin, and
    so does its distance to any target. *)
Theorem chain_independent_of_j6 :
  forall (joints0 : RobotJoints) (v : R),
    firstn 6 (positions (calculateChain (setJoint joints0 J6 v)))
    = firstn 6 (positions (calculateChain joints0))
    /\ Vector3.distanceTo
         (endEffector (calculateChain (setJoint joints0 J6 v)))
         (endEffector (calculateChain joints0)) <= rounding
    /\ forall targetPosition,
         - rounding
         <= tipDistance targetPosition (setJoint joints0 J6 v)
            - tipDistance targetPosition joints0
         <= rounding.
Proof.
  intros joints0 v.
  destruct (calculateChain_positions_j6 joints0 v) as [Hp Ht].
  split; [now rewrite Hp|].
  split.
  - rewrite Ht, distanceTo_self. unfold rounding; lra.
  - intros targetPosition; unfold tipDistance; rewrite Ht.
    unfold rounding; lra.
Qed.

(** X3: whatever the joint angles are, the chain has seven positions and
    six rotations, the first two positions are the shoulder pivot
    (0, 1.1, 0) and the last one is the end effector; to within the
    rounding margin consecutive pivots are 4, 1.5, 0.2, 0.8 and 0.5 apart
    and every rotation is a unit quaternion. *)
Theorem chain_is_rigid :
  forall joints0 : RobotJoints,
    let c := calculateChain joints0 in
    let p i := nth i (positions c) (Vector3.mk 0 0 0) in
    let near len d := len - rounding <= d <= len + rounding in
    List.length (positions c) = 7%nat
    /\ List.length (rotations c) = 6%nat
    /\ p 0%nat = Vector3.mk 0 1.1 0
    /\ p 1%nat = p 0%nat
    /\ p 6%nat = endEffector c
    /\ near 4 (Vector3.distanceTo (p 1%nat) (p 2%nat))
    /\ near 1.5 (Vector3.distanceTo (p 2%nat) (p 3%nat))
    /\ near 0.2 (Vector3.distanceTo (p 3%nat) (p 4%nat))
    /\ near 0.8 (Vector3.distanceTo (p 4%nat) (p 5%nat))
    /\ near 0.5 (Vector3.distanceTo (p 5%nat) (p 6%nat))
    /\ Forall (fun q =>
                 near 1 (Quaternion.x q * Quaternion.x q
                         + Quaternion.y q * Quaternion.y q
                         + Quaternion.z q * Quaternion.z q
                         + Quaternion.w q * Quaternion.w q))
              (rotations c).
Proof.
  intros joints0 c p near. unfold near, p, c; clear near p c; cbv beta.
  pose proof (chain_links joints0) as H; cbv zeta beta in H.
  destruct H as (L1 & L2 & P0 & P1 & D12 & D23 & D34 & D45 & D56 & P6).
  split; [exact L1|]. split; [exact L2|]. split; [exact P0|].
  split; [exact P1|]. split; [exact P6|].
  unfold rounding.
  split; [rewrite D12; lra|]. split; [rewrite D23; lra|].
  split; [rewrite D34; lra|]. split; [rewrite D45; lra|].
  split; [rewrite D56; lra|].
  eapply Forall_impl; [|apply chain_rotations_unit].
  intros q Hq; cbv beta. unfold unitQ in Hq. rewrite Hq. lra.
Qed.




(** X7: writing a joint leaves in place its own pivot and every pivot
    before it, and leaves as they are the orientations accumulated before
    it. *)
Theorem joint_moves_only_downstream :
  forall (joints0 : RobotJoints) (key : JointKey) (v : R) (i : nat),
    (i <= chainIndex key)%nat ->
    nth i (positions (calculateChain (setJoint joints0 key v))) (Vector3.mk 0 0 0)
    = nth i (positions (calculateChain joints0)) (Vector3.mk 0 0 0)
    /\ ((i < chainIndex key)%nat ->
        nth i (rotations (calculateChain (setJoint joints0 key v))) Quaternion.identity
        = nth i (rotations (calculateChain joints0)) Quaternion.identity).
Proof.
  intros joints0 key v i Hi.
  unfold calculateChain; cbv zeta. cbn [positions rotations].
  destruct key; cbn [chainIndex] in Hi |- *;
    do 6 (destruct i as [|i];
          [first [ exfalso; lia
                 | split; [reflexivity
                          | intros Hlt; first [exfalso; lia | reflexivity]] ]|]);
    exfalso; lia.
Qed.

Lemma joint_moves_only_downstream_witness :
  (2 <= chainIndex J3)%nat
  /\ nth 2 (positions (calculateChain (setJoint HOME_JOINTS J3 1))) (Vector3.mk 0 0 0)
     = nth 2 (positions (calculateChain HOME_JOINTS)) (Vector3.mk 0 0 0).
Proof.
  assert (H : (2 <= chainIndex J3)%nat) by (cbn; lia).
  split; [exact H|].
  exact (proj1 (joint_moves_only_downstream HOME_JOINTS J3 1 2 H)).
Defined.



(** * Further properties of the sequencer *)

Lemma sequenceLogic_step now w :
  phase (sequenceLogic now w) = phase w
  \/ phase (sequenceLogic now w) = nextPhase (phase w)
  \/ (phase w = APPROACH /\ phase (sequenceLogic now w) = IDLE
      /\ find (idIs (targetBoxId w)) (boxes w) = None).
Proof.
  unfold sequenceLogic, phaseTransition.
  destruct (phase w) eqn:Hp; cbn [stationary]; auto;
    destruct (geb _ _); cbn [phase setIkTargetPos]; auto;
    try (destruct (gtb _ _); cbn; auto);
    try (right; left; reflexivity).
  cbn [targetBoxId setStartPos setPhaseStartTime setPhase boxes].
  destruct (find _ _) eqn:Hf; [right; left; reflexivity|].
  right; right; repeat split; reflexivity.
Qed.

Lemma sequenceLogic_completions now w :
  completions (sequenceLogic now w)
  = if negb (isIdle (phase w)) && isIdle (phase (sequenceLogic now w))
    then S (completions w) else completions w.
Proof.
  unfold sequenceLogic, phaseTransition.
  destruct (phase w) eqn:Hp; cbn [stationary isIdle negb andb];
    [rewrite ?Hp; reflexivity| | | | | | | | |];
    destruct (geb _ _); cbn [phase setIkTargetPos completions isIdle];
    rewrite ?Hp; cbn [isIdle]; try reflexivity;
    try (destruct (gtb _ _); cbn; rewrite ?Hp; reflexivity).
  cbn [targetBoxId setStartPos setPhaseStartTime setPhase boxes].
  destruct (find _ _); reflexivity.
Qed.

Lemma useFrame_completions now tip w :
  completions (useFrame now tip w) = completions (sequenceLogic now w).
Proof.
  unfold useFrame.
  destruct (gripperLogic_fields tip w (ikLogic w (sequenceLogic now w)))
    as (_ & _ & -> & _).
  now destruct (ikLogic_fields w (sequenceLogic now w))
    as (_ & _ & _ & _ & _ & -> & _).
Qed.

Lemma frames_cons i inputs w :
  frames (i :: inputs) w = frames inputs (useFrame (fst i) (snd i) w).
Proof. reflexivity. Qed.

Lemma frames_rank inputs : forall w,
  (phaseRank (phase w) <= phaseRank (phase (frames inputs w)))%nat.
Proof.
  induction inputs as [|i inputs IH]; intros w; [apply Nat.le_refl|].
  rewrite frames_cons. eapply Nat.le_trans; [|apply IH].
  rewrite useFrame_phase.
  destruct (sequenceLogic_step (fst i) w) as [-> | [-> | (Hp & -> & _)]].
  - apply Nat.le_refl.
  - destruct (phase w); cbn; lia.
  - rewrite Hp; cbn; lia.
Qed.

Lemma frames_completions inputs : forall w,
  completions (frames inputs w)
  = if negb (isIdle (phase w)) && isIdle (phase (frames inputs w))
    then S (completions w) else completions w.
Proof.
  induction inputs as [|i inputs IH]; intros w.
  - cbn. destruct (phase w); reflexivity.
  - rewrite frames_cons, IH, useFrame_completions, sequenceLogic_completions.
    rewrite !useFrame_phase.
    pose proof (frames_rank inputs (useFrame (fst i) (snd i) w)) as Hr.
    rewrite useFrame_phase in Hr.
    destruct (phase w) eqn:Hp, (phase (sequenceLogic (fst i) w)) eqn:Hq;
      cbn [isIdle negb andb] in *;
      try reflexivity;
      destruct (phase (frames inputs (useFrame (fst i) (snd i) w))) eqn:Hf;
      cbn [isIdle negb andb phaseRank] in *; try reflexivity; try lia.
    all: destruct (sequenceLogic_step (fst i) w) as [H | [H | (H & _)]];
      rewrite ?Hp, ?Hq in H; cbn in H; congruence.
Qed.


(** ** The order of the phases *)

(** X8: a frame keeps the phase, moves it to the next phase of the cycle,
    or, at the end of APPROACH with the target object gone, aborts to IDLE.
    Over any run of frames the phase never goes back, and an idle sequencer
    stays idle. *)
Theorem frames_follow_phase_order :
  (forall now tip w,
      phase (useFrame now tip w) = phase w
      \/ phase (useFrame now tip w) = nextPhase (phase w)
      \/ (phase w = APPROACH /\ phase (useFrame now tip w) = IDLE
          /\ find (idIs (targetBoxId w)) (boxes w) = None))
  /\ (forall inputs w,
         (phaseRank (phase w) <= phaseRank (phase (frames inputs w)))%nat)
  /\ (forall inputs w,
         isIdle (phase w) = true -> phase (frames inputs w) = IDLE).
Proof.
  split; [|split].
  - intros now tip w; rewrite useFrame_phase; apply sequenceLogic_step.
  - intros inputs w; apply frames_rank.
  - intros inputs w Hi. pose proof (frames_rank inputs w) as Hr.
    destruct (phase w); try discriminate.
    destruct (phase (frames inputs w)); cbn in Hr; try lia; reflexivity.
Qed.

Lemma frames_follow_phase_order_witness :
  isIdle (phase (initialWorld initialBoxes)) = true
  /\ phase (frames [(16%Z, None); (33%Z, None)] (initialWorld initialBoxes)) = IDLE.
Proof.
  assert (H : isIdle (phase (initialWorld initialBoxes)) = true) by reflexivity.
  split; [exact H|].
  destruct frames_follow_phase_order as (_ & _ & Hidle).
  exact (Hidle [(16%Z, None); (33%Z, None)] (initialWorld initialBoxes) H).
Defined.

(** X9: [onSequenceComplete] is called by a frame exactly when the frame
    takes the sequencer from a running phase to IDLE, and then once; so
    over a run of frames started in a running phase it has been called once
    if the run has reached IDLE and not at all otherwise, and an idle
    sequencer never calls it. *)
Theorem completion_fires_once_on_return_to_idle :
  (forall now tip w,
      completions (useFrame now tip w)
      = if negb (isIdle (phase w)) && isIdle (phase (useFrame now tip w))
        then S (completions w) else completions w)
  /\ (forall inputs w,
         completions (frames inputs w)
         = if negb (isIdle (phase w)) && isIdle (phase (frames inputs w))
           then S (completions w) else completions w).
Proof.
  split.
  - intros now tip w.
    rewrite useFrame_completions, useFrame_phase. apply sequenceLogic_completions.
  - exact frames_completions.
Qed.

(** X10: a frame that changes the phase comes at least 0.5 s after the
    phase started, and at least the time the straight line between the
    waypoints takes at 4 units per second; leaving GRIP or RELEASE takes
    more than 0.5 s. *)
Theorem phase_change_takes_time :
  forall now tip w,
    phase (useFrame now tip w) <> phase w ->
    0.5 <= phaseElapsed now w
    /\ Vector3.distanceTo (startPos w) (endPos w) / 4.0 <= phaseElapsed now w
    /\ (stationary (phase w) = true -> 0.5 < phaseElapsed now w).
Proof.
  intros now tip w Hch. rewrite useFrame_phase in Hch.
  destruct (arrived now w) eqn:Ha.
  - apply arrived_iff in Ha. unfold phaseDuration in Ha; cbv zeta in Ha.
    pose proof (Rmax_l 0.5 (Vector3.distanceTo (startPos w) (endPos w) / 4.0)).
    pose proof (Rmax_r 0.5 (Vector3.distanceTo (startPos w) (endPos w) / 4.0)).
    split; [lra|]. split; [lra|].
    intros Hs. unfold sequenceLogic, phaseTransition in Hch.
    destruct (phase w) eqn:Hp; try discriminate;
      destruct (geb _ _); cbn [stationary] in Hch;
      try (exfalso; apply Hch; exact Hp);
      destruct (gtb (phaseElapsed now w) 0.5) eqn:Hg;
      try (exfalso; apply Hch; exact Hp);
      now apply gtb_spec in Hg.
  - exfalso; apply Hch.
    now destruct (sequenceLogic_waiting now w Ha) as (-> & _).
Qed.


Lemma startedWorld_fields :
  phase startedWorld = APPROACH /\ phaseStartTime startedWorld = 0%Z
  /\ startPos startedWorld = Vector3.mk 4 2 0
  /\ endPos startedWorld = Vector3.mk 4 (BOX_SIZE / 2 + 2) 0
  /\ targetBoxId startedWorld = Some "1"%string
  /\ boxes startedWorld = initialBoxes
  /\ completions startedWorld = 0%nat.
Proof.
  unfold startedWorld, triggerEffect, handleRunSequence.
  cbn [lastTrigger runSequenceTrigger boxes setLastTrigger initialWorld].
  replace (0 <? 0 + 1)%Z with true by reflexivity.
  rewrite initialBoxes_in_pick_region. repeat split; reflexivity.
Qed.

Lemma startedWorld_arrived : arrived 600 startedWorld = true.
Proof.
  destruct startedWorld_fields as (_ & T & S & E & _).
  apply arrived_iff. unfold phaseElapsed, phaseDuration; cbv zeta.
  rewrite T, S, E, distanceTo_vertical_up by (unfold BOX_SIZE; lra).
  replace (600 - 0)%Z with 600%Z by reflexivity.
  unfold BOX_SIZE; rewrite Rmax_left; lra.
Qed.

Lemma startedWorld_first_frame tip :
  phase (useFrame 600 tip startedWorld) = DESCEND_PICK.
Proof.
  destruct startedWorld_fields as (P & _ & _ & _ & I & B & _).
  rewrite useFrame_phase.
  assert (F : find (idIs (targetBoxId startedWorld)) (boxes startedWorld)
              = Some (mkObject "1" (4, BOX_SIZE / 2, 0) "#ef4444" box))
    by (rewrite I, B; reflexivity).
  now destruct (sequenceLogic_approach_arrived 600 startedWorld _ P
                  startedWorld_arrived F) as (-> & _).
Qed.

Lemma phase_change_takes_time_witness :
  phase (useFrame 600 None startedWorld) <> phase startedWorld
  /\ 0.5 <= phaseElapsed 600 startedWorld.
Proof.
  assert (H : phase (useFrame 600 None startedWorld) <> phase startedWorld).
  { rewrite startedWorld_first_frame.
    destruct startedWorld_fields as (-> & _). discriminate. }
  split; [exact H|].
  exact (proj1 (phase_change_takes_time 600 None startedWorld H)).
Defined.

Lemma useFrame_ikTargetPos now tip w :
  ikTargetPos (useFrame now tip w) = ikTargetPos (sequenceLogic now w).
Proof.
  unfold useFrame.
  destruct (gripperLogic_fields tip w (ikLogic w (sequenceLogic now w)))
    as (_ & _ & _ & _ & _ & _ & -> & _).
  now destruct (ikLogic_fields w (sequenceLogic now w))
    as (_ & _ & _ & _ & _ & _ & _ & _ & _ & ->).
Qed.

Lemma sequenceLogic_ikTargetPos now w :
  ikTargetPos (sequenceLogic now w)
  = if isIdle (phase w) || stationary (phase w) then ikTargetPos w
    else Vector3.lerpVectors (startPos w) (endPos w) (phaseT now w).
Proof.
  unfold sequenceLogic, phaseTransition.
  destruct (phase w) eqn:Hp; cbn [isIdle stationary orb]; try reflexivity;
    destruct (geb _ _); cbn; try reflexivity;
    try (destruct (gtb _ _); reflexivity).
  destruct (find _ _); reflexivity.
Qed.

(** X11: in a movement phase a frame puts the IK target on the line from
    the start to the end waypoint at the parameter [t <= 1]; [t] is not
    negative when the clock has not gone back.  On arrival [t] is 1 and
    the target, [start + (end - start) * 1], is the end waypoint to within
    the rounding margin.  An idle sequencer and the phases GRIP and
    RELEASE leave the IK target alone. *)
Theorem ik_target_follows_waypoints :
  forall now tip w,
    (isIdle (phase w) || stationary (phase w) = true ->
     ikTargetPos (useFrame now tip w) = ikTargetPos w)
    /\ (isIdle (phase w) || stationary (phase w) = false ->
        ikTargetPos (useFrame now tip w)
        = Vector3.lerpVectors (startPos w) (endPos w) (phaseT now w)
        /\ phaseT now w <= 1
        /\ ((phaseStartTime w <= now)%Z -> 0 <= phaseT now w)
        /\ (arrived now w = true ->
            phaseT now w = 1
            /\ ikTargetPos (useFrame now tip w)
               = Vector3.lerpVectors (startPos w) (endPos w) 1
            /\ Vector3.distanceTo (ikTargetPos (useFrame now tip w))
                                  (endPos w) <= rounding)).
Proof.
  intros now tip w.
  rewrite useFrame_ikTargetPos, sequenceLogic_ikTargetPos.
  split; intros ->; [reflexivity|].
  split; [reflexivity|]. split; [apply Rmin_l|]. split.
  - intros Hnow. pose proof (phaseDuration_pos w) as Hd.
    assert (He : 0 <= phaseElapsed now w).
    { unfold phaseElapsed. assert (0 <= IZR (now - phaseStartTime w))
        by (apply IZR_le; lia). lra. }
    assert (0 <= phaseElapsed now w / phaseDuration w)
      by (apply Rle_mult_inv_pos; lra).
    unfold phaseT, Rmin; destruct (Rle_dec _ _); lra.
  - intros Ha. rewrite (arrived_phaseT now w Ha).
    split; [reflexivity|]. split; [reflexivity|].
    rewrite lerpVectors_one, distanceTo_self. unfold rounding; lra.
Qed.

Lemma ik_target_follows_waypoints_witness :
  isIdle (phase startedWorld) || stationary (phase startedWorld) = false
  /\ arrived 600 startedWorld = true
  /\ phaseT 600 startedWorld = 1
  /\ ikTargetPos (useFrame 600 None startedWorld)
     = Vector3.lerpVectors (startPos startedWorld) (endPos startedWorld) 1.
Proof.
  assert (H : isIdle (phase startedWorld) || stationary (phase startedWorld) = false).
  { destruct startedWorld_fields as (-> & _). reflexivity. }
  split; [exact H|]. split; [exact startedWorld_arrived|].
  destruct (ik_target_follows_waypoints 600 None startedWorld) as (_ & Hm).
  destruct (Hm H) as (_ & _ & _ & Hend).
  destruct (Hend startedWorld_arrived) as (Ht & Hl & _).
  split; [exact Ht | exact Hl].
Defined.


Lemma find_first {A} (f : A -> bool) (pre post : list A) (b : A) :
  (forall a, In a pre -> f a = false) -> f b = true ->
  find f (pre ++ b :: post) = Some b.
Proof.
  intros Hpre Hb; induction pre as [|a pre IH]; cbn [app find].
  - now rewrite Hb.
  - rewrite (Hpre a (or_introl eq_refl)). apply IH.
    intros a' Ha'; apply Hpre; now right.
Qed.

(** X12: when the trigger fires, in whatever phase, the sequencer picks the
    first object of the collection whose x-coordinate is above 0: it becomes
    the target, the phase is APPROACH, started now, from the current IK
    target to the point 2 above the object, the gripper is opened, and the
    completion callback is not called. *)
Theorem trigger_selects_first_object_in_pick_region :
  forall now w pre b post,
    triggerFires w = true ->
    boxes w = pre ++ b :: post ->
    (forall a, In a pre -> position0 a <= 0) ->
    position0 b > 0 ->
    let w' := triggerEffect now w in
    targetBoxId w' = Some (id b)
    /\ phase w' = APPROACH
    /\ phaseStartTime w' = now
    /\ startPos w' = ikTargetPos w
    /\ endPos w' = Vector3.mk (position0 b) (position1 b + 2) (position2 b)
    /\ gripperOpen w' = true
    /\ lastTrigger w' = runSequenceTrigger w
    /\ completions w' = completions w
    /\ boxes w' = boxes w /\ joints w' = joints w
    /\ heldBoxId w' = heldBoxId w /\ ikTargetPos w' = ikTargetPos w.
Proof.
  intros now w pre b post Hfire Hb Hpre Hx w'.
  assert (Hf : find (fun b => gtb (position0 b) 0) (boxes w) = Some b).
  { rewrite Hb. apply find_first.
    - intros a Ha. apply gtb_false. now apply Hpre.
    - now apply gtb_spec. }
  unfold w', triggerEffect. unfold triggerFires in Hfire. rewrite Hfire.
  cbn [boxes setLastTrigger]. rewrite Hf. repeat split; reflexivity.
Qed.

Lemma trigger_selects_first_object_in_pick_region_witness :
  let w := handleRunSequence (initialWorld initialBoxes) in
  triggerFires w = true
  /\ targetBoxId (triggerEffect 0 w) = Some "1"%string.
Proof.
  intros w.
  assert (Hfire : triggerFires w = true) by reflexivity.
  split; [exact Hfire|].
  assert (Hx : position0 (mkObject "1" (4, BOX_SIZE / 2, 0) "#ef4444" box) > 0).
  { unfold position0; cbn [position fst]. lra. }
  exact (proj1 (trigger_selects_first_object_in_pick_region 0 w [] _ _
                  Hfire eq_refl (fun a (H : In a []) => match H with end) Hx)).
Defined.

(** X13: the trigger effect acts once per trigger: run again, at any time,
    on the state it has produced, it changes nothing. *)
Theorem triggerEffect_runs_once :
  forall now now' w,
    triggerEffect now' (triggerEffect now w) = triggerEffect now w.
Proof.
  intros now now' w.
  assert (H : triggerFires (triggerEffect now w) = false).
  { unfold triggerFires, triggerEffect.
    destruct (Z.ltb (lastTrigger w) (runSequenceTrigger w)) eqn:E;
      [|exact E].
    cbn [boxes setLastTrigger].
    destruct (find _ _); cbn; apply Z.ltb_irrefl. }
  unfold triggerFires in H.
  unfold triggerEffect at 1. now rewrite H.
Qed.

Lemma find_idIs (s : string) (l : list SceneObject) :
  (In s (map id l) ->
   exists b, find (idIs (Some s)) l = Some b /\ id b = s /\ In b l)
  /\ (~ In s (map id l) -> find (idIs (Some s)) l = None).
Proof.
  induction l as [|a l [IH1 IH2]]; cbn [map find idIs].
  - split; [intros []|reflexivity].
  - destruct (String.eqb (id a) s) eqn:E.
    + apply String.eqb_eq in E. split.
      * intros _; exists a; repeat split; auto. now left.
      * intros Hn; exfalso; apply Hn; now left.
    + apply String.eqb_neq in E. split.
      * intros [H|H]; [congruence|].
        destruct (IH1 H) as (b & Hf & Hid & Hin).
        exists b; repeat split; auto. now right.
      * intros Hn; apply IH2; intros H; apply Hn; now right.
Qed.




Lemma past_deadline now w :
  (phaseDeadline w <= now)%Z ->
  arrived now w = true /\ gtb (phaseElapsed now w) 0.5 = true.
Proof.
  intros H. pose proof (phaseDuration_pos w) as Hd.
  assert (He : phaseDuration w < phaseElapsed now w).
  { unfold phaseElapsed, phaseDeadline in *.
    destruct (archimed (1000 * phaseDuration w)) as [Hu _].
    assert (Hz : IZR (up (1000 * phaseDuration w))
                 <= IZR (now - phaseStartTime w)) by (apply IZR_le; lia).
    lra. }
  split; [apply arrived_iff; lra | apply gtb_spec; lra].
Qed.

Lemma sequenceLogic_progress now w :
  arrived now w = true -> gtb (phaseElapsed now w) 0.5 = true ->
  phase (sequenceLogic now w) = nextPhase (phase w)
  \/ (phase w = APPROACH /\ phase (sequenceLogic now w) = IDLE
      /\ find (idIs (targetBoxId w)) (boxes w) = None).
Proof.
  intros Ha Hg. unfold sequenceLogic, phaseTransition.
  unfold arrived in Ha.
  destruct (phase w) eqn:Hp; cbn [stationary]; rewrite ?Ha, ?Hg, ?Hp;
    cbn [phase setIkTargetPos]; auto.
  cbn [targetBoxId setStartPos setPhaseStartTime setPhase boxes].
  destruct (find _ _) eqn:Hf; [left; reflexivity|].
  right; repeat split; reflexivity.
Qed.

Lemma sequenceLogic_same_phase now w :
  phase (sequenceLogic now w) = phase w ->
  phaseStartTime (sequenceLogic now w) = phaseStartTime w
  /\ startPos (sequenceLogic now w) = startPos w
  /\ endPos (sequenceLogic now w) = endPos w.
Proof.
  unfold sequenceLogic, phaseTransition.
  destruct (phase w) eqn:Hp; cbn [stationary]; auto;
    destruct (geb _ _); cbn [phase setIkTargetPos]; auto;
    try (destruct (gtb _ _); cbn; auto; rewrite ?Hp; discriminate);
    try (cbn; rewrite ?Hp; discriminate).
  cbn [targetBoxId setStartPos setPhaseStartTime setPhase boxes].
  destruct (find _ _); cbn; rewrite ?Hp; discriminate.
Qed.

Lemma useFrame_same_phase now tip w :
  phase (useFrame now tip w) = phase w ->
  phaseDeadline (useFrame now tip w) = phaseDeadline w.
Proof.
  rewrite useFrame_phase; intros H.
  destruct (sequenceLogic_same_phase now w H) as (Ht & Hs & He).
  destruct (useFrame_waypoints now tip w) as [Es Ee].
  unfold phaseDeadline, phaseDuration.
  now rewrite useFrame_phaseStartTime, Es, Ee, Ht, Hs, He.
Qed.

Lemma useFrame_rank now tip w :
  phase (useFrame now tip w) = phase w
  \/ (phaseRank (phase w) < phaseRank (phase (useFrame now tip w)))%nat.
Proof.
  rewrite useFrame_phase.
  destruct (sequenceLogic_step now w) as [H | [H | (Hp & H & _)]]; rewrite H.
  - now left.
  - destruct (phase w); cbn; auto; right; lia.
  - right; rewrite Hp; cbn; lia.
Qed.

Lemma useFrame_past_deadline now tip w :
  phase w <> IDLE -> (phaseDeadline w <= now)%Z ->
  (phaseRank (phase w) < phaseRank (phase (useFrame now tip w)))%nat.
Proof.
  intros Hp Hd. destruct (past_deadline now w Hd) as [Ha Hg].
  rewrite useFrame_phase.
  destruct (sequenceLogic_progress now w Ha Hg) as [H | (Hq & H & _)];
    rewrite H.
  - destruct (phase w); cbn; try lia. congruence.
  - rewrite Hq; cbn; lia.
Qed.

Lemma framesFrom_S clock tip s n w :
  framesFrom clock tip s (S n) w
  = framesFrom clock tip (S s) n (useFrame (clock s) (tip s) w).
Proof. reflexivity. Qed.

Lemma framesFrom_add clock tip n n' : forall s w,
  framesFrom clock tip s (n + n') w
  = framesFrom clock tip (s + n) n' (framesFrom clock tip s n w).
Proof.
  induction n as [|n IH]; intros s w.
  - now rewrite Nat.add_0_r.
  - cbn [Nat.add]. rewrite !framesFrom_S, IH. now rewrite Nat.add_succ_r.
Qed.

Lemma framesFrom_wait clock tip j : forall s w,
  (exists n, (n <= j)%nat
     /\ (phaseRank (phase w)
         < phaseRank (phase (framesFrom clock tip s n w)))%nat)
  \/ (phase (framesFrom clock tip s j w) = phase w
      /\ phaseDeadline (framesFrom clock tip s j w) = phaseDeadline w).
Proof.
  induction j as [|j IH]; intros s w; [right; split; reflexivity|].
  destruct (useFrame_rank (clock s) (tip s) w) as [Hsame | Hup].
  - destruct (IH (S s) (useFrame (clock s) (tip s) w)) as [(n & Hn & Hr) | [Hp Hd]].
    + left; exists (S n); split; [lia|]. rewrite framesFrom_S.
      now rewrite <- Hsame.
    + right. rewrite framesFrom_S, Hp, Hd.
      split; [assumption | now apply useFrame_same_phase].
  - left; exists 1%nat; split; [lia|]. exact Hup.
Qed.

Lemma framesFrom_phase_ends clock tip s w :
  (forall T, exists n, forall m, (n <= m)%nat -> (T <= clock m)%Z) ->
  phase w <> IDLE ->
  exists n, (phaseRank (phase w)
             < phaseRank (phase (framesFrom clock tip s n w)))%nat.
Proof.
  intros Hclock Hp.
  destruct (Hclock (phaseDeadline w)) as [N HN].
  destruct (framesFrom_wait clock tip N s w) as [(n & _ & Hr) | [Hq Hd]].
  - now exists n.
  - exists (N + 1)%nat. rewrite framesFrom_add.
    change (framesFrom clock tip (s + N) 1 ?v)
      with (useFrame (clock (s + N)%nat) (tip (s + N)%nat) v).
    rewrite <- Hq. apply useFrame_past_deadline.
    + now rewrite Hq.
    + rewrite Hd. apply HN. lia.
Qed.

Lemma framesFrom_reaches_idle clock tip :
  (forall T, exists n, forall m, (n <= m)%nat -> (T <= clock m)%Z) ->
  forall k s w, (10 - phaseRank (phase w) <= k)%nat ->
  exists n, phase (framesFrom clock tip s n w) = IDLE.
Proof.
  intros Hclock k; induction k as [|k IH]; intros s w Hk.
  - exists 0%nat. cbn. destruct (phase w); cbn in Hk; try lia. reflexivity.
  - destruct (phase w) eqn:Hp;
      [exists 0%nat; exact Hp | | | | | | | | |].
    all: destruct (framesFrom_phase_ends clock tip s w Hclock) as [n Hn];
      [rewrite Hp; discriminate|].
    all: destruct (IH (s + n)%nat (framesFrom clock tip s n w)) as [n' Hn'];
      [rewrite Hp in *; lia|].
    all: exists (n + n')%nat; now rewrite framesFrom_add.
Qed.

(** X15: a run always ends.  Whatever phase the sequencer is in, and however
    the frames are spaced, provided the clock readings of the frames grow
    beyond every bound and no new trigger intervenes, some frame brings the
    sequencer back to IDLE; if it was not idle, the completion callback has
    then been called exactly once. *)
Theorem sequence_always_completes :
  forall clock tip w,
    (forall T, exists n, forall m, (n <= m)%nat -> (T <= clock m)%Z) ->
    exists n,
      phase (framesFrom clock tip 0 n w) = IDLE
      /\ completions (framesFrom clock tip 0 n w)
         = if isIdle (phase w) then completions w else S (completions w).
Proof.
  intros clock tip w Hclock.
  destruct (framesFrom_reaches_idle clock tip Hclock 10 0%nat w) as [n Hn];
    [lia|].
  exists n; split; [exact Hn|].
  unfold framesFrom in *. rewrite frames_completions, Hn.
  destruct (phase w); reflexivity.
Qed.

Lemma sequence_always_completes_witness :
  exists n,
    phase (framesFrom (fun i => Z.of_nat i) (fun _ => None) 0 n startedWorld)
    = IDLE.
Proof.
  destruct (sequence_always_completes
              (fun i => Z.of_nat i) (fun _ => None) startedWorld) as [n [Hn _]].
  - intros T; exists (Z.to_nat T); intros m Hm; lia.
  - exists n; exact Hn.
Defined.


(** * The rendered arm against the chain *)

Lemma setFromEuler_still : setFromEuler (Euler.mk 0 0 0) = Quaternion.identity.
Proof.
  unfold setFromEuler, Quaternion.identity; cbn [Euler.x Euler.y Euler.z].
  replace (0 / 2) with 0 by field. rewrite sin_0, cos_0. f_equal; ring.
Qed.

Lemma setFromEuler_y angle :
  setFromEuler (Euler.mk 0 angle 0) = setFromAxisAngle axisY angle.
Proof.
  unfold setFromEuler, setFromAxisAngle, axisY;
    cbn [Euler.x Euler.y Euler.z Vector3.x Vector3.y Vector3.z].
  replace (0 / 2) with 0 by field. rewrite sin_0, cos_0. f_equal; ring.
Qed.

Lemma setFromEuler_z angle :
  setFromEuler (Euler.mk 0 0 angle) = setFromAxisAngle axisZ angle.
Proof.
  unfold setFromEuler, setFromAxisAngle, axisZ;
    cbn [Euler.x Euler.y Euler.z Vector3.x Vector3.y Vector3.z].
  replace (0 / 2) with 0 by field. rewrite sin_0, cos_0. f_equal; ring.
Qed.

Lemma applyQuaternion_origin q :
  Vector3.applyQuaternion (Vector3.mk 0 0 0) q = Vector3.mk 0 0 0.
Proof. vec_unfold; f_equal; ring. Qed.

(** The rendered tool tip against the tip of [calculateChain]: the nest of
    groups has two offsets that the chain leaves out, 1.5 along the forearm
    and 0.3 along the flange. *)
Lemma tipWorldPosition_chain joints :
  let c := calculateChain joints in
  tipWorldPosition joints
  = Vector3.add (endEffector c)
      (Vector3.add
         (Vector3.applyQuaternion (Vector3.mk 0 1.5 0)
            (nth 2 (rotations c) Quaternion.identity))
         (Vector3.applyQuaternion (Vector3.mk 0 0.3 0)
            (nth 5 (rotations c) Quaternion.identity))).
Proof.
  unfold tipWorldPosition, getWorldPosition, tipNest, calculateChain;
    cbv zeta.
  cbn [fold_left childTransform fst snd Group.position Group.rotation
       rotations endEffector nth].
  rewrite !setFromEuler_still, !setFromEuler_y, !setFromEuler_z,
    !multiply_identity_r, !multiply_identity_l, !applyQuaternion_origin,
    !add_origin_r, !add_origin_l.
  rewrite (applyQuaternion_yaw_vertical _ 1.1 (yaw_axisY _)).
  set (r1 := setFromAxisAngle axisY (- j1 joints)).
  set (r2 := Quaternion.multiply r1 _).
  set (r3 := Quaternion.multiply r2 _).
  set (r4 := Quaternion.multiply r3 _).
  set (r5 := Quaternion.multiply r4 _).
  set (r6 := Quaternion.multiply r5 _).
  generalize (Vector3.applyQuaternion (Vector3.mk 0 4 0) r2)
             (Vector3.applyQuaternion (Vector3.mk 0 1.5 0) r3)
             (Vector3.applyQuaternion (Vector3.mk 0 0.2 0) r4)
             (Vector3.applyQuaternion (Vector3.mk 0 0.8 0) r5)
             (Vector3.applyQuaternion (Vector3.mk 0 0.3 0) r6)
             (Vector3.applyQuaternion (Vector3.mk 0 0.5 0) r6).
  intros a b c d e f. unfold Vector3.add.
  cbn [Vector3.x Vector3.y Vector3.z]. f_equal; ring.
Qed.

Lemma length_sub_ge u v :
  Vector3.length u - Vector3.length v <= Vector3.length (Vector3.add u v).
Proof.
  pose proof (length_add (Vector3.add u v)
                (Vector3.multiplyScalar v (-1))) as H.
  replace (Vector3.add (Vector3.add u v) (Vector3.multiplyScalar v (-1)))
    with u in H by (destruct u, v; vec_unfold; f_equal; ring).
  assert (Hn : Vector3.length (Vector3.multiplyScalar v (-1))
               = Vector3.length v).
  { unfold Vector3.length; f_equal. vec_unfold; ring. }
  rewrite Hn in H. lra.
Qed.

Lemma tip_gap joints :
  let gap := Vector3.distanceTo (endEffector (calculateChain joints))
                                (tipWorldPosition joints) in
  1.2 <= gap <= 1.8.
Proof.
  cbv zeta. rewrite tipWorldPosition_chain; cbv zeta.
  rewrite distanceTo_add_l.
  pose proof (chain_rotations_unit joints) as Hu.
  assert (H3 : unitQ (nth 2 (rotations (calculateChain joints))
                          Quaternion.identity)).
  { revert Hu; chain_rotations; intros Hu.
    repeat match goal with H : Forall _ (_ :: _) |- _ =>
      inversion H; subst; clear H end. assumption. }
  assert (H6 : unitQ (nth 5 (rotations (calculateChain joints))
                          Quaternion.identity)).
  { revert Hu; chain_rotations; intros Hu.
    repeat match goal with H : Forall _ (_ :: _) |- _ =>
      inversion H; subst; clear H end. assumption. }
  set (u := Vector3.applyQuaternion _ (nth 2 _ _)).
  set (v := Vector3.applyQuaternion _ (nth 5 _ _)).
  assert (Lu : Vector3.length u = 1.5).
  { unfold u; rewrite (applyQuaternion_length _ _ H3).
    apply length_vertical; lra. }
  assert (Lv : Vector3.length v = 0.3).
  { unfold v; rewrite (applyQuaternion_length _ _ H6).
    apply length_vertical; lra. }
  pose proof (length_add u v). pose proof (length_sub_ge u v). lra.
Qed.


Lemma straightUp_rotations joints :
  straightUp joints ->
  yaw (nth 2 (rotations (calculateChain joints)) Quaternion.identity)
  /\ yaw (nth 5 (rotations (calculateChain joints)) Quaternion.identity).
Proof.
  intros (H2 & H3 & H5). chain_rotations.
  rewrite H2, H3, H5, !setFromAxisAngle_zero, !multiply_identity_r,
    !multiply_identity_l.
  split; auto 10 with chain.
Qed.

(** X16: the tool tip of the rendered arm is not the tip of the chain the
    solver steers.  The nest of groups of [RobotArm] has two offsets that
    [calculateChain] leaves out, 1.5 along the forearm and 0.3 along the
    flange, so whatever the joints are the two points are more than 1.19
    and less than 1.81 apart; at the zero pose the rendered tip is at
    (0, 9.9, 0) and the chain tip at (0, 8.1, 0). *)
Theorem rendered_tip_is_off_the_chain_tip :
  forall joints : RobotJoints,
    1.19 < Vector3.distanceTo (endEffector (calculateChain joints))
                              (tipWorldPosition joints) < 1.81
    /\ endEffector (calculateChain INITIAL_JOINTS) = Vector3.mk 0 8.1 0
    /\ tipWorldPosition INITIAL_JOINTS = Vector3.mk 0 9.9 0.
Proof.
  intros joints.
  split; [pose proof (tip_gap joints) as H; cbv zeta in H; lra|].
  assert (Hs : straightUp INITIAL_JOINTS) by (repeat split; reflexivity).
  destruct (straightUp_chain _ Hs) as (He & _).
  destruct (straightUp_rotations _ Hs) as (Y3 & Y6).
  split; [exact He|].
  rewrite tipWorldPosition_chain; cbv zeta.
  rewrite He, (applyQuaternion_yaw_vertical _ 1.5 Y3),
    (applyQuaternion_yaw_vertical _ 0.3 Y6).
  unfold Vector3.add; cbn [Vector3.x Vector3.y Vector3.z]. f_equal; lra.
Qed.

Lemma grabDistance_waypoint p b :
  grabDistance (gripReference p) b = Vector3.distanceTo p (pickWaypoint b).
Proof.
  unfold grabDistance, gripReference, pickWaypoint, Vector3.distanceTo,
    Vector3.distanceToSquared; cbv zeta.
  cbn [Vector3.x Vector3.y Vector3.z]. f_equal; ring.
Qed.

Lemma grabDistance_rendered joints b :
  1.2 - tipDistance (pickWaypoint b) joints
  <= grabDistance (gripReference (tipWorldPosition joints)) b.
Proof.
  rewrite grabDistance_waypoint. unfold tipDistance.
  pose proof (tip_gap joints) as [Hg _]; cbv zeta in Hg.
  pose proof (distanceTo_triangle (endEffector (calculateChain joints))
                (pickWaypoint b) (tipWorldPosition joints)) as Ht.
  rewrite (distanceTo_sym (tipWorldPosition joints)). lra.
Qed.

(** X17: the grab is tested at the rendered tool tip, which is at least 1.2
    from the chain tip, so an object is at least 1.2 minus the solver's
    error away from the gripper reference point when the chain tip is near
    its pick waypoint.  When the joints put the chain tip exactly on the
    pick waypoint of an object, closing the gripper does not grab that
    object. *)
Theorem exact_arrival_does_not_grab :
  forall (now : Z) (w : World) (b : SceneObject),
    In b (boxes w) ->
    NoDup (map id (boxes w)) ->
    prevGripperOpen w = true ->
    gripperOpen w = false ->
    heldBoxId w <> Some (id b) ->
    let tip := tipWorldPosition (joints w) in
    1.2 - tipDistance (pickWaypoint b) (joints w)
    <= grabDistance (gripReference tip) b
    /\ (endEffector (calculateChain (joints w)) = pickWaypoint b ->
        1.2 <= grabDistance (gripReference tip) b
        /\ heldBoxId (useFrame now (Some tip) w) <> Some (id b)).
Proof.
  intros now w b Hin Hnd Hprev Hopen Hheld tip.
  pose proof (grabDistance_rendered (joints w) b) as Hd.
  split; [exact Hd|]. intros Hat.
  assert (H0 : tipDistance (pickWaypoint b) (joints w) = 0).
  { unfold tipDistance; rewrite Hat.
    rewrite <- (add_origin_r (pickWaypoint b)) at 2.
    rewrite distanceTo_add_l.
    apply length_vertical; lra. }
  assert (Hfar : 1.2 <= grabDistance (gripReference tip) b)
    by (unfold tip; lra).
  split; [exact Hfar|].
  rewrite useFrame_heldBoxId, Hprev, Hopen; cbn [andb negb].
  destruct (grabScan_spec (gripReference tip) (boxes w))
    as [(b0 & Hb0 & Hs & Hlt & _) | (Hs & _)]; rewrite Hs.
  - destruct (truthy (Some (id b0))); [|exact Hheld].
    intros E; injection E as E.
    rewrite (NoDup_ids_unique _ Hnd b0 b Hb0 Hin E) in Hlt. lra.
  - cbn [truthy]. exact Hheld.
Qed.

Lemma exact_arrival_does_not_grab_witness :
  In raisedBox (boxes raisedWorld)
  /\ heldBoxId (useFrame 0 (Some (tipWorldPosition (joints raisedWorld)))
                  raisedWorld)
     <> Some (id raisedBox).
Proof.
  assert (Hin : In raisedBox (boxes raisedWorld)) by (left; reflexivity).
  assert (Hnd : NoDup (map id (boxes raisedWorld))).
  { cbn. constructor; [intros []|constructor]. }
  assert (Hheld : heldBoxId raisedWorld <> Some (id raisedBox))
    by discriminate.
  assert (Hat : endEffector (calculateChain (joints raisedWorld))
                = pickWaypoint raisedBox).
  { change (joints raisedWorld) with INITIAL_JOINTS.
    assert (Hs : straightUp INITIAL_JOINTS) by (repeat split; reflexivity).
    destruct (straightUp_chain _ Hs) as (-> & _).
    unfold pickWaypoint, raisedBox, position0, position1, position2;
      cbn [position fst snd]. f_equal; lra. }
  split; [exact Hin|].
  exact (proj2 (proj2 (exact_arrival_does_not_grab 0 raisedWorld raisedBox
                         Hin Hnd eq_refl eq_refl Hheld) Hat)).
Defined.


(** * Frames and the joints *)

Lemma sequenceLogic_idle now w : phase w = IDLE -> sequenceLogic now w = w.
Proof. intros Hp; unfold sequenceLogic; now rewrite Hp. Qed.

Lemma useFrame_joints now tip w :
  joints (useFrame now tip w)
  = if ikMode w || negb (isIdle (phase w))
    then solveIK (ikTargetPos w) (joints w) 5
    else joints w.
Proof.
  unfold useFrame.
  destruct (gripperLogic_fields tip w (ikLogic w (sequenceLogic now w)))
    as (_ & _ & _ & _ & _ & _ & _ & ->).
  unfold ikLogic.
  destruct (phase w) eqn:Hp; cbn [isIdle negb];
    destruct (ikMode w); cbn [orb]; try reflexivity.
  now rewrite sequenceLogic_idle.
Qed.

Lemma useFrame_ikMode now tip w : ikMode (useFrame now tip w) = ikMode w.
Proof.
  assert (Hs : ikMode (sequenceLogic now w) = ikMode w).
  { unfold sequenceLogic, phaseTransition. world_cases; reflexivity. }
  assert (Hi : forall v, ikMode (ikLogic w v) = ikMode v).
  { intros v; unfold ikLogic. world_cases; reflexivity. }
  assert (Hg : forall v, ikMode (gripperLogic tip w v) = ikMode v).
  { intros v; unfold gripperLogic. world_cases; reflexivity. }
  unfold useFrame. now rewrite Hg, Hi, Hs.
Qed.

Lemma startedWorld_joints : joints startedWorld = INITIAL_JOINTS.
Proof.
  unfold startedWorld, triggerEffect, handleRunSequence.
  cbn [lastTrigger runSequenceTrigger boxes setLastTrigger initialWorld].
  replace (0 <? 0 + 1)%Z with true by reflexivity.
  now rewrite initialBoxes_in_pick_region.
Qed.

Lemma frames_joints_inLimit key inputs : forall w,
  inLimit key (getJoint (joints w) key) ->
  inLimit key (getJoint (joints (frames inputs w)) key).
Proof.
  induction inputs as [|i inputs IH]; intros w H; [exact H|].
  rewrite frames_cons. apply IH. rewrite useFrame_joints.
  destruct (_ || _); [now apply solveIK_inLimit | exact H].
Qed.

Lemma frames_j6 inputs : forall w,
  j6 (joints (frames inputs w)) = j6 (joints w).
Proof.
  induction inputs as [|i inputs IH]; intros w; [reflexivity|].
  rewrite frames_cons, IH, useFrame_joints.
  destruct (_ || _); [apply outerLoop_j6 | reflexivity].
Qed.

(** X18: frames keep the joints in range.  Through any run of frames, with
    the IK mode on or off and the sequencer in any phase, a joint that is
    within its limits stays within them, and the flange angle [j6] is never
    written. *)
Theorem frames_keep_joints_within_limits :
  forall (inputs : list (Z * option Vector3.t)) (w : World),
    (forall key, inLimit key (getJoint (joints w) key) ->
                 inLimit key (getJoint (joints (frames inputs w)) key))
    /\ (withinLimits (joints w) -> withinLimits (joints (frames inputs w)))
    /\ j6 (joints (frames inputs w)) = j6 (joints w).
Proof.
  intros inputs w. split; [|split].
  - intros key; apply frames_joints_inLimit.
  - intros H key; apply frames_joints_inLimit, H.
  - apply frames_j6.
Qed.

Lemma frames_keep_joints_within_limits_witness :
  withinLimits (joints startedWorld)
  /\ withinLimits (joints (frames [(600%Z, None)] startedWorld)).
Proof.
  assert (H : withinLimits (joints startedWorld)).
  { rewrite startedWorld_joints. exact INITIAL_JOINTS_withinLimits. }
  split; [exact H|].
  exact (proj1 (proj2 (frames_keep_joints_within_limits
                         [(600%Z, None)] startedWorld)) H).
Defined.



Lemma ikModeEffect_frames inputs : forall w,
  ikMode w = true -> phase w = IDLE ->
  ikTargetPos w = endEffector (calculateChain (joints w)) ->
  joints (frames inputs w) = joints w
  /\ ikTargetPos (frames inputs w) = ikTargetPos w
  /\ phase (frames inputs w) = IDLE.
Proof.
  induction inputs as [|i inputs IH]; intros w Hm Hp Ht; [now repeat split|].
  rewrite frames_cons.
  assert (Hj : joints (useFrame (fst i) (snd i) w) = joints w).
  { rewrite useFrame_joints, Hm; cbn [orb].
    apply solveIK_at_target. unfold tipDistance.
    rewrite Ht, distanceTo_self. lra. }
  assert (Hk : ikTargetPos (useFrame (fst i) (snd i) w) = ikTargetPos w).
  { rewrite useFrame_ikTargetPos. now rewrite sequenceLogic_idle. }
  assert (Hq : phase (useFrame (fst i) (snd i) w) = IDLE).
  { rewrite useFrame_phase. now rewrite sequenceLogic_idle. }
  destruct (IH (useFrame (fst i) (snd i) w)) as (E1 & E2 & E3).
  - now rewrite useFrame_ikMode.
  - exact Hq.
  - now rewrite Hk, Hj.
  - now rewrite E1, E2, E3, Hj, Hk.
Qed.

(** X20: switching to IK mode does not move the arm.  The effect on the
    mode puts the IK target on the chain tip of the current joints; with
    the sequencer idle, the frames that follow return the joints as they
    are and leave the target there. *)
Theorem ik_mode_switch_does_not_move_the_arm :
  forall (inputs : list (Z * option Vector3.t)) (w : World),
    ikMode w = true -> phase w = IDLE ->
    let w' := ikModeEffect w in
    ikTargetPos w' = endEffector (calculateChain (joints w))
    /\ joints (frames inputs w') = joints w
    /\ ikTargetPos (frames inputs w') = endEffector (calculateChain (joints w)).
Proof.
  intros inputs w Hm Hp w'.
  assert (E : w' = setIkTargetPos (endEffector (calculateChain (joints w))) w).
  { unfold w', ikModeEffect. now rewrite Hm. }
  destruct (ikModeEffect_frames inputs w') as (E1 & E2 & _);
    try (rewrite E; assumption || reflexivity).
  rewrite E1, E2, E. repeat split; reflexivity.
Qed.


Lemma ik_mode_switch_does_not_move_the_arm_witness :
  let w := setIkMode true (initialWorld initialBoxes) in
  ikMode w = true
  /\ joints (frames [(0%Z, None); (16%Z, None)] (ikModeEffect w)) = joints w.
Proof.
  intros w. split; [reflexivity|].
  exact (proj1 (proj2 (ik_mode_switch_does_not_move_the_arm
                         [(0%Z, None); (16%Z, None)] w eq_refl eq_refl))).
Defined.

(** * The tracker and the objects *)

Lemma truthy_some s : truthy (Some s) = true -> s <> EmptyString.
Proof. destruct s; [discriminate|congruence]. Qed.

Lemma useFrame_trackerConsistent now tip w :
  trackerConsistent w -> trackerConsistent (useFrame now tip w).
Proof.
  intros [Hprev Hheld]. destruct tip as [p|].
  - unfold trackerConsistent.
    rewrite useFrame_prevGripperOpen, useFrame_ids, useFrame_heldBoxId.
    split.
    + intros Hg; rewrite Hg; cbn [negb andb]. rewrite andb_false_r, andb_true_r.
      destruct (prevGripperOpen w); cbn [negb]; auto.
    + intros s.
      destruct (prevGripperOpen w && negb (gripperOpen w)).
      * destruct (truthy (fst (grabScan (gripReference p) (boxes w)))) eqn:Et.
        -- intros E. rewrite E in Et. split; [now apply truthy_some|].
           destruct (grabScan_spec (gripReference p) (boxes w))
             as [(b & Hb & Hs & _) | (Hs & _)]; rewrite Hs in E.
           ++ injection E as <-. now apply in_map.
           ++ discriminate.
        -- apply Hheld.
      * destruct (negb (prevGripperOpen w) && gripperOpen w);
          [discriminate | apply Hheld].
  - destruct (useFrame_no_tip now w) as (Hb & Hh & Hp).
    unfold trackerConsistent. now rewrite Hb, Hh, Hp.
Qed.

Lemma triggerEffect_tracker now w :
  prevGripperOpen (triggerEffect now w) = prevGripperOpen w
  /\ heldBoxId (triggerEffect now w) = heldBoxId w
  /\ boxes (triggerEffect now w) = boxes w.
Proof. unfold triggerEffect; world_cases; repeat split; reflexivity. Qed.

(** X21: the tracker's refs stay consistent.  At mount, and after every
    frame, trigger effect, press of the run button, press of the gripper
    button and added object, nothing is held while the last frame saw the
    gripper open, and a held id is a non-empty string that names an object
    of the collection. *)
Theorem tracker_stays_consistent :
  (forall bs, trackerConsistent (initialWorld bs))
  /\ (forall w, trackerConsistent w ->
        (forall now tip, trackerConsistent (useFrame now tip w))
        /\ (forall inputs, trackerConsistent (frames inputs w))
        /\ (forall now, trackerConsistent (triggerEffect now w))
        /\ trackerConsistent (handleRunSequence w)
        /\ (forall v, trackerConsistent (setGripperOpen v w))
        /\ (forall r3 r4 newId shape color,
               trackerConsistent (handleAddObject r3 r4 newId shape color w))).
Proof.
  split.
  - intros bs; split; [reflexivity | discriminate].
  - intros w Hw. split; [intros; now apply useFrame_trackerConsistent|].
    split.
    { intros inputs; revert w Hw.
      induction inputs as [|i inputs IH]; intros w Hw; [exact Hw|].
      rewrite frames_cons. now apply IH, useFrame_trackerConsistent. }
    split.
    { intros now. destruct (triggerEffect_tracker now w) as (Hp & Hh & Hb).
      unfold trackerConsistent. now rewrite Hp, Hh, Hb. }
    split; [exact Hw|]. split; [intros v; exact Hw|].
    intros r3 r4 newId shape color. destruct Hw as [Hp Hh].
    split; [exact Hp|].
    intros s Hs. destruct (Hh s Hs) as [Hne Hin]. split; [exact Hne|].
    unfold handleAddObject; cbv zeta; cbn [boxes setBoxes].
    rewrite map_app. apply in_or_app; now left.
Qed.

Lemma tracker_stays_consistent_witness :
  trackerConsistent startedWorld
  /\ trackerConsistent (useFrame 600 None startedWorld).
Proof.
  destruct tracker_stays_consistent as [Hinit Hstep].
  destruct (Hstep (handleRunSequence (initialWorld initialBoxes)))
    as (_ & _ & Ht & _).
  - destruct (Hstep (initialWorld initialBoxes) (Hinit _)) as (_ & _ & _ & H & _).
    exact H.
  - split; [exact (Ht 0%Z)|].
    destruct (Hstep startedWorld (Ht 0%Z)) as (Hf & _). apply Hf.
Defined.

Lemma appearance_carry held g b : appearance (carry held g b) = appearance b.
Proof. unfold carry; destruct (idIs held b); reflexivity. Qed.

Lemma appearance_fall b : appearance (fall b) = appearance b.
Proof. unfold fall; destruct (airborne b); reflexivity. Qed.

Lemma useFrame_appearance now tip w :
  map appearance (boxes (useFrame now tip w)) = map appearance (boxes w).
Proof.
  destruct tip as [p|].
  - rewrite useFrame_boxes. destruct (truthy _); rewrite map_map;
      apply map_ext; intros b; [apply appearance_carry | apply appearance_fall].
  - now destruct (useFrame_no_tip now w) as (-> & _).
Qed.

Lemma carry_position held g b :
  carry held g b = b
  \/ (idIs held b = true
      /\ position (carry held g b) = (Vector3.x g, Vector3.y g, Vector3.z g)).
Proof. unfold carry; destruct (idIs held b); [right; split; reflexivity | now left]. Qed.

Lemma fall_position b :
  position0 (fall b) = position0 b /\ position2 (fall b) = position2 b
  /\ (position1 (fall b) <= position1 b \/ fall b = b).
Proof.
  unfold fall. destruct (airborne b) eqn:E; [|repeat split; auto].
  unfold position0, position1, position2; cbn [position fst snd].
  repeat split. left. apply gtb_spec in E.
  fold (position1 b). unfold Rmax; destruct (Rle_dec _ _); lra.
Qed.

(** X22: frames and trigger effects keep the collection as it is but for
    positions: through any run of frames the objects are the same in number
    and order, with the ids, colours and shapes they had.  In one frame an
    object either takes the gripper reference point, being the held one, or
    keeps its x and z and does not rise. *)
Theorem frames_keep_the_objects :
  forall (inputs : list (Z * option Vector3.t)) (w : World),
    map appearance (boxes (frames inputs w)) = map appearance (boxes w)
    /\ List.length (boxes (frames inputs w)) = List.length (boxes w)
    /\ (forall now, boxes (triggerEffect now w) = boxes w)
    /\ (forall now p n b,
           nth_error (boxes w) n = Some b ->
           exists b', nth_error (boxes (useFrame now (Some p) w)) n = Some b'
             /\ appearance b' = appearance b
             /\ ((idIs (heldBoxId (useFrame now (Some p) w)) b = true
                  /\ position b' = (Vector3.x (gripReference p),
                                    Vector3.y (gripReference p),
                                    Vector3.z (gripReference p)))
                 \/ (position0 b' = position0 b /\ position2 b' = position2 b
                     /\ position1 b' <= position1 b))).
Proof.
  intros inputs w.
  assert (Ha : map appearance (boxes (frames inputs w))
               = map appearance (boxes w)).
  { revert w; induction inputs as [|i inputs IH]; intros w; [reflexivity|].
    now rewrite frames_cons, IH, useFrame_appearance. }
  split; [exact Ha|]. split.
  { rewrite <- (length_map appearance), Ha. apply length_map. }
  split; [intros now; apply triggerEffect_tracker|].
  intros now p n b Hn. rewrite useFrame_boxes.
  destruct (truthy _).
  - exists (carry (heldBoxId (useFrame now (Some p) w)) (gripReference p) b).
    split; [now apply map_nth_error|].
    split; [apply appearance_carry|].
    destruct (carry_position (heldBoxId (useFrame now (Some p) w))
                (gripReference p) b) as [-> | H]; [right|left; exact H].
    repeat split; apply Rle_refl.
  - exists (fall b). split; [now apply map_nth_error|].
    split; [apply appearance_fall|]. right.
    destruct (fall_position b) as (H0 & H2 & [H1 | ->]); repeat split; auto.
    apply Rle_refl.
Qed.


Lemma frames_keep_the_objects_witness :
  exists b', nth_error (boxes (useFrame 0 (Some (Vector3.mk 4 3 0))
                                 (initialWorld initialBoxes))) 0 = Some b'
             /\ appearance b' = ("1"%string, "#ef4444"%string, box).
Proof.
  destruct (proj2 (proj2 (proj2
              (frames_keep_the_objects [] (initialWorld initialBoxes))))
              0%Z (Vector3.mk 4 3 0) 0%nat
              (mkObject "1" (4, BOX_SIZE / 2, 0) "#ef4444" box) eq_refl)
    as (b' & Hn & Ha & _).
  exists b'; split; [exact Hn | exact Ha].
Defined.

Lemma fall_groundOffset b : groundOffset (fall b) = groundOffset b.
Proof. unfold fall; destruct (airborne b); reflexivity. Qed.

Lemma fall_sunk b : position1 b <= groundOffset b + 0.01 -> fall b = b.
Proof. apply fall_at_rest. Qed.

Lemma fall_iter_sunk b n :
  position1 b <= groundOffset b + 0.01 -> Nat.iter n fall b = b.
Proof.
  intros H; induction n as [|n IH]; [reflexivity|].
  change (Nat.iter (S n) fall b) with (fall (Nat.iter n fall b)).
  rewrite IH. now apply fall_at_rest.
Qed.

Lemma fall_descends b :
  groundOffset b <= position1 b ->
  groundOffset b <= position1 (fall b) <= position1 b
  /\ position1 (fall b)
     <= Rmax (groundOffset b + 0.01) (position1 b - 0.2).
Proof.
  intros Hg. unfold fall. destruct (airborne b) eqn:E.
  - apply gtb_spec in E. unfold position1 in *; cbn [position fst snd] in *.
    unfold Rmax; repeat destruct (Rle_dec _ _); lra.
  - apply gtb_false in E. unfold Rmax; destruct (Rle_dec _ _); lra.
Qed.

Lemma fall_iter_descends b n :
  groundOffset b <= position1 b ->
  groundOffset b <= position1 (Nat.iter n fall b) <= position1 b
  /\ position1 (Nat.iter n fall b)
     <= Rmax (groundOffset b + 0.01) (position1 b - 0.2 * INR n)
  /\ groundOffset (Nat.iter n fall b) = groundOffset b.
Proof.
  intros Hg; induction n as [|n (IH1 & IH2 & IH3)].
  - change (Nat.iter 0 fall b) with b. change (INR 0) with 0.
    repeat split; try lra.
    unfold Rmax; destruct (Rle_dec _ _); lra.
  - change (Nat.iter (S n) fall b) with (fall (Nat.iter n fall b)).
    rewrite S_INR.
    destruct (fall_descends (Nat.iter n fall b)) as (H1 & H2);
      [rewrite IH3; lra|].
    rewrite fall_groundOffset, IH3 in *.
    repeat split; try lra.
    revert H2 IH2. unfold Rmax; repeat destruct (Rle_dec _ _); lra.
Qed.

(** X23: gravity brings every object to rest and never raises one.  With
    the sequencer idle, the gripper open and nothing held, take any run of
    frames and let [n] be the number of them whose tip reference is set
    (the others leave the objects as they are).  An object that starts at
    height [y], not below its rest height [g], is after the run between
    [g] and [y] and, to within the rounding margin, no higher than the
    larger of [g + 0.01] and [y - 0.2 n]; once [0.2 n] covers the drop it
    is at rest and a further frame leaves it where it is.  An object at or
    below [g + 0.01], sunk ones included, is never moved. *)
Theorem gravity_brings_objects_to_rest :
  forall (inputs : list (Z * option Vector3.t)) (w : World) (k : nat)
         (b : SceneObject),
    phase w = IDLE -> gripperOpen w = true -> heldBoxId w = None ->
    nth_error (boxes w) k = Some b ->
    let n := liveCount inputs in
    exists b',
      nth_error (boxes (frames inputs w)) k = Some b'
      /\ b' = Nat.iter n fall b
      /\ (position1 b <= groundOffset b + 0.01 -> b' = b)
      /\ (groundOffset b <= position1 b ->
          groundOffset b <= position1 b' <= position1 b
          /\ position1 b'
             <= Rmax (groundOffset b + 0.01) (position1 b - 0.2 * INR n)
                + rounding
          /\ (position1 b <= groundOffset b + 0.2 * INR n ->
              airborne b' = false /\ fall b' = b')).
Proof.
  intros inputs w k b Hp Hg Hh Hk n.
  exists (Nat.iter n fall b).
  rewrite (frames_idle_any inputs w Hp Hg Hh).
  split; [now apply map_nth_error|]. split; [reflexivity|].
  split; [apply fall_iter_sunk|].
  intros Hge. destruct (fall_iter_descends b n Hge) as (H1 & H2 & H3).
  split; [exact H1|]. split; [unfold rounding; lra|].
  intros Hn.
  assert (Hrest : position1 (Nat.iter n fall b)
                  <= groundOffset (Nat.iter n fall b) + 0.01).
  { rewrite H3. revert H2; unfold Rmax; destruct (Rle_dec _ _); lra. }
  split; [now apply gtb_false | now apply fall_at_rest].
Qed.

Lemma gravity_brings_objects_to_rest_witness :
  exists b',
    nth_error (boxes (frames [(0%Z, None); (16%Z, Some (Vector3.mk 0 8.1 0))]
                        (initialWorld initialBoxes))) 0 = Some b'
    /\ b' = mkObject "1" (4, BOX_SIZE / 2, 0) "#ef4444" box.
Proof.
  destruct (gravity_brings_objects_to_rest
              [(0%Z, None); (16%Z, Some (Vector3.mk 0 8.1 0))]
              (initialWorld initialBoxes) 0%nat
              (mkObject "1" (4, BOX_SIZE / 2, 0) "#ef4444" box)
              eq_refl eq_refl eq_refl eq_refl) as (b' & Hn & _ & Hs & _).
  exists b'; split; [exact Hn|]. apply Hs.
  unfold position1, groundOffset, BOX_SIZE; cbn [position fst snd shape]. lra.
Defined.

(** * Added objects *)

(** X24: an added object rests in the pick region.  For draws in [0, 1),
    [handleAddObject] appends one object and leaves the others as they
    are; the new object has the shape and colour asked for, lies with
    3 <= x <= 5 and -1 <= z <= 1, inside the ring of radius 2.5 drawn
    around the pick area, at its rest height, so gravity does not move it;
    its x is above 0, so a trigger can select it. *)
Theorem added_object_rests_in_pick_region :
  forall (random3 random4 : R) (newId : string) (shape0 : ObjectShape)
         (color0 : string) (w : World),
    0 <= random3 < 1 -> 0 <= random4 < 1 ->
    exists newObj,
      boxes (handleAddObject random3 random4 newId shape0 color0 w)
      = boxes w ++ [newObj]
      /\ appearance newObj = (newId, color0, shape0)
      /\ 3 <= position0 newObj <= 5
      /\ -1 <= position2 newObj <= 1
      /\ Rsqr (position0 newObj - Vector3.x PICK_AREA_POS)
         + Rsqr (position2 newObj - Vector3.z PICK_AREA_POS) < Rsqr 2.5
      /\ position1 newObj = groundOffset newObj
      /\ airborne newObj = false
      /\ fall newObj = newObj
      /\ inPickRegion newObj = true.
Proof.
  intros random3 random4 newId shape0 color0 w H3 H4.
  unfold handleAddObject; cbv zeta; cbn [boxes setBoxes].
  set (y := match shape0 with sphere => BOX_SIZE / 1.5 | _ => BOX_SIZE / 2 end).
  set (newObj := mkObject newId (4 + (random3 - 0.5) * 2, y, (random4 - 0.5) * 2)
                          color0 shape0).
  assert (H0 : position0 newObj = 4 + (random3 - 0.5) * 2) by reflexivity.
  assert (H1 : position1 newObj = y) by reflexivity.
  assert (H2 : position2 newObj = (random4 - 0.5) * 2) by reflexivity.
  assert (Hg : groundOffset newObj = y) by reflexivity.
  exists newObj. split; [reflexivity|]. split; [reflexivity|].
  rewrite H0, H1, H2, Hg.
  split; [lra|]. split; [lra|].
  split; [unfold PICK_AREA_POS, Rsqr; cbn [Vector3.x Vector3.z]; nra|].
  split; [reflexivity|].
  split; [unfold airborne; rewrite H1, Hg; apply gtb_false; lra|].
  split; [apply fall_at_rest; rewrite H1, Hg; lra|].
  unfold inPickRegion; rewrite H0. apply gtb_spec. lra.
Qed.

Lemma added_object_rests_in_pick_region_witness :
  exists newObj,
    boxes (handleAddObject 0.5 0.5 "k3x9q" sphere "#22c55e"
             (initialWorld initialBoxes))
    = initialBoxes ++ [newObj]
    /\ inPickRegion newObj = true.
Proof.
  destruct (added_object_rests_in_pick_region 0.5 0.5 "k3x9q" sphere
              "#22c55e" (initialWorld initialBoxes))
    as (newObj & Hb & _ & _ & _ & _ & _ & _ & _ & Hr); [lra | lra |].
  exists newObj; split; [exact Hb | exact Hr].
Defined.

